(** * Pair-year event summaries: a shallow embedding of [Code_Sample.py]

    The development follows the source file top to bottom: float32 cells
    with missing values, grouped table operations (shift, cumsum, last,
    stable sort, left merge), the causal-ordering flags, the pair-year base
    table, the batch cache, the 25-mask classification engine, the
    count/share rows and the run over entities. *)

From Stdlib Require Import String Ascii DecimalString.
From Stdlib Require Import List ZArith QArith Qround Bool Lia Lqa Arith Sorted.
Import ListNotations.

Local Open Scope Z_scope.

(** ** float32 cells *)

Module F32.

(** A cell of a float column: [None] is NaN, [Some q] a finite value.  Every
    finite float is a rational, and the program only compares cells and
    tests them for NaN, so comparisons are exact.  The columns hold
    cumulative counts and 0/1 indicators; infinities are left out. *)
Definition f32 : Type := option Q.

Definition NaN : f32 := None.

Definition num (z : Z) : f32 := Some (inject_Z z).

(** [np.isnan] *)
Definition isnan (x : f32) : bool :=
  match x with None => true | Some _ => false end.

Definition Qgtb (a b : Q) : bool := negb (Qle_bool a b).

(** [x > y] on floats: false as soon as one side is NaN. *)
Definition gt (x y : f32) : bool :=
  match x, y with
  | Some a, Some b => Qgtb a b
  | _, _ => false
  end.

(** [x == y] on floats: false as soon as one side is NaN. *)
Definition eqv (x y : f32) : bool :=
  match x, y with
  | Some a, Some b => Qeq_bool a b
  | _, _ => false
  end.

(** [np.nan_to_num(x, nan=d)] on a cell that is NaN or finite. *)
Definition nan_to_num (d : Q) (x : f32) : Q :=
  match x with Some q => q | None => d end.

Definition gt0 (x : f32) : bool := gt x (num 0).
Definition eq0 (x : f32) : bool := eqv x (num 0).

End F32.
Import F32.

(** ** Grouped table operations (pandas [groupby]) *)

Module Table.

Section Grouped.
Context {K : Type}.
Variable keq : K -> K -> bool.

(** Row positions that carry key [k], in table order. *)
Definition group_positions (keys : list K) (k : K) : list nat :=
  map fst (filter (fun p => keq (snd p) k)
                  (combine (seq 0 (length keys)) keys)).

(** Rank of row [i] inside its group: how many group rows precede it. *)
Definition rank (g : list nat) (i : nat) : nat :=
  length (filter (fun j => (j <? i)%nat) g).

(** [groupby(key)[col].shift(periods)]: the value [periods] rows earlier
    inside the group of the row (later when [periods] is negative), NaN
    when the group has no such row. *)
Definition shift_at (keys : list K) (col : list f32) (periods : Z) (i : nat)
  : f32 :=
  match nth_error keys i with
  | Some k =>
      let g := group_positions keys k in
      let q := Z.of_nat (rank g i) - periods in
      if (0 <=? q) && (q <? Z.of_nat (length g))
      then match nth_error g (Z.to_nat q) with
           | Some j => nth j col NaN
           | None => NaN
           end
      else NaN
  | None => NaN
  end.

Definition shift (keys : list K) (col : list f32) (periods : Z) : list f32 :=
  map (shift_at keys col periods) (seq 0 (length keys)).

(** [groupby(key)[col].cumsum()] on an integer column; the sums are exact
    integers, as they are for the indicator columns of a pair over its
    years. *)
Definition cumsum_at (keys : list K) (col : list Z) (i : nat) : Z :=
  match nth_error keys i with
  | Some k =>
      fold_right Z.add 0
        (map (fun j => nth j col 0)
             (filter (fun j => (j <=? i)%nat) (group_positions keys k)))
  | None => 0
  end.

Definition cumsum (keys : list K) (col : list Z) : list Z :=
  map (cumsum_at keys col) (seq 0 (length keys)).

(** The last non-missing value of a group, which is what the [last]
    aggregation of pandas returns; NaN when every value is missing. *)
Definition last_valid (l : list f32) : f32 :=
  fold_left (fun acc x => if isnan x then acc else x) l NaN.

(** [groupby(key)[col].transform('last')] *)
Definition transform_last (keys : list K) (col : list f32) : list f32 :=
  map (fun k => last_valid (map (fun j => nth j col NaN) (group_positions keys k)))
      keys.

(** Keys in order of first appearance ([sort=False]). *)
Fixpoint distinct (keys : list K) : list K :=
  match keys with
  | [] => []
  | k :: rest => k :: filter (fun k' => negb (keq k' k)) (distinct rest)
  end.

(** [groupby(key).groups]: each key with the index labels of its rows. *)
Definition groups (keys : list K) (labels : list nat) : list (K * list nat) :=
  map (fun k => (k, map (fun j => nth j labels 0%nat) (group_positions keys k)))
      (distinct keys).
End Grouped.

Section Sort.
Context {A : Type}.
Variable leb : A -> A -> bool.

Fixpoint insert (x : A) (l : list A) : list A :=
  match l with
  | [] => [x]
  | y :: l' => if leb x y then x :: l else y :: insert x l'
  end.

(** A stable sort; [kind='mergesort'] is stable as well, and a stable sort
    has one possible result. *)
Fixpoint stable_sort (l : list A) : list A :=
  match l with
  | [] => []
  | x :: l' => insert x (stable_sort l')
  end.
End Sort.

(** Order of the sort key (BoardName1, BoardName2, year). *)
Definition key3_leb (a b : string * string * Z) : bool :=
  let '(a1, a2, ay) := a in
  let '(b1, b2, by_) := b in
  match String.compare a1 b1 with
  | Lt => true
  | Gt => false
  | Eq => match String.compare a2 b2 with
          | Lt => true
          | Gt => false
          | Eq => ay <=? by_
          end
  end.

Definition pair_eqb (a b : string * string) : bool :=
  String.eqb (fst a) (fst b) && String.eqb (snd a) (snd b).

End Table.

(** ** Causal ordering of first increments *)

Module Causal.

(** Exceptions are [None]; [bind] sequences fallible steps. *)
Definition bind {A B : Type} (x : option A) (f : A -> option B) : option B :=
  match x with Some a => f a | None => None end.

Notation "x <- e ;; k" := (bind e (fun x => k))
  (at level 61, e at next level, right associativity).

(** [np.diff(v, prepend=v[0])] *)
Fixpoint diff_from (prev : Q) (v : list Q) : list Q :=
  match v with
  | [] => []
  | x :: rest => (x - prev)%Q :: diff_from x rest
  end.

(** [np.flatnonzero(d > 0)], the positions counted from [i]. *)
Fixpoint flatnonzero_pos (i : nat) (d : list Q) : list nat :=
  match d with
  | [] => []
  | x :: rest =>
      if Qgtb x 0 then i :: flatnonzero_pos (S i) rest
      else flatnonzero_pos (S i) rest
  end.

(** [_first_increment_index_np] on a finite sequence; [None] is its NaN
    result.  The sequences it receives went through [nan_to_num], so the
    first difference [v[0] - v[0]] is [0] and the NaN repair of [d[0]] has
    nothing to do. *)
Definition _first_increment_index_np (v : list Q) : option nat :=
  match v with
  | [] => None
  | v0 :: _ =>
      let d := diff_from v0 v in
      let idx := flatnonzero_pos 0 d in
      match idx with
      | i :: _ => Some i
      | [] => None
      end
  end.

(** [np.maximum.accumulate] *)
Fixpoint accumulate_from (m : Q) (v : list Q) : list Q :=
  match v with
  | [] => []
  | x :: rest =>
      let m' := if Qgtb x m then x else m in
      m' :: accumulate_from m' rest
  end.

Definition maximum_accumulate (v : list Q) : list Q :=
  match v with
  | [] => []
  | x :: rest => x :: accumulate_from x rest
  end.

(** Fancy indexing [a[idx]]: an index past the end raises. *)
Fixpoint take {A : Type} (a : list A) (idx : list nat) : option (list A) :=
  match idx with
  | [] => Some []
  | i :: rest =>
      x <- nth_error a i ;;
      xs <- take a rest ;;
      Some (x :: xs)
  end.

(** One store [a[i] = x]. *)
Fixpoint store {A : Type} (a : list A) (i : nat) (x : A) : option (list A) :=
  match a, i with
  | [], _ => None
  | _ :: rest, O => Some (x :: rest)
  | y :: rest, S i' => a' <- store rest i' x ;; Some (y :: a')
  end.

(** [a[idx] = x] *)
Fixpoint store_all {A : Type} (a : list A) (idx : list nat) (x : A)
  : option (list A) :=
  match idx with
  | [] => Some a
  | i :: rest => a' <- store a i x ;; store_all a' rest x
  end.

(** The test of one side for one pair:
    [(not isnan(o_i)) and (not isnan(l_i)) and (l_i >= o_i)]. *)
Definition side_ok (o_seq l_seq : list f32) : bool :=
  let o_m := maximum_accumulate (map (nan_to_num 0) o_seq) in
  let l_m := maximum_accumulate (map (nan_to_num 0) l_seq) in
  match _first_increment_index_np o_m, _first_increment_index_np l_m with
  | Some o_i, Some l_i => (o_i <=? l_i)%nat
  | _, _ => false
  end.

(** The loop body of [_compute_causal_flags_for_pairs] for one entry of
    [groups_index]. *)
Definition causal_step (o1 l1 o2 l2 : list f32)
    (st : list bool * list bool) (idx : list nat)
  : option (list bool * list bool) :=
  let '(ok1, ok2) := st in
  o1_seq <- take o1 idx ;;
  l1_seq <- take l1 idx ;;
  o2_seq <- take o2 idx ;;
  l2_seq <- take l2 idx ;;
  ok1' <- (if side_ok o1_seq l1_seq then store_all ok1 idx true else Some ok1) ;;
  ok2' <- (if side_ok o2_seq l2_seq then store_all ok2 idx true else Some ok2) ;;
  Some (ok1', ok2').

Fixpoint causal_loop (o1 l1 o2 l2 : list f32)
    (groups_index : list (list nat)) (st : list bool * list bool)
  : option (list bool * list bool) :=
  match groups_index with
  | [] => Some st
  | idx :: rest =>
      st' <- causal_step o1 l1 o2 l2 st idx ;;
      causal_loop o1 l1 o2 l2 rest st'
  end.

Definition _compute_causal_flags_for_pairs {K : Type}
    (groups_index : list (K * list nat)) (o1 l1 o2 l2 : list f32)
  : option (list bool * list bool) :=
  let n := length o1 in
  let ok1 := repeat false n in
  let ok2 := repeat false n in
  causal_loop o1 l1 o2 l2 (map snd groups_index) (ok1, ok2).

End Causal.

(** ** Pair-year base table *)

Module Base.
Import Table Causal.

Local Open Scope string_scope.

Inductive Entity : Type := disease | therapeutic.

Definition entity_name (e : Entity) : string :=
  match e with disease => "disease" | therapeutic => "therapeutic" end.

Definition Entity_eqb (a b : Entity) : bool :=
  match a, b with
  | disease, disease | therapeutic, therapeutic => true
  | _, _ => false
  end.

Definition newline : ascii := "010"%char.

Fixpoint strip_prefix (p s : string) : option string :=
  match p, s with
  | EmptyString, _ => Some s
  | String a p', String b s' =>
      if Ascii.eqb a b then strip_prefix p' s' else None
  | String _ _, EmptyString => None
  end.

Fixpoint has_newline (s : string) : bool :=
  match s with
  | EmptyString => false
  | String a s' => Ascii.eqb a newline || has_newline s'
  end.

(** The text matched by [(.+)$]: [$] also matches just before a newline that
    ends the string, and [.] matches no newline. *)
Fixpoint chomp (s : string) : string :=
  match s with
  | EmptyString => EmptyString
  | String a EmptyString => if Ascii.eqb a newline then EmptyString else s
  | String a s' => String a (chomp s')
  end.

(** [re.match(rf'^cum_{ent}_n_added_(.+)$', c)], giving [m.group(1)]. *)
Definition match_added (ent : Entity) (c : string) : option string :=
  match strip_prefix ("cum_" ++ entity_name ent ++ "_n_added_") c with
  | Some rest =>
      let g := chomp rest in
      match g with
      | EmptyString => None
      | _ => if has_newline g then None else Some g
      end
  | None => None
  end.

Definition detect_groups (columns : list string) (ent : Entity) : list string :=
  flat_map (fun c => match match_added ent c with
                     | Some g => [g]
                     | None => []
                     end) columns.

(** [groups_by_entity.get(ent, [])]; the dictionary maps an entity to the
    groups detected for it, so equal keys carry equal values. *)
Fixpoint get_groups (gbe : list (Entity * list string)) (ent : Entity)
  : list string :=
  match gbe with
  | [] => []
  | (e, gs) :: rest => if Entity_eqb e ent then gs else get_groups rest ent
  end.

(** A row of [boardex_citeline_originator_sample.csv]. *)
Record InterlockRow : Type := mkInterlockRow {
  i_BoardName1 : string;
  i_BoardName2 : string;
  i_year : Z;
  i_interlock_indirect : f32;
  i_interlock_direct : f32
}.

(** A row of the base table [df]. *)
Record BaseRow : Type := mkBaseRow {
  BoardName1 : string;
  BoardName2 : string;
  year : Z;
  interlock_indirect : Z;
  interlock_direct : Z;
  L1_interlock_indirect : Z;
  L1_interlock_direct : Z;
  cum_interlock_indirect : Z;
  cum_interlock_direct : Z;
  mask_indirect_yoy : bool;
  mask_direct_yoy : bool;
  mask_never : bool;
  mask_indirect : bool;
  mask_direct : bool;
  mask_no_interlock : bool;
  cum_interlock_direct_prev : Z
}.

(** Truncation toward zero, as a float-to-integer cast does. *)
Definition Qtrunc (q : Q) : Z :=
  if Qle_bool 0 q then Qfloor q else Qceiling q.

(** [.fillna(0).astype('int8')] and [.astype('int32')]; a value outside the
    integer range wraps. *)
Definition wrap (bits : Z) (z : Z) : Z :=
  (z + 2 ^ (bits - 1)) mod 2 ^ bits - 2 ^ (bits - 1).

Definition fillna0_int (bits : Z) (x : f32) : Z :=
  wrap bits (Qtrunc (nan_to_num 0 x)).

Definition isin (valid : list string) (s : string) : bool :=
  existsb (String.eqb s) valid.

Definition sort_key (r : InterlockRow) : string * string * Z :=
  (i_BoardName1 r, i_BoardName2 r, i_year r).

Definition pair_key (r : InterlockRow) : string * string :=
  (i_BoardName1 r, i_BoardName2 r).

(** The derived columns of [build_base] over the filtered, sorted rows. *)
Definition base_rows (df : list InterlockRow) : list BaseRow :=
  let keys := map pair_key df in
  let ind := map (fun r => fillna0_int 8 (i_interlock_indirect r)) df in
  let dir := map (fun r => fillna0_int 8 (i_interlock_direct r)) df in
  let L1_ind := map (fillna0_int 8) (shift pair_eqb keys (map num ind) 1) in
  let L1_dir := map (fillna0_int 8) (shift pair_eqb keys (map num dir) 1) in
  let cum_ind := cumsum pair_eqb keys ind in
  let cum_dir := cumsum pair_eqb keys dir in
  let cum_dir_prev :=
    map (fillna0_int 32) (shift pair_eqb keys (map num cum_dir) 1) in
  map (fun i =>
         let r := nth i df (mkInterlockRow "" "" 0 NaN NaN) in
         let yoy_i := (nth i ind 0 =? 1)%Z && (nth i L1_ind 0 =? 0)%Z in
         let yoy_d := (nth i dir 0 =? 1)%Z && (nth i L1_dir 0 =? 0)%Z in
         let never := (nth i cum_ind 0 =? 0)%Z && (nth i cum_dir 0 =? 0)%Z in
         {| BoardName1 := i_BoardName1 r;
            BoardName2 := i_BoardName2 r;
            year := i_year r;
            interlock_indirect := nth i ind 0;
            interlock_direct := nth i dir 0;
            L1_interlock_indirect := nth i L1_ind 0;
            L1_interlock_direct := nth i L1_dir 0;
            cum_interlock_indirect := nth i cum_ind 0;
            cum_interlock_direct := nth i cum_dir 0;
            mask_indirect_yoy := yoy_i;
            mask_direct_yoy := yoy_d;
            mask_never := never;
            mask_indirect := yoy_i;
            mask_direct := yoy_d;
            mask_no_interlock := never;
            cum_interlock_direct_prev := nth i cum_dir_prev 0 |})
      (seq 0 (length df)).

(** [build_base]: the whitelist [valid], the header [cols0] of the firm-year
    table and the interlock table are its inputs; [None] is the
    [RuntimeError] raised when no group is found. *)
Definition build_base (valid : list string) (cols0 : list string)
    (interlock : list InterlockRow) (want_entities : list Entity)
  : option (list BaseRow * list (Entity * list string)) :=
  let groups_by_entity :=
    map (fun ent => (ent, detect_groups cols0 ent)) want_entities in
  if negb (existsb (fun p => match snd p with [] => false | _ => true end)
                   groups_by_entity)
  then None
  else
    let interlock' :=
      filter (fun r => isin valid (i_BoardName1 r) && isin valid (i_BoardName2 r))
             interlock in
    let df := stable_sort (fun a b => key3_leb (sort_key a) (sort_key b))
                          interlock' in
    Some (base_rows df, groups_by_entity).

End Base.

(** ** Attaching a batch of groups and caching lags, leads and LAST *)

Module Batch.
Import Table Causal Base.

Local Open Scope string_scope.

(** A row of [citeline_originator_firmyr.csv]; [f_cell c] is the numeric
    value under the column named [c], NaN when it is empty or not a
    number. *)
Record FirmRow : Type := mkFirmRow {
  f_BoardName : string;
  f_year : Z;
  f_cell : string -> f32
}.

Record FirmTable : Type := mkFirmTable {
  f_columns : list string;
  f_rows : list FirmRow
}.

(** A row of the joined table [tmp]: the kept base columns, the matched
    firm-year on each side (none: every value of that side is missing) and
    the index label the row got from the merge. *)
Record JoinedRow : Type := mkJoinedRow {
  j_index : nat;
  j_base : BaseRow;
  j_side1 : option FirmRow;
  j_side2 : option FirmRow
}.

Definition col_added (entity : Entity) (g : string) : string :=
  "cum_" ++ entity_name entity ++ "_n_added_" ++ g.

Definition col_launch (entity : Entity) (g : string) : string :=
  "cum_" ++ entity_name entity ++ "_n_launch_" ++ g.

Definition side_value (side : option FirmRow) (c : string) : f32 :=
  match side with
  | Some fr => f_cell fr c
  | None => NaN
  end.

(** The column [c ++ "_1"] of [tmp], and the column [c ++ "_2"]. *)
Definition column_1 (tmp : list JoinedRow) (c : string) : list f32 :=
  map (fun r => side_value (j_side1 r) c) tmp.

Definition column_2 (tmp : list JoinedRow) (c : string) : list f32 :=
  map (fun r => side_value (j_side2 r) c) tmp.

(** [left.merge(right, on=[name, 'year'], how='left', sort=False)]: left
    order is kept, a left row is repeated once per matching right row. *)
Definition merge_left {L : Type} (left : list L) (name : L -> string)
    (yr : L -> Z) (firm : list FirmRow) : list (L * option FirmRow) :=
  flat_map
    (fun l =>
       match filter (fun fr => String.eqb (f_BoardName fr) (name l)
                               && (f_year fr =? yr l)%Z) firm with
       | [] => [(l, None)]
       | ms => map (fun fr => (l, Some fr)) ms
       end) left.

Definition joined_key (r : JoinedRow) : string * string * Z :=
  (BoardName1 (j_base r), BoardName2 (j_base r), year (j_base r)).

Definition joined_pair (r : JoinedRow) : string * string :=
  (BoardName1 (j_base r), BoardName2 (j_base r)).

(** [_attach_entity_batch].  The outer [None] is an exception (a column of
    [usecols] missing from the file), the inner [None] the value [None]
    returned for an empty group list. *)
Definition _attach_entity_batch (base : list BaseRow) (valid : list string)
    (citeline : FirmTable) (entity : Entity) (groups : list string)
  : option (option (list JoinedRow)) :=
  match groups with
  | [] => Some None
  | _ =>
      let usecols :=
        (["BoardName"; "year"]
         ++ flat_map (fun g => [col_added entity g; col_launch entity g]) groups)%list in
      if negb (forallb (fun c => existsb (String.eqb c) (f_columns citeline)) usecols)
      then None
      else
        let firm := filter (fun fr => isin valid (f_BoardName fr)) (f_rows citeline) in
        let m1 := merge_left base BoardName1 year firm in
        let m2 := merge_left m1 (fun p => BoardName2 (fst p))
                             (fun p => year (fst p)) firm in
        let tmp :=
          map (fun ip => {| j_index := fst ip;
                            j_base := fst (fst (snd ip));
                            j_side1 := snd (fst (snd ip));
                            j_side2 := snd (snd ip) |})
              (combine (seq 0 (length m2)) m2) in
        Some (Some (stable_sort (fun a b => key3_leb (joined_key a) (joined_key b))
                                tmp))
  end.

(** The cache of one batch; each entry gives, for a group of the batch, the
    column of that group, aligned with [tmp]. *)
Record Cache : Type := mkCache {
  c_cur_o1 : string -> list f32;  c_cur_o2 : string -> list f32;
  c_cur_l1 : string -> list f32;  c_cur_l2 : string -> list f32;
  c_L1_o1 : string -> list f32;   c_L1_o2 : string -> list f32;
  c_F1_o1 : string -> list f32;   c_F2_o1 : string -> list f32;
  c_F3_o1 : string -> list f32;
  c_F1_o2 : string -> list f32;   c_F2_o2 : string -> list f32;
  c_F3_o2 : string -> list f32;
  c_L1_l1 : string -> list f32;   c_L1_l2 : string -> list f32;
  c_LAST_o1 : string -> list f32; c_LAST_o2 : string -> list f32;
  c_LAST_l1 : string -> list f32; c_LAST_l2 : string -> list f32
}.

Definition _build_shift_last_cache (tmp : list JoinedRow) (entity : Entity)
  : Cache :=
  let add1 g := column_1 tmp (col_added entity g) in
  let add2 g := column_2 tmp (col_added entity g) in
  let lau1 g := column_1 tmp (col_launch entity g) in
  let lau2 g := column_2 tmp (col_launch entity g) in
  let g1 := map (fun r => BoardName1 (j_base r)) tmp in
  let g2 := map (fun r => BoardName2 (j_base r)) tmp in
  let gp := map joined_pair tmp in
  {| c_cur_o1 := add1;  c_cur_o2 := add2;
     c_cur_l1 := lau1;  c_cur_l2 := lau2;
     (* origination lags & leads *)
     c_L1_o1 := fun g => shift String.eqb g1 (add1 g) 1;
     c_L1_o2 := fun g => shift String.eqb g2 (add2 g) 1;
     c_F1_o1 := fun g => shift String.eqb g1 (add1 g) (-1);
     c_F2_o1 := fun g => shift String.eqb g1 (add1 g) (-2);
     c_F3_o1 := fun g => shift String.eqb g1 (add1 g) (-3);
     c_F1_o2 := fun g => shift String.eqb g2 (add2 g) (-1);
     c_F2_o2 := fun g => shift String.eqb g2 (add2 g) (-2);
     c_F3_o2 := fun g => shift String.eqb g2 (add2 g) (-3);
     (* launch lags *)
     c_L1_l1 := fun g => shift String.eqb g1 (lau1 g) 1;
     c_L1_l2 := fun g => shift String.eqb g2 (lau2 g) 1;
     (* LAST at pair level *)
     c_LAST_o1 := fun g => transform_last pair_eqb gp (add1 g);
     c_LAST_o2 := fun g => transform_last pair_eqb gp (add2 g);
     c_LAST_l1 := fun g => transform_last pair_eqb gp (lau1 g);
     c_LAST_l2 := fun g => transform_last pair_eqb gp (lau2 g) |}.

End Batch.

(** ** Event classification engine *)

Module Engine.

(** One row of the array dictionary [arr]: its arrays are columns of one
    table, so the bundle is kept row by row and a vectorised expression of
    the source is the per-row expression mapped over the rows. *)
Record Row : Type := mkRow {
  L1_o1 : f32; L1_o2 : f32;
  L1_l1 : f32; L1_l2 : f32;
  cur_o1 : f32; cur_o2 : f32;
  F1_o1 : f32; F2_o1 : f32; F3_o1 : f32;
  F1_o2 : f32; F2_o2 : f32; F3_o2 : f32;
  LAST_o1 : f32; LAST_o2 : f32; LAST_l1 : f32; LAST_l2 : f32;
  ok1 : bool; ok2 : bool
}.

Section Masks.
Variable base_mask : bool.
Variable r : Row.

Definition mask_na_orig : bool :=
  negb (isnan (L1_o1 r)) && negb (isnan (L1_o2 r)).
Definition mask_na_launch : bool :=
  negb (isnan (L1_l1 r)) && negb (isnan (L1_l2 r)).
Definition mask_na_future : bool :=
  negb (isnan (F3_o1 r)) && negb (isnan (F3_o2 r)).
Definition both_inexp_lag : bool :=
  Qeq_bool (nan_to_num (-1) (L1_o1 r)) 0 && Qeq_bool (nan_to_num (-1) (L1_o2 r)) 0.

Definition starts1_t_to_t2 : bool :=
  gt (cur_o1 r) (L1_o1 r) || gt (F1_o1 r) (L1_o1 r)
  || gt (F2_o1 r) (L1_o1 r) || gt (F3_o1 r) (L1_o1 r).
Definition starts2_t_to_t2 : bool :=
  gt (cur_o2 r) (L1_o2 r) || gt (F1_o2 r) (L1_o2 r)
  || gt (F2_o2 r) (L1_o2 r) || gt (F3_o2 r) (L1_o2 r).
Definition starts1_by_last : bool := gt (LAST_o1 r) (L1_o1 r).
Definition starts2_by_last : bool := gt (LAST_o2 r) (L1_o2 r).

Definition launched1_by_last : bool := gt (LAST_l1 r) (L1_l1 r).
Definition launched2_by_last : bool := gt (LAST_l2 r) (L1_l2 r).

Definition either_starts_t_to_t2_and_launched : bool :=
  (starts1_t_to_t2 && launched1_by_last && ok1 r)
  || (starts2_t_to_t2 && launched2_by_last && ok2 r).
Definition either_starts_by_last : bool :=
  starts1_by_last || starts2_by_last.

Definition b_second_base : bool :=
  mask_na_orig && mask_na_launch
  && ((eq0 (L1_l1 r) && eq0 (L1_o2 r)) || (eq0 (L1_o1 r) && eq0 (L1_l2 r))).

(* a.* *)
Definition a1 : bool :=
  base_mask && mask_na_orig
  && ((gt0 (L1_o1 r) && eq0 (L1_o2 r)) || (eq0 (L1_o1 r) && gt0 (L1_o2 r))).
Definition a2 : bool :=
  base_mask && mask_na_orig
  && ((gt0 (L1_o1 r) && eq0 (L1_o2 r) && gt0 (cur_o2 r))
      || (eq0 (L1_o1 r) && gt0 (L1_o2 r) && gt0 (cur_o1 r))).
Definition a3 : bool :=
  base_mask && mask_na_orig && mask_na_future
  && ((gt0 (L1_o1 r) && eq0 (L1_o2 r) && gt0 (F3_o2 r))
      || (eq0 (L1_o1 r) && gt0 (L1_o2 r) && gt0 (F3_o1 r))).
Definition a4 : bool :=
  base_mask && mask_na_orig && mask_na_future && mask_na_launch
  && ((gt0 (L1_o1 r) && eq0 (L1_o2 r) && starts2_t_to_t2 && launched2_by_last && ok2 r)
      || (eq0 (L1_o1 r) && gt0 (L1_o2 r) && starts1_t_to_t2 && launched1_by_last && ok1 r)).
Definition a5 : bool :=
  base_mask && mask_na_orig && mask_na_future
  && ((gt0 (L1_o1 r) && eq0 (L1_o2 r) && starts2_by_last)
      || (eq0 (L1_o1 r) && gt0 (L1_o2 r) && starts1_by_last)).
Definition a6 : bool :=
  base_mask && mask_na_orig && both_inexp_lag.
Definition a7 : bool :=
  base_mask && mask_na_orig && both_inexp_lag
  && (gt0 (cur_o1 r) || gt0 (cur_o2 r)).
Definition a8 : bool :=
  base_mask && mask_na_orig && mask_na_future && both_inexp_lag
  && (gt0 (F3_o1 r) || gt0 (F3_o2 r)).
Definition a9 : bool :=
  base_mask && mask_na_orig && mask_na_future && mask_na_launch
  && both_inexp_lag && either_starts_t_to_t2_and_launched.
Definition a10 : bool :=
  base_mask && mask_na_orig && mask_na_future && both_inexp_lag
  && either_starts_by_last.

(* b1..b5 *)
Definition b1 : bool :=
  base_mask && mask_na_orig && mask_na_launch
  && ((gt0 (L1_l1 r) && eq0 (L1_o2 r)) || (eq0 (L1_o1 r) && gt0 (L1_l2 r))).
Definition b2 : bool :=
  base_mask && mask_na_orig && mask_na_launch
  && ((gt0 (L1_l1 r) && eq0 (L1_o2 r) && gt0 (cur_o2 r))
      || (eq0 (L1_o1 r) && gt0 (L1_l2 r) && gt0 (cur_o1 r))).
Definition b3 : bool :=
  base_mask && mask_na_orig && mask_na_launch && mask_na_future
  && ((gt0 (L1_l1 r) && eq0 (L1_o2 r) && gt0 (F3_o2 r))
      || (eq0 (L1_o1 r) && gt0 (L1_l2 r) && gt0 (F3_o1 r))).
Definition b4 : bool :=
  base_mask && mask_na_orig && mask_na_launch && mask_na_future
  && ((gt0 (L1_l1 r) && eq0 (L1_o2 r) && starts2_t_to_t2 && launched2_by_last && ok2 r)
      || (eq0 (L1_o1 r) && gt0 (L1_l2 r) && starts1_t_to_t2 && launched1_by_last && ok1 r)).
Definition b5 : bool :=
  base_mask && mask_na_orig && mask_na_launch && mask_na_future
  && ((gt0 (L1_l1 r) && eq0 (L1_o2 r) && starts2_by_last)
      || (eq0 (L1_o1 r) && gt0 (L1_l2 r) && starts1_by_last)).

(* b6..b10 (directional & symmetric) *)
Definition b6 : bool := base_mask && b_second_base.
Definition b7 : bool :=
  base_mask && mask_na_orig && mask_na_launch
  && ((eq0 (L1_l1 r) && eq0 (L1_o2 r) && gt0 (cur_o2 r))
      || (eq0 (L1_l2 r) && eq0 (L1_o1 r) && gt0 (cur_o1 r))).
Definition b8 : bool :=
  base_mask && mask_na_orig && mask_na_launch && mask_na_future
  && ((eq0 (L1_l1 r) && eq0 (L1_o2 r) && gt0 (F3_o2 r))
      || (eq0 (L1_l2 r) && eq0 (L1_o1 r) && gt0 (F3_o1 r))).
Definition b9 : bool :=
  base_mask && mask_na_orig && mask_na_launch && mask_na_future
  && ((eq0 (L1_l1 r) && eq0 (L1_o2 r) && (starts2_t_to_t2 && launched2_by_last && ok2 r))
      || (eq0 (L1_l2 r) && eq0 (L1_o1 r) && (starts1_t_to_t2 && launched1_by_last && ok1 r))).
Definition b10 : bool :=
  base_mask && mask_na_orig && mask_na_launch && mask_na_future
  && ((eq0 (L1_l1 r) && eq0 (L1_o2 r) && starts2_by_last)
      || (eq0 (L1_l2 r) && eq0 (L1_o1 r) && starts1_by_last)).

(* rn* *)
Definition rn1 : bool :=
  base_mask && mask_na_orig && mask_na_launch
  && ((gt0 (L1_o1 r) && eq0 (L1_o2 r) && eq0 (L1_l1 r))
      || (eq0 (L1_o1 r) && gt0 (L1_o2 r) && eq0 (L1_l2 r))).
Definition rn2 : bool :=
  base_mask && mask_na_orig && mask_na_launch
  && ((gt0 (L1_o1 r) && eq0 (L1_o2 r) && eq0 (L1_l1 r) && gt0 (cur_o2 r))
      || (eq0 (L1_o1 r) && gt0 (L1_o2 r) && eq0 (L1_l2 r) && gt0 (cur_o1 r))).
Definition rn3 : bool :=
  base_mask && mask_na_orig && mask_na_launch && mask_na_future
  && ((gt0 (L1_o1 r) && eq0 (L1_o2 r) && eq0 (L1_l1 r) && gt0 (F3_o2 r))
      || (eq0 (L1_o1 r) && gt0 (L1_o2 r) && eq0 (L1_l2 r) && gt0 (F3_o1 r))).
Definition rn4 : bool :=
  base_mask && mask_na_orig && mask_na_launch && mask_na_future
  && ((gt0 (L1_o1 r) && eq0 (L1_o2 r) && eq0 (L1_l1 r)
       && (starts2_t_to_t2 && launched2_by_last && ok2 r))
      || (eq0 (L1_o1 r) && gt0 (L1_o2 r) && eq0 (L1_l2 r)
          && (starts1_t_to_t2 && launched1_by_last && ok1 r))).
Definition rn5 : bool :=
  base_mask && mask_na_orig && mask_na_launch && mask_na_future
  && ((gt0 (L1_o1 r) && eq0 (L1_o2 r) && eq0 (L1_l1 r) && gt (LAST_o2 r) (L1_o2 r))
      || (eq0 (L1_o1 r) && gt0 (L1_o2 r) && eq0 (L1_l2 r) && gt (LAST_o1 r) (L1_o1 r))).
End Masks.

(** The 25 masks in the order of the list [mats] of the source. *)
Definition mask_fns : list (bool -> Row -> bool) :=
  [a1; a2; a3; a4; a5; a6; a7; a8; a9; a10;
   b1; b2; b3; b4; b5; b6; b7; b8; b9; b10;
   rn1; rn2; rn3; rn4; rn5].

(** Positions of the masks in [mats]. *)
Inductive mask_id : Type :=
  | A1 | A2 | A3 | A4 | A5 | A6 | A7 | A8 | A9 | A10
  | B1 | B2 | B3 | B4 | B5 | B6 | B7 | B8 | B9 | B10
  | RN1 | RN2 | RN3 | RN4 | RN5.

Definition mask_ids : list mask_id :=
  [A1; A2; A3; A4; A5; A6; A7; A8; A9; A10;
   B1; B2; B3; B4; B5; B6; B7; B8; B9; B10;
   RN1; RN2; RN3; RN4; RN5].

Definition pos (m : mask_id) : nat :=
  match m with
  | A1 => 0 | A2 => 1 | A3 => 2 | A4 => 3 | A5 => 4
  | A6 => 5 | A7 => 6 | A8 => 7 | A9 => 8 | A10 => 9
  | B1 => 10 | B2 => 11 | B3 => 12 | B4 => 13 | B5 => 14
  | B6 => 15 | B7 => 16 | B8 => 17 | B9 => 18 | B10 => 19
  | RN1 => 20 | RN2 => 21 | RN3 => 22 | RN4 => 23 | RN5 => 24
  end%nat.

Definition mask_fn (m : mask_id) : bool -> Row -> bool :=
  match m with
  | A1 => a1 | A2 => a2 | A3 => a3 | A4 => a4 | A5 => a5
  | A6 => a6 | A7 => a7 | A8 => a8 | A9 => a9 | A10 => a10
  | B1 => b1 | B2 => b2 | B3 => b3 | B4 => b4 | B5 => b5
  | B6 => b6 | B7 => b7 | B8 => b8 | B9 => b9 | B10 => b10
  | RN1 => rn1 | RN2 => rn2 | RN3 => rn3 | RN4 => rn4 | RN5 => rn5
  end.

(** The base variant a refined mask belongs to. *)
Definition base_of (m : mask_id) : option mask_id :=
  match m with
  | A2 | A3 | A4 | A5 => Some A1
  | A7 | A8 | A9 | A10 => Some A6
  | B7 | B8 | B9 | B10 => Some B6
  | RN2 | RN3 | RN4 | RN5 => Some RN1
  | _ => None
  end.

(** Shape rule of numpy for the elementwise [&] of the base mask with an
    array expression over the rows: equal lengths pair up, a length-1 side is
    repeated, anything else raises. *)
Definition broadcast (base_mask : list bool) (arr : list Row)
  : option (list (bool * Row)) :=
  match base_mask, arr with
  | [b], _ => Some (map (pair b) arr)
  | _, [r] => Some (map (fun b => (b, r)) base_mask)
  | _, _ =>
      if (length base_mask =? length arr)%nat
      then Some (combine base_mask arr) else None
  end.

(** [m.sum()] of a boolean array. *)
Definition msum (m : list bool) : Z :=
  fold_right (fun (b : bool) acc => (if b then 1 else 0) + acc) 0 m.

(** The list [mats] of [compute_bundle_counts]: the 25 mask arrays. *)
Definition mats (arr : list Row) (base_mask : list bool)
  : option (list (list bool)) :=
  match broadcast base_mask arr with
  | Some rows =>
      Some (map (fun m => map (fun br => m (fst br) (snd br)) rows) mask_fns)
  | None => None
  end.

Definition compute_bundle_counts (arr : list Row) (base_mask : list bool)
  : option (list Z) :=
  option_map (map msum) (mats arr base_mask).

(** Entry [i] of mask [m] in a computed [mats]. *)
Definition mask_at (ms : list (list bool)) (m : mask_id) (i : nat) : bool :=
  nth i (nth (pos m) ms []) false.

Definition count_of (cs : list Z) (m : mask_id) : Z := nth (pos m) cs 0.

End Engine.

(** ** Counts, shares and report tables *)

Module Report.
Import Base.

Local Open Scope string_scope.

(** A cell of an output row: a group name or label, an integer count, or a
    float share.  A share is kept as the exact quotient; the float the
    program stores is that quotient rounded. *)
Inductive cell : Type :=
  | CStr (s : string)
  | CInt (z : Z)
  | CFloat (q : Q).

Definition _counts_shares (counts : list Z) (total : Z) : list cell :=
  if (total <=? 0)%Z
  then flat_map (fun c => [CInt c; CFloat 0]) counts
  else flat_map (fun c => [CInt c; CFloat (inject_Z c / inject_Z total)]) counts.

Definition str (n : nat) : string := NilEmpty.string_of_uint (Nat.to_uint n).

(** [for i in range(1,11): cols += [f'{p}{i}_Count', f'{p}{i}_Share']] *)
Definition count_share (p : string) : list string :=
  flat_map (fun i => [p ++ str i ++ "_Count"; p ++ str i ++ "_Share"]) (seq 1 10).

Definition rn_cols (p : string) : list string :=
  flat_map (fun i => [p ++ "rn" ++ str i ++ "_Count"; p ++ "rn" ++ str i ++ "_Share"])
           (seq 1 5).

Definition master_cols : list string :=
  (["GroupName"]
   ++ ["Total_Indirect_Event_Count"; "Total_Indirect_Event_Share"]
   ++ count_share "a." ++ count_share "b." ++ rn_cols "ab."
   ++ ["Total_Direct_Event_Count"; "Total_Direct_Event_Share"]
   ++ count_share "e." ++ count_share "f." ++ rn_cols "ef."
   ++ ["Total_NoInterlock_Event_Count"; "Total_NoInterlock_Event_Share"]
   ++ count_share "c." ++ count_share "d." ++ rn_cols "cd.")%list.

Definition yoy_cols (prefix_total_count prefix_total_share : string)
  : list string :=
  (["GroupName"; prefix_total_count; prefix_total_share]
   ++ count_share "a." ++ count_share "b." ++ rn_cols "")%list.

Definition fname (entity : Entity) (base : string) : string :=
  match entity with
  | disease => base
  | therapeutic => "therapeutic_" ++ base
  end.

Definition key_col (entity : Entity) : string :=
  match entity with
  | disease => "DiseaseGroup"
  | therapeutic => "TherapeuticGroup"
  end.

(** A written CSV file. *)
Record File : Type := mkFile {
  file_name : string;
  file_header : list string;
  file_rows : list (list cell)
}.

(** Position of a column name in a header. *)
Fixpoint index_of (c : string) (header : list string) : option nat :=
  match header with
  | [] => None
  | h :: rest =>
      if String.eqb h c then Some O
      else match index_of c rest with
           | Some i => Some (S i)
           | None => None
           end
  end.

(** The cell of a row under a column name. *)
Definition field (header : list string) (row : list cell) (c : string)
  : option cell :=
  match index_of c header with
  | Some i => nth_error row i
  | None => None
  end.

(** [df[cols]] on one row; a name absent from the header raises. *)
Fixpoint select (header : list string) (cols : list string) (row : list cell)
  : option (list cell) :=
  match cols with
  | [] => Some []
  | c :: rest =>
      match field header row c, select header rest row with
      | Some x, Some xs => Some (x :: xs)
      | _, _ => None
      end
  end.

Fixpoint select_all (header cols : list string) (rows : list (list cell))
  : option (list (list cell)) :=
  match rows with
  | [] => Some []
  | r :: rest =>
      match select header cols r, select_all header cols rest with
      | Some x, Some xs => Some (x :: xs)
      | _, _ => None
      end
  end.

(** Effects of the run: the files written so far are threaded through, and
    [None] as a result is a raised exception, after which nothing more is
    written. *)
Definition IO (A : Type) : Type := list File -> list File * option A.

Definition ret {A : Type} (a : A) : IO A := fun fs => (fs, Some a).

Definition raise {A : Type} : IO A := fun fs => (fs, None).

Definition seq_io {A B : Type} (m : IO A) (k : A -> IO B) : IO B :=
  fun fs =>
    match m fs with
    | (fs', Some a) => k a fs'
    | (fs', None) => (fs', None)
    end.

Notation "x <~ m ;; k" := (seq_io m (fun x => k))
  (at level 61, m at next level, right associativity).
Notation "m ;;; k" := (seq_io m (fun _ => k))
  (at level 61, right associativity).

(** A pure fallible step inside the run. *)
Definition lift {A : Type} (x : option A) : IO A :=
  match x with Some a => ret a | None => raise end.

(** [df.to_csv(path, index=False)] *)
Definition to_csv (name : string) (header : list string)
    (rows : list (list cell)) : IO unit :=
  fun fs => ((fs ++ [mkFile name header rows])%list, Some tt).

(** [pd.DataFrame(rows, columns=cols)]: every row must have one cell per
    column. *)
Definition DataFrame (rows : list (list cell)) (cols : list string)
  : IO (list (list cell)) :=
  if forallb (fun r => (length r =? length cols)%nat) rows
  then ret rows else raise.

(** [rename(columns={'GroupName': ...})] on the header. *)
Definition rename_key (entity : Entity) (cols : list string) : list string :=
  map (fun c => if String.eqb c "GroupName" then key_col entity else c) cols.

Definition emit_master (entity : Entity) (rows : list (list cell)) : IO unit :=
  out_master <~ DataFrame rows master_cols ;;
  let header := rename_key entity master_cols in
  let master_name :=
    "full_" ++ entity_name entity ++ "_results_with_all_scenarios.csv" in
  to_csv master_name header out_master ;;;
  let k := key_col entity in
  (* indirect legacy *)
  let ab_cols :=
    ([k; "Total_Indirect_Event_Count"; "Total_Indirect_Event_Share"]
     ++ count_share "a." ++ count_share "b." ++ rn_cols "ab.")%list in
  df_ab <~ lift (select_all header ab_cols out_master) ;;
  to_csv (fname entity "originate_changes_interlock_indirect_with_shares.csv")
         ([k; "Total_Interlock_Event_Count"; "Total_Interlock_Event_Share"]
          ++ count_share "a." ++ count_share "b." ++ rn_cols "ab.")%list
         df_ab ;;;
  (* direct legacy *)
  let ef_cols :=
    ([k; "Total_Direct_Event_Count"; "Total_Direct_Event_Share"]
     ++ count_share "e." ++ count_share "f." ++ rn_cols "ef.")%list in
  df_ef <~ lift (select_all header ef_cols out_master) ;;
  to_csv (fname entity "originate_changes_interlock_direct_with_shares.csv")
         ([k; "Total_Direct_Interlock_Event_Count";
           "Total_Direct_Interlock_Event_Share"]
          ++ count_share "a." ++ count_share "b." ++ rn_cols "ef.")%list
         df_ef ;;;
  (* no interlock legacy *)
  let cd_cols :=
    ([k; "Total_NoInterlock_Event_Count"; "Total_NoInterlock_Event_Share"]
     ++ count_share "c." ++ count_share "d." ++ rn_cols "cd.")%list in
  df_cd <~ lift (select_all header cd_cols out_master) ;;
  to_csv (fname entity "originate_changes_not_interlock_indirect_with_shares.csv")
         cd_cols df_cd.

Definition hist_cols (total_count total_share : string) : list string :=
  (["GroupName"; "HistoryBucket"; total_count; total_share]
   ++ count_share "a." ++ count_share "b." ++ rn_cols "")%list.

Definition emit_yoy (entity : Entity)
    (indirect_rows indirect_hist_rows direct_rows direct_hist_rows never_rows
       : list (list cell))
  : IO unit :=
  let cols_i :=
    yoy_cols "Total_Interlock_Event_Count" "Total_Interlock_Event_Share" in
  df_i <~ DataFrame indirect_rows cols_i ;;
  to_csv (fname entity "originate_changes_interlock_indirect_with_shares_YoY_events.csv")
         (rename_key entity cols_i) df_i ;;;
  let cols_ih :=
    hist_cols "Total_Interlock_Event_Count" "Total_Interlock_Event_Share" in
  df_ih <~ DataFrame indirect_hist_rows cols_ih ;;
  to_csv (fname entity "originate_changes_interlock_indirect_with_shares_by_prior_direct_history.csv")
         (rename_key entity cols_ih) df_ih ;;;
  let cols_d :=
    yoy_cols "Total_Direct_Interlock_Event_Count"
             "Total_Direct_Interlock_Event_Share" in
  df_d <~ DataFrame direct_rows cols_d ;;
  to_csv (fname entity "originate_changes_interlock_direct_with_shares_YoY_events.csv")
         (rename_key entity cols_d) df_d ;;;
  let cols_dh :=
    hist_cols "Total_Direct_Interlock_Event_Count"
              "Total_Direct_Interlock_Event_Share" in
  df_dh <~ DataFrame direct_hist_rows cols_dh ;;
  to_csv (fname entity "originate_changes_interlock_direct_with_share_by_prior_direct_history.csv")
         (rename_key entity cols_dh) df_dh ;;;
  let cols_n :=
    yoy_cols "Total_NoInterlock_Event_Count" "Total_NoInterlock_Event_Share" in
  df_n <~ DataFrame never_rows cols_n ;;
  to_csv (fname entity "originate_changes_not_interlock_with_shares_YoY_events.csv")
         (rename_key entity cols_n) df_n.

End Report.

(** ** Running one entity, batch by batch *)

Module Run.
Import Table Causal Base Batch Engine Report.

Local Open Scope string_scope.

(** The dictionary [arr]: the per-row bundle and the six base masks. *)
Record Arr : Type := mkArr {
  rows : list Row;
  arr_mask_indirect : list bool;
  arr_mask_direct : list bool;
  arr_mask_none : list bool;
  arr_mask_indirect_yoy : list bool;
  arr_mask_direct_yoy : list bool;
  arr_mask_never : list bool
}.

(** The dictionary [base_masks] taken from [tmp]. *)
Record BaseMasks : Type := mkBaseMasks {
  bm_mask_indirect : list bool;
  bm_mask_direct : list bool;
  bm_mask_none : list bool;
  bm_mask_indirect_yoy : list bool;
  bm_mask_direct_yoy : list bool;
  bm_mask_never : list bool
}.

Definition prepare_arrays_fast (base_masks : BaseMasks)
    (pair_groups_index : list (string * string * list nat))
    (cache : Cache) (group_name : string)
  : option Arr :=
  flags <- _compute_causal_flags_for_pairs pair_groups_index
             (c_cur_o1 cache group_name) (c_cur_l1 cache group_name)
             (c_cur_o2 cache group_name) (c_cur_l2 cache group_name) ;;
  let '(ok1, ok2) := flags in
  let at_ (col : Cache -> string -> list f32) (i : nat) : f32 :=
    nth i (col cache group_name) NaN in
  Some {|
    rows :=
      map (fun i =>
             {| L1_o1 := at_ c_L1_o1 i;  L1_o2 := at_ c_L1_o2 i;
                L1_l1 := at_ c_L1_l1 i;  L1_l2 := at_ c_L1_l2 i;
                cur_o1 := at_ c_cur_o1 i;  cur_o2 := at_ c_cur_o2 i;
                F1_o1 := at_ c_F1_o1 i;  F2_o1 := at_ c_F2_o1 i;
                F3_o1 := at_ c_F3_o1 i;
                F1_o2 := at_ c_F1_o2 i;  F2_o2 := at_ c_F2_o2 i;
                F3_o2 := at_ c_F3_o2 i;
                LAST_o1 := at_ c_LAST_o1 i;  LAST_o2 := at_ c_LAST_o2 i;
                LAST_l1 := at_ c_LAST_l1 i;  LAST_l2 := at_ c_LAST_l2 i;
                Engine.ok1 := nth i ok1 false;
                Engine.ok2 := nth i ok2 false |})
          (seq 0 (length (c_cur_o1 cache group_name)));
    arr_mask_indirect := bm_mask_indirect base_masks;
    arr_mask_direct := bm_mask_direct base_masks;
    arr_mask_none := bm_mask_none base_masks;
    arr_mask_indirect_yoy := bm_mask_indirect_yoy base_masks;
    arr_mask_direct_yoy := bm_mask_direct_yoy base_masks;
    arr_mask_never := bm_mask_never base_masks |}.

(** Elementwise [&] of two boolean columns of the base table. *)
Definition and_cols (a b : list bool) : list bool :=
  map (fun p => fst p && snd p) (combine a b).

(** [1.0 if tot else 0.0] *)
Definition total_share (tot : Z) : Q := if (tot =? 0)%Z then 0 else 1.

(** One block of the master row for a scenario. *)
Definition master_block (arr : Arr) (m : list bool) (tot : Z)
  : option (list cell) :=
  c <- compute_bundle_counts (rows arr) m ;;
  Some ([CInt tot; CFloat (total_share tot)] ++ _counts_shares c tot)%list.

(** A YoY row: [[g, tot, share] + _counts_shares(counts, tot)] with
    [tot = int(msk.sum())]. *)
Definition yoy_row (lead_cells : list cell) (arr : Arr) (msk : list bool)
  : option (list cell) :=
  let tot := msum msk in
  c <- compute_bundle_counts (rows arr) msk ;;
  Some (lead_cells ++ [CInt tot; CFloat (total_share tot)]
        ++ _counts_shares c tot)%list.

(** The row lists a run accumulates. *)
Record Rows : Type := mkRows {
  master_rows : list (list cell);
  indirect_rows : list (list cell);
  indirect_hist_rows : list (list cell);
  direct_rows : list (list cell);
  direct_hist_rows : list (list cell);
  never_rows : list (list cell)
}.

Definition no_rows : Rows := mkRows [] [] [] [] [] [].

(** The tables of the base table that [run_entity] reads before the loop. *)
Record BaseArrays : Type := mkBaseArrays {
  tot_indirect : Z; tot_direct : Z; tot_none : Z;
  ba_mask_indirect_yoy : list bool;
  ba_mask_direct_yoy : list bool;
  ba_mask_never : list bool;
  hist_no_prior : list bool;
  hist_prior : list bool
}.

Definition base_arrays (base_df : list BaseRow) : BaseArrays :=
  {| tot_indirect := msum (map mask_indirect base_df);
     tot_direct := msum (map mask_direct base_df);
     tot_none := msum (map mask_no_interlock base_df);
     ba_mask_indirect_yoy := map mask_indirect_yoy base_df;
     ba_mask_direct_yoy := map mask_direct_yoy base_df;
     ba_mask_never := map mask_never base_df;
     hist_no_prior := map (fun r => (cum_interlock_direct_prev r =? 0)%Z) base_df;
     hist_prior := map (fun r => (0 <? cum_interlock_direct_prev r)%Z) base_df |}.

(** The body of [for g in batch] in [run_entity]. *)
Definition group_step (ba : BaseArrays) (base_masks : BaseMasks)
    (pair_indices : list (string * string * list nat)) (cache : Cache)
    (acc : Rows) (g : string) : option Rows :=
  arr <- prepare_arrays_fast base_masks pair_indices cache g ;;
  (* Master (3 scenario bases) *)
  b_ind <- master_block arr (arr_mask_indirect arr) (tot_indirect ba) ;;
  b_dir <- master_block arr (arr_mask_direct arr) (tot_direct ba) ;;
  b_non <- master_block arr (arr_mask_none arr) (tot_none ba) ;;
  let row := ([CStr g] ++ b_ind ++ b_dir ++ b_non)%list in
  (* YoY overall + history *)
  r_i <- yoy_row [CStr g] arr (ba_mask_indirect_yoy ba) ;;
  r_i0 <- yoy_row [CStr g; CStr "no_prior_direct"] arr
            (and_cols (ba_mask_indirect_yoy ba) (hist_no_prior ba)) ;;
  r_i1 <- yoy_row [CStr g; CStr "prior_direct"] arr
            (and_cols (ba_mask_indirect_yoy ba) (hist_prior ba)) ;;
  r_d <- yoy_row [CStr g] arr (ba_mask_direct_yoy ba) ;;
  r_d0 <- yoy_row [CStr g; CStr "no_prior_direct"] arr
            (and_cols (ba_mask_direct_yoy ba) (hist_no_prior ba)) ;;
  r_d1 <- yoy_row [CStr g; CStr "prior_direct"] arr
            (and_cols (ba_mask_direct_yoy ba) (hist_prior ba)) ;;
  r_n <- yoy_row [CStr g] arr (ba_mask_never ba) ;;
  Some {| master_rows := (master_rows acc ++ [row])%list;
          indirect_rows := (indirect_rows acc ++ [r_i])%list;
          indirect_hist_rows := (indirect_hist_rows acc ++ [r_i0; r_i1])%list;
          direct_rows := (direct_rows acc ++ [r_d])%list;
          direct_hist_rows := (direct_hist_rows acc ++ [r_d0; r_d1])%list;
          never_rows := (never_rows acc ++ [r_n])%list |}.

Fixpoint group_loop (ba : BaseArrays) (base_masks : BaseMasks)
    (pair_indices : list (string * string * list nat)) (cache : Cache)
    (acc : Rows) (batch : list string) : option Rows :=
  match batch with
  | [] => Some acc
  | g :: rest =>
      acc' <- group_step ba base_masks pair_indices cache acc g ;;
      group_loop ba base_masks pair_indices cache acc' rest
  end.

(** The body of [for s in range(0, len(groups), BATCH)]. *)
Definition batch_step (base_df : list BaseRow) (valid : list string)
    (citeline : FirmTable) (entity : Entity) (ba : BaseArrays)
    (acc : Rows) (batch : list string) : option Rows :=
  attached <- _attach_entity_batch base_df valid citeline entity batch ;;
  match attached with
  | None | Some [] => Some acc
  | Some tmp =>
      let cache := _build_shift_last_cache tmp entity in
      let pair_indices := groups pair_eqb (map joined_pair tmp) (map j_index tmp) in
      let base_masks :=
        {| bm_mask_indirect := map (fun r => mask_indirect (j_base r)) tmp;
           bm_mask_direct := map (fun r => mask_direct (j_base r)) tmp;
           bm_mask_none := map (fun r => mask_no_interlock (j_base r)) tmp;
           bm_mask_indirect_yoy := map (fun r => mask_indirect_yoy (j_base r)) tmp;
           bm_mask_direct_yoy := map (fun r => mask_direct_yoy (j_base r)) tmp;
           bm_mask_never := map (fun r => mask_never (j_base r)) tmp |} in
      group_loop ba base_masks pair_indices cache acc batch
  end.

Fixpoint batch_loop (base_df : list BaseRow) (valid : list string)
    (citeline : FirmTable) (entity : Entity) (ba : BaseArrays)
    (acc : Rows) (batches : list (list string)) : option Rows :=
  match batches with
  | [] => Some acc
  | batch :: rest =>
      acc' <- batch_step base_df valid citeline entity ba acc batch ;;
      batch_loop base_df valid citeline entity ba acc' rest
  end.

(** [groups[s:s+BATCH] for s in range(0, len(groups), BATCH)]; a zero step
    raises. *)
Definition batches (groups : list string) (BATCH : nat)
  : option (list (list string)) :=
  match BATCH with
  | O => None
  | _ =>
      let n := length groups in
      Some (map (fun k => firstn BATCH (skipn (k * BATCH) groups))
                (seq 0 ((n + BATCH - 1) / BATCH)))
  end.

Definition run_entity (base_df : list BaseRow) (valid : list string)
    (citeline : FirmTable) (entity : Entity) (groups : list string)
    (BATCH : nat) : IO unit :=
  match groups with
  | [] => ret tt
  | _ =>
      let ba := base_arrays base_df in
      bs <~ lift (batches groups BATCH) ;;
      out <~ lift (batch_loop base_df valid citeline entity ba no_rows bs) ;;
      emit_master entity (master_rows out) ;;;
      emit_yoy entity (indirect_rows out) (indirect_hist_rows out)
               (direct_rows out) (direct_hist_rows out) (never_rows out)
  end.

Fixpoint run_all (df : list BaseRow) (valid : list string)
    (citeline : FirmTable) (groups_by_entity : list (Entity * list string))
    (ents : list Entity) : IO unit :=
  match ents with
  | [] => ret tt
  | ent :: rest =>
      run_entity df valid citeline ent (get_groups groups_by_entity ent) 20 ;;;
      run_all df valid citeline groups_by_entity rest
  end.

(** [main]: the three input tables are the whitelist [valid], the firm-year
    table [citeline] and the interlock table. *)
Definition main (valid : list string) (citeline : FirmTable)
    (interlock : list InterlockRow) (run_entities : list Entity) : IO unit :=
  built <~ lift (build_base valid (f_columns citeline) interlock run_entities) ;;
  let '(df, groups_by_entity) := built in
  run_all df valid citeline groups_by_entity run_entities.

End Run.

(** ** Concrete inputs used by the examples *)

Module Examples.
Import Table Causal Base Batch Engine Report Run.

Local Open Scope string_scope.

(** A pair-year whose lag-1 origination is a known zero on both sides while
    the lag-1 launch of side 1 is missing. *)
Definition row_launch_lag_missing : Row :=
  {| L1_o1 := num 0; L1_o2 := num 0;
     L1_l1 := NaN; L1_l2 := num 0;
     cur_o1 := num 1; cur_o2 := num 0;
     F1_o1 := num 1; F2_o1 := num 1; F3_o1 := num 2;
     F1_o2 := num 0; F2_o2 := num 0; F3_o2 := num 0;
     LAST_o1 := num 2; LAST_o2 := num 0; LAST_l1 := num 1; LAST_l2 := num 0;
     ok1 := true; ok2 := false |}.

(** Side 1 experienced at lag 1, side 2 starting in the current year. *)
Definition row_one_sided : Row :=
  {| L1_o1 := num 1; L1_o2 := num 0;
     L1_l1 := num 0; L1_l2 := num 0;
     cur_o1 := num 1; cur_o2 := num 1;
     F1_o1 := num 1; F2_o1 := num 1; F3_o1 := num 1;
     F1_o2 := num 1; F2_o2 := num 1; F3_o2 := num 1;
     LAST_o1 := num 1; LAST_o2 := num 1; LAST_l1 := num 0; LAST_l2 := num 1;
     ok1 := false; ok2 := true |}.

(** A small run: firm A is paired with B over 2000-2003 and with C over
    2000-2001; the indirect interlock of (A, B) lapses in 2002 and starts
    again in 2003. *)
Definition il (a b : string) (y i d : Z) : InterlockRow :=
  mkInterlockRow a b y (num i) (num d).

Definition ex_interlock : list InterlockRow :=
  [ il "A" "C" 2001 1 0; il "A" "B" 2000 0 0; il "A" "B" 2001 1 0;
    il "A" "C" 2000 0 0; il "A" "B" 2002 0 0; il "A" "B" 2003 1 1 ].

Definition fr (name : string) (y added launch : Z) : FirmRow :=
  mkFirmRow name y
    (fun c => if String.eqb c "cum_disease_n_added_X" then num added
              else if String.eqb c "cum_disease_n_launch_X" then num launch
              else NaN).

Definition ex_citeline : FirmTable :=
  mkFirmTable
    ["BoardName"; "year"; "cum_disease_n_added_X"; "cum_disease_n_launch_X"]
    [ fr "A" 2000 0 0; fr "A" 2001 1 0; fr "A" 2002 1 1; fr "A" 2003 2 1;
      fr "B" 2000 0 0; fr "B" 2001 0 0; fr "B" 2002 1 0; fr "B" 2003 1 1;
      fr "C" 2000 0 0; fr "C" 2001 3 0 ].

Definition ex_valid : list string := ["A"; "B"; "C"].

Definition ex_base : list BaseRow :=
  match build_base ex_valid (f_columns ex_citeline) ex_interlock
                   [disease; therapeutic] with
  | Some (df, _) => df
  | None => []
  end.

Definition ex_run : list File * option unit :=
  run_entity ex_base ex_valid ex_citeline disease ["X"] 20 [].

Definition no_file : File := mkFile "" [] [].

(** A firm-year table whose header names no group of either entity. *)
Definition ex_citeline_no_groups : FirmTable :=
  mkFirmTable ["BoardName"; "year"; "cum_disease_n_launch_X"; "n_added_X"]
              [ mkFirmRow "A" 2000 (fun _ => num 1) ].

(** Three rows of pair (A, B) followed by two rows of pair (A, C), with the
    current origination and launch values of both sides. *)
Definition ex_pair_keys : list (string * string) :=
  [("A", "B"); ("A", "B"); ("A", "B"); ("A", "C"); ("A", "C")].

Definition ex_o1 : list f32 := [num 0; num 1; num 1; num 0; num 0].
Definition ex_l1 : list f32 := [num 0; NaN; num 2; num 0; num 1].
Definition ex_o2 : list f32 := [num 1; num 1; num 3; NaN; num 2].
Definition ex_l2 : list f32 := [num 0; num 1; num 1; num 0; num 0].

Definition no_row : BaseRow :=
  mkBaseRow "" "" 0 0 0 0 0 0 0 false false false false false false 0.

(** The joined table of the small run for group X of the disease entity,
    and its cache. *)
Definition ex_tmp : list JoinedRow :=
  match _attach_entity_batch ex_base ex_valid ex_citeline disease ["X"] with
  | Some (Some tmp) => tmp
  | _ => []
  end.

Definition ex_cache : Cache := _build_shift_last_cache ex_tmp disease.

(** A run whose base table has the single pair-year (A, B, 2000) while the
    firm-year table holds the year 2000 of firm A three times: the joined
    table has three rows, the masks of the base table one entry. *)
Definition ex_interlock_one : list InterlockRow := [ il "A" "B" 2000 0 0 ].

Definition ex_citeline_repeat : FirmTable :=
  mkFirmTable (f_columns ex_citeline)
    [ fr "A" 2000 0 0; fr "A" 2000 0 0; fr "A" 2000 0 0; fr "B" 2000 0 0 ].

Definition ex_base_one : list BaseRow :=
  match build_base ex_valid (f_columns ex_citeline_repeat) ex_interlock_one
                   [disease] with
  | Some (df, _) => df
  | None => []
  end.

Definition ex_tmp_repeat : list JoinedRow :=
  match _attach_entity_batch ex_base_one ex_valid ex_citeline_repeat disease
                             ["X"] with
  | Some (Some tmp) => tmp
  | _ => []
  end.

(** The bundle of group X that [run_entity] builds in that run. *)
Definition ex_bundle_repeat : list Row :=
  match prepare_arrays_fast
          {| bm_mask_indirect := map (fun r => mask_indirect (j_base r)) ex_tmp_repeat;
             bm_mask_direct := map (fun r => mask_direct (j_base r)) ex_tmp_repeat;
             bm_mask_none := map (fun r => mask_no_interlock (j_base r)) ex_tmp_repeat;
             bm_mask_indirect_yoy :=
               map (fun r => mask_indirect_yoy (j_base r)) ex_tmp_repeat;
             bm_mask_direct_yoy :=
               map (fun r => mask_direct_yoy (j_base r)) ex_tmp_repeat;
             bm_mask_never := map (fun r => mask_never (j_base r)) ex_tmp_repeat |}
          (groups pair_eqb (map joined_pair ex_tmp_repeat)
                  (map j_index ex_tmp_repeat))
          (_build_shift_last_cache ex_tmp_repeat disease) "X" with
  | Some arr => rows arr
  | None => []
  end.

Definition ex_run_repeat : list File * option unit :=
  run_entity ex_base_one ex_valid ex_citeline_repeat disease ["X"] 20 [].

End Examples.

(** ** Vocabulary of the properties *)

Module Props.
Import Table Causal Base Batch Engine Report Run.

Local Open Scope string_scope.

(** The share columns of the 25 masks in a YoY or YoY-by-history file. *)
Definition mask_share_cols : list string :=
  List.app (map (fun i => "a." ++ str i ++ "_Share") (seq 1 10))
    (List.app (map (fun i => "b." ++ str i ++ "_Share") (seq 1 10))
              (map (fun i => "rn" ++ str i ++ "_Share") (seq 1 5))).

(** The YoY and YoY-by-history files with the names of their total-count and
    total-share columns. *)
Definition yoy_files : list (string * (string * string)) :=
  [ ("originate_changes_interlock_indirect_with_shares_YoY_events.csv",
     ("Total_Interlock_Event_Count", "Total_Interlock_Event_Share"));
    ("originate_changes_interlock_indirect_with_shares_by_prior_direct_history.csv",
     ("Total_Interlock_Event_Count", "Total_Interlock_Event_Share"));
    ("originate_changes_interlock_direct_with_shares_YoY_events.csv",
     ("Total_Direct_Interlock_Event_Count", "Total_Direct_Interlock_Event_Share"));
    ("originate_changes_interlock_direct_with_share_by_prior_direct_history.csv",
     ("Total_Direct_Interlock_Event_Count", "Total_Direct_Interlock_Event_Share"));
    ("originate_changes_not_interlock_with_shares_YoY_events.csv",
     ("Total_NoInterlock_Event_Count", "Total_NoInterlock_Event_Share")) ].

Definition is_yoy_file (entity : Entity) (f : File) (count_col share_col : string)
  : Prop :=
  In (file_name f, (count_col, share_col))
     (map (fun p => (fname entity (fst p), snd p)) yoy_files).

(** What C7 asks of one output row, read through the header of its file. *)
Definition yoy_row_ok (header : list string) (count_col share_col : string)
    (row : list cell) : Prop :=
  exists tot : Z,
    field header row count_col = Some (CInt tot)
    /\ (0 < tot -> field header row share_col = Some (CFloat 1))
    /\ (tot = 0 ->
        field header row share_col = Some (CFloat 0)
        /\ forall c, In c mask_share_cols -> field header row c = Some (CFloat 0))
    /\ 0 <= tot.

Definition master_name (entity : Entity) : string :=
  "full_" ++ entity_name entity ++ "_results_with_all_scenarios.csv".

(** The six scenario-total cells of a master row. *)
Definition master_totals (header : list string) (row : list cell)
  : list (option cell) :=
  map (field header row)
      [ "Total_Indirect_Event_Count"; "Total_Indirect_Event_Share";
        "Total_Direct_Event_Count"; "Total_Direct_Event_Share";
        "Total_NoInterlock_Event_Count"; "Total_NoInterlock_Event_Share" ].

(** The same six cells computed from the base table alone. *)
Definition base_totals (base_df : list BaseRow) : list (option cell) :=
  let ti := msum (map mask_indirect base_df) in
  let td := msum (map mask_direct base_df) in
  let tn := msum (map mask_no_interlock base_df) in
  [ Some (CInt ti); Some (CFloat (total_share ti));
    Some (CInt td); Some (CFloat (total_share td));
    Some (CInt tn); Some (CFloat (total_share tn)) ].

(** Shape of a YoY row with [n] leading label cells. *)
Definition yoy_shaped (n : nat) (row : list cell) : Prop :=
  exists lead tot cs,
    length lead = n /\ 0 <= tot /\ length cs = 25%nat
    /\ row = (lead ++ [CInt tot; CFloat (total_share tot)]
              ++ _counts_shares cs tot)%list.

(** Shape of a master row built over the base table [base_df]. *)
Definition master_shaped (base_df : list BaseRow) (row : list cell) : Prop :=
  exists g c1 c2 c3,
    length c1 = 25%nat /\ length c2 = 25%nat /\ length c3 = 25%nat
    /\ row = ([CStr g]
              ++ ([CInt (tot_indirect (base_arrays base_df));
                   CFloat (total_share (tot_indirect (base_arrays base_df)))]
                  ++ _counts_shares c1 (tot_indirect (base_arrays base_df)))
              ++ ([CInt (tot_direct (base_arrays base_df));
                   CFloat (total_share (tot_direct (base_arrays base_df)))]
                  ++ _counts_shares c2 (tot_direct (base_arrays base_df)))
              ++ ([CInt (tot_none (base_arrays base_df));
                   CFloat (total_share (tot_none (base_arrays base_df)))]
                  ++ _counts_shares c3 (tot_none (base_arrays base_df))))%list.

Definition rows_shaped (base_df : list BaseRow) (acc : Rows) : Prop :=
  Forall (master_shaped base_df) (master_rows acc)
  /\ Forall (yoy_shaped 1) (indirect_rows acc)
  /\ Forall (yoy_shaped 2) (indirect_hist_rows acc)
  /\ Forall (yoy_shaped 1) (direct_rows acc)
  /\ Forall (yoy_shaped 2) (direct_hist_rows acc)
  /\ Forall (yoy_shaped 1) (never_rows acc).

(** Every file an action adds to the written ones satisfies [P]. *)
Definition writes_only {A : Type} (P : File -> Prop) (m : IO A) : Prop :=
  forall fs fs' r, m fs = (fs', r) -> Forall P fs -> Forall P fs'.

(** The names of the total columns of the YoY files. *)
Definition total_col_names : list (string * string) :=
  [ ("Total_Interlock_Event_Count", "Total_Interlock_Event_Share");
    ("Total_Direct_Interlock_Event_Count", "Total_Direct_Interlock_Event_Share");
    ("Total_NoInterlock_Event_Count", "Total_NoInterlock_Event_Share") ].

(** The values of a column on the rows of one group, in table order. *)
Definition group_series {K : Type} (keq : K -> K -> bool) (keys : list K)
    (col : list f32) (k : K) : list f32 :=
  map (fun j => nth j col NaN) (group_positions keq keys k).

(** Position of the first element satisfying [p]. *)
Fixpoint find_index {A : Type} (p : A -> bool) (l : list A) : option nat :=
  match l with
  | [] => None
  | x :: rest =>
      if p x then Some O
      else match find_index p rest with
           | Some i => Some (S i)
           | None => None
           end
  end.

(** The eligibility of one side in the words of the specification: position
    of the first value of a series that is strictly above the value of its
    first row. *)
Definition first_above_first (m : list Q) : option nat :=
  match m with
  | [] => None
  | m0 :: _ => find_index (fun x => Qgtb x m0) m
  end.

(** The test of one side as the code computes it, with the first increment
    read as [first_above_first] on the code's own running maximum. *)
Definition eligible (o l : list f32) : bool :=
  match first_above_first (maximum_accumulate (map (nan_to_num 0) o)),
        first_above_first (maximum_accumulate (map (nan_to_num 0) l)) with
  | Some o_pos, Some l_pos => (o_pos <=? l_pos)%nat
  | _, _ => false
  end.

(** Following the specification's words, independently of the code.  The
    larger of two values; the largest value of a non-empty prefix; the running
    maximum of a series, whose entry at a row is the largest value among the
    rows up to and including that row. *)
Definition larger (a b : Q) : Q := if Qle_bool b a then a else b.

Definition largest (prefix : list Q) : Q :=
  match prefix with
  | [] => 0
  | x :: rest => fold_left larger rest x
  end.

Definition running_maximum (v : list Q) : list Q :=
  map (fun i => largest (firstn (S i) v)) (seq 0 (length v)).

(** Eligibility of one side in the specification's words: missing values
    become zero, the running maximum of the origination and of the launch
    series is taken, both monotone series must have a first value strictly
    above their first row, and the position of the launch one must not be
    before the position of the origination one. *)
Definition spec_eligible (o l : list f32) : bool :=
  match first_above_first (running_maximum (map (nan_to_num 0) o)),
        first_above_first (running_maximum (map (nan_to_num 0) l)) with
  | Some o_pos, Some l_pos => (o_pos <=? l_pos)%nat
  | _, _ => false
  end.

(** A series of one pair that dips and comes back to its first value. *)
Definition ex_dip_keys : list (string * string) :=
  [("A", "B"); ("A", "B"); ("A", "B")].
Definition ex_dip_o : list f32 := [num 2; num 1; num 2].
Definition ex_dip_l : list f32 := [num 0; num 0; num 1].

(** [group_positions] as a scan of the key column from position [s]. *)
Fixpoint positions_from {K : Type} (keq : K -> K -> bool) (s : nat)
    (keys : list K) (k : K) : list nat :=
  match keys with
  | [] => []
  | x :: rest =>
      if keq x k then s :: positions_from keq (S s) rest k
      else positions_from keq (S s) rest k
  end.

(** A sequence that never goes below [p] and never decreases. *)
Fixpoint nondecreasing_from (p : Q) (l : list Q) : Prop :=
  match l with
  | [] => True
  | x :: rest => (p <= x)%Q /\ nondecreasing_from x rest
  end.

(** Row [j] is the previous row of the group of row [i]: the closest earlier
    row with the same key. *)
Definition is_prev {K : Type} (keys : list K) (j i : nat) : Prop :=
  (j < i)%nat
  /\ nth_error keys j = nth_error keys i
  /\ forall m, (j < m < i)%nat -> nth_error keys m <> nth_error keys i.

Definition base_pair (r : BaseRow) : string * string :=
  (BoardName1 r, BoardName2 r).

(** The sum of an indicator over the rows of the pair of [r] among the first
    [i + 1] rows of the base table: the running count of the pair through
    row [i]. *)
Definition running_count (f : BaseRow -> Z) (base : list BaseRow) (i : nat)
    (r : BaseRow) : Z :=
  fold_right Z.add 0
    (map f (filter (fun r' => pair_eqb (base_pair r') (base_pair r))
                   (firstn (S i) base))).

(** The sort key of a base row. *)
Definition base_key (r : BaseRow) : string * string * Z :=
  (BoardName1 r, BoardName2 r, year r).

(** Sorted by [leb], neighbour by neighbour. *)
Definition sorted_by {A : Type} (leb : A -> A -> bool) (l : list A) : Prop :=
  Sorted (fun a b => leb a b = true) l.

End Props.

(** ** Vocabulary of the further properties *)

Module MoreProps.
Import Table Causal Base Batch Engine Report Run Props.

Local Open Scope string_scope.

(** The a-mask and the b-mask whose intersection an rn-mask is. *)
Definition rn_parts (m : mask_id) : option (mask_id * mask_id) :=
  match m with
  | RN1 => Some (A1, B6)
  | RN2 => Some (A2, B7)
  | RN3 => Some (A3, B8)
  | RN4 => Some (A4, B9)
  | RN5 => Some (A5, B10)
  | _ => None
  end.

(** The masks of the family "one side experienced at lag 1" and of the family
    "both sides inexperienced at lag 1". *)
Definition one_sided_family : list mask_id := [A1; A2; A3; A4; A5; RN1; RN2; RN3; RN4; RN5].
Definition inexperienced_family : list mask_id := [A6; A7; A8; A9; A10].

(** One base mask lies inside another, row by row. *)
Definition mask_le (M M' : list bool) : Prop :=
  Forall2 (fun b b' => b = true -> b' = true) M M'.

(** Two aligned rows of an engine input taken from the small run. *)
Definition two_rows : list Row := [Examples.row_one_sided; Examples.row_launch_lag_missing].

(** A numeric cell of a YoY row is in range: a count lies between 0 and the
    total of the row, a share between 0 and 1. *)
Definition cell_in_range (tot : Z) (c : cell) : Prop :=
  match c with
  | CStr _ => False
  | CInt z => 0 <= z <= tot
  | CFloat q => (0 <= q <= 1)%Q
  end.

(** The bundle of group X of the small run and the YoY mask of its base. *)
Definition ex_arr : option Arr :=
  let tmp := Examples.ex_tmp in
  let base_masks :=
    {| bm_mask_indirect := map (fun r => mask_indirect (j_base r)) tmp;
       bm_mask_direct := map (fun r => mask_direct (j_base r)) tmp;
       bm_mask_none := map (fun r => mask_no_interlock (j_base r)) tmp;
       bm_mask_indirect_yoy := map (fun r => mask_indirect_yoy (j_base r)) tmp;
       bm_mask_direct_yoy := map (fun r => mask_direct_yoy (j_base r)) tmp;
       bm_mask_never := map (fun r => mask_never (j_base r)) tmp |} in
  prepare_arrays_fast base_masks
    (groups pair_eqb (map joined_pair tmp) (map j_index tmp))
    Examples.ex_cache "X".

Definition ex_rows : list Row :=
  match ex_arr with Some arr => rows arr | None => [] end.

Definition ex_yoy_mask : list bool := map mask_indirect_yoy Examples.ex_base.

(** Eligibility of one side read on the series as they are, with missing
    values as zero and no running maximum: both series must have a row
    strictly above their first row, and the first such row of the launch
    series must not come before that of the origination series. *)
Definition raw_eligible (o l : list f32) : bool :=
  match first_above_first (map (nan_to_num 0) o),
        first_above_first (map (nan_to_num 0) l) with
  | Some o_pos, Some l_pos => (o_pos <=? l_pos)%nat
  | _, _ => false
  end.

(** No value of the series is above the value of its first row, missing
    values counting as zero. *)
Definition never_above_first (v : list f32) : Prop :=
  forall x, In x v -> (nan_to_num 0 x <= nan_to_num 0 (hd NaN v))%Q.

(** The LAST columns of a cache with the current columns they summarise. *)
Definition last_columns
  : list ((Cache -> string -> list f32) * (Cache -> string -> list f32)) :=
  [ (c_LAST_o1, c_cur_o1); (c_LAST_o2, c_cur_o2);
    (c_LAST_l1, c_cur_l1); (c_LAST_l2, c_cur_l2) ].

(** The lead columns of side 1 with their distance. *)
Definition lead_columns_1 : list (nat * (Cache -> string -> list f32)) :=
  [ (1%nat, c_F1_o1); (2%nat, c_F2_o1); (3%nat, c_F3_o1) ].

Definition lead_columns_2 : list (nat * (Cache -> string -> list f32)) :=
  [ (1%nat, c_F1_o2); (2%nat, c_F2_o2); (3%nat, c_F3_o2) ].

(** The firm column a side is grouped by, and the columns of that side. *)
Definition firm_column (side2 : bool) (tmp : list JoinedRow) : list string :=
  map (fun r => if side2 then BoardName2 (j_base r) else BoardName1 (j_base r)) tmp.

Definition lead_columns (side2 : bool) : list (nat * (Cache -> string -> list f32)) :=
  if side2 then lead_columns_2 else lead_columns_1.

Definition cur_o (side2 : bool) : Cache -> string -> list f32 :=
  if side2 then c_cur_o2 else c_cur_o1.
Definition cur_l (side2 : bool) : Cache -> string -> list f32 :=
  if side2 then c_cur_l2 else c_cur_l1.
Definition lag_o (side2 : bool) : Cache -> string -> list f32 :=
  if side2 then c_L1_o2 else c_L1_o1.
Definition lag_l (side2 : bool) : Cache -> string -> list f32 :=
  if side2 then c_L1_l2 else c_L1_l1.

(** The masks that carry the gate [mask_na_future]. *)
Definition future_gated : list mask_id :=
  [A3; A4; A5; A8; A9; A10; B3; B4; B5; B8; B9; B10; RN3; RN4; RN5].

(** Row [i] is the first row of the block of its firm on some side. *)
Definition first_of_firm_block (tmp : list JoinedRow) (i : nat) : Prop :=
  exists side2 k,
    nth_error (group_positions String.eqb (firm_column side2 tmp) k) 0 = Some i.

(** Row [i] is among the last three rows of the block of its firm on some
    side. *)
Definition in_last_three_of_firm_block (tmp : list JoinedRow) (i : nat) : Prop :=
  exists side2 k p,
    nth_error (group_positions String.eqb (firm_column side2 tmp) k) p = Some i
    /\ (length (group_positions String.eqb (firm_column side2 tmp) k) <= p + 3)%nat.

Definition ex_base_masks : BaseMasks :=
  {| bm_mask_indirect := map (fun r => mask_indirect (j_base r)) Examples.ex_tmp;
     bm_mask_direct := map (fun r => mask_direct (j_base r)) Examples.ex_tmp;
     bm_mask_none := map (fun r => mask_no_interlock (j_base r)) Examples.ex_tmp;
     bm_mask_indirect_yoy := map (fun r => mask_indirect_yoy (j_base r)) Examples.ex_tmp;
     bm_mask_direct_yoy := map (fun r => mask_direct_yoy (j_base r)) Examples.ex_tmp;
     bm_mask_never := map (fun r => mask_never (j_base r)) Examples.ex_tmp |}.

(** A list of batches of size [B]: every batch but the last has exactly [B]
    groups, the last has between 1 and [B]. *)
Fixpoint chunked (B : nat) (bs : list (list string)) : Prop :=
  match bs with
  | [] => True
  | b :: rest =>
      match rest with
      | [] => (0 < length b <= B)%nat
      | _ => length b = B /\ chunked B rest
      end
  end.

(** The firm-year rows that [_attach_entity_batch] keeps, the key they are
    merged on, and the firm-year found for a name and a year. *)
Definition whitelisted_firm (valid : list string) (citeline : FirmTable)
  : list FirmRow :=
  filter (fun fr => isin valid (f_BoardName fr)) (f_rows citeline).

Definition firm_year (fr : FirmRow) : string * Z := (f_BoardName fr, f_year fr).

Definition lookup_firm (firm : list FirmRow) (name : string) (y : Z)
  : option FirmRow :=
  find (fun fr => String.eqb (f_BoardName fr) name && (f_year fr =? y)%Z) firm.

(** The joined row of a base row at position [i]. *)
Definition joined_of (firm : list FirmRow) (ib : nat * BaseRow) : JoinedRow :=
  {| j_index := fst ib;
     j_base := snd ib;
     j_side1 := lookup_firm firm (BoardName1 (snd ib)) (year (snd ib));
     j_side2 := lookup_firm firm (BoardName2 (snd ib)) (year (snd ib)) |}.

(** The rows a run of one entity computes before it writes anything: the
    batches of the group list, then the loop over them. *)
Definition computed_rows (base_df : list BaseRow) (valid : list string)
    (citeline : FirmTable) (entity : Entity) (groups : list string)
    (BATCH : nat) : option Rows :=
  bs <- batches groups BATCH ;;
  batch_loop base_df valid citeline entity (base_arrays base_df) no_rows bs.

(** The names of the files of one entity, in the order they are written. *)
Definition master_file_names (entity : Entity) : list string :=
  [ master_name entity;
    fname entity "originate_changes_interlock_indirect_with_shares.csv";
    fname entity "originate_changes_interlock_direct_with_shares.csv";
    fname entity "originate_changes_not_interlock_indirect_with_shares.csv" ].

Definition yoy_file_names (entity : Entity) : list string :=
  map (fun p => fname entity (fst p)) yoy_files.

Definition entity_file_names (entity : Entity) : list string :=
  (master_file_names entity ++ yoy_file_names entity)%list.

(** Every row of a file has one cell per column of its header, and the first
    column of the header is the key column of the entity. *)
Definition rectangular (f : File) : Prop :=
  Forall (fun r => length r = length (file_header f)) (file_rows f).

Definition keyed (entity : Entity) (f : File) : Prop :=
  hd_error (file_header f) = Some (key_col entity).

Definition row_count (f : File) : nat := length (file_rows f).

(** The row counts of the nine files of a run that computed [out]. *)
Definition expected_row_counts (out : Rows) : list nat :=
  (repeat (length (master_rows out)) 4
   ++ [ length (indirect_rows out); length (indirect_hist_rows out);
        length (direct_rows out); length (direct_hist_rows out);
        length (never_rows out) ])%list.

Definition has_cols (header cols : list string) : bool :=
  forallb (fun c => match index_of c header with
                    | Some _ => true
                    | None => false
                    end) cols.

(** The leading label cells of the rows a run computes: the group name, and
    for the rows by history the group name and the bucket. *)
Definition row_labels (out : Rows) : Rows :=
  {| master_rows := map (firstn 1) (master_rows out);
     indirect_rows := map (firstn 1) (indirect_rows out);
     indirect_hist_rows := map (firstn 2) (indirect_hist_rows out);
     direct_rows := map (firstn 1) (direct_rows out);
     direct_hist_rows := map (firstn 2) (direct_hist_rows out);
     never_rows := map (firstn 1) (never_rows out) |}.

Definition group_labels (gs : list string) : list (list cell) :=
  map (fun g => [CStr g]) gs.

Definition hist_labels (gs : list string) : list (list cell) :=
  flat_map (fun g => [[CStr g; CStr "no_prior_direct"];
                      [CStr g; CStr "prior_direct"]]) gs.

Definition labels_for (gs : list string) : Rows :=
  {| master_rows := group_labels gs;
     indirect_rows := group_labels gs;
     indirect_hist_rows := hist_labels gs;
     direct_rows := group_labels gs;
     direct_hist_rows := hist_labels gs;
     never_rows := group_labels gs |}.

Definition append_rows (a b : Rows) : Rows :=
  {| master_rows := (master_rows a ++ master_rows b)%list;
     indirect_rows := (indirect_rows a ++ indirect_rows b)%list;
     indirect_hist_rows := (indirect_hist_rows a ++ indirect_hist_rows b)%list;
     direct_rows := (direct_rows a ++ direct_rows b)%list;
     direct_hist_rows := (direct_hist_rows a ++ direct_hist_rows b)%list;
     never_rows := (never_rows a ++ never_rows b)%list |}.

(** The groups that get rows: all of them, or none when the base table has no
    row and every batch is skipped. *)
Definition processed_groups (base_df : list BaseRow) (groups : list string)
  : list string :=
  match base_df with
  | [] => []
  | _ => groups
  end.

(** No cleaned indicator of the base table is negative. *)
Definition indicators_nonneg (base : list BaseRow) : bool :=
  forallb (fun r => (0 <=? interlock_indirect r)%Z
                   && (0 <=? interlock_direct r)%Z)
          base.

(** The requested entities for which groups were detected, in the order of
    the request. *)
Definition entities_with_groups (gbe : list (Entity * list string))
    (ents : list Entity) : list Entity :=
  filter (fun e => match get_groups gbe e with [] => false | _ => true end) ents.

(** How a run over several entities ended: normally with every entity done,
    or with an exception in the computation of the first entity not done. *)
Definition ended_at (df : list BaseRow) (valid : list string)
    (citeline : FirmTable) (gbe : list (Entity * list string))
    (rest : list Entity) (r : option unit) : Prop :=
  match r with
  | Some _ => rest = []
  | None =>
      exists e, hd_error rest = Some e
                /\ computed_rows df valid citeline e (get_groups gbe e) 20 = None
  end.

(** A firm-year table that has the added column of group X but not its
    launch column. *)
Definition ex_citeline_no_launch : FirmTable :=
  mkFirmTable ["BoardName"; "year"; "cum_disease_n_added_X"]
              [ mkFirmRow "A" 2000 (fun _ => num 1) ].

(** The cells of a row at a list of positions. *)
Fixpoint pick (row : list cell) (idxs : list nat) : option (list cell) :=
  match idxs with
  | [] => Some []
  | i :: rest =>
      match nth_error row i, pick row rest with
      | Some x, Some xs => Some (x :: xs)
      | _, _ => None
      end
  end.

(** The group name of a master row followed by the 52 cells of the scenario
    block that starts at position [off]. *)
Definition scenario_block (off : nat) (row : list cell) : list cell :=
  (firstn 1 row ++ firstn 52 (skipn off row))%list.

(** The master rows of the small run. *)
Definition ex_master_rows : list (list cell) :=
  match computed_rows Examples.ex_base Examples.ex_valid Examples.ex_citeline
                      disease ["X"] 20 with
  | Some out => master_rows out
  | None => []
  end.

(** Some base row finds two or more whitelisted firm-years for the firm of
    one of its sides in its year. *)
Definition matches_of (firm : list FirmRow) (name : string) (y : Z)
  : list FirmRow :=
  filter (fun fr => String.eqb (f_BoardName fr) name && (f_year fr =? y)%Z) firm.

Definition duplicated_firm_year (base : list BaseRow) (firm : list FirmRow)
  : bool :=
  existsb (fun b =>
             (2 <=? length (matches_of firm (BoardName1 b) (year b)))%nat
             || (2 <=? length (matches_of firm (BoardName2 b) (year b)))%nat)
          base.

(** The firm-year table of the small run with the row of firm A in 2000
    repeated. *)
Definition ex_citeline_dup : FirmTable :=
  mkFirmTable (f_columns Examples.ex_citeline)
              (Examples.fr "A" 2000 0 0 :: f_rows Examples.ex_citeline).

End MoreProps.

(** * Properties *)

Import F32 Table Causal Base Batch Engine Report Run Props Examples.

(** ** Comparisons of cells *)

Lemma Qgtb_lt (a b : Q) : Qgtb a b = true <-> (b < a)%Q.
Proof.
  unfold Qgtb. rewrite negb_true_iff.
  destruct (Qle_bool a b) eqn:E.
  - apply Qle_bool_iff in E. split; [discriminate | intro H; lra].
  - split; [intros _ | reflexivity].
    apply Qnot_le_lt. intro H. apply Qle_bool_iff in H. congruence.
Qed.

Lemma Qgtb_le (a b : Q) : Qgtb a b = false <-> (a <= b)%Q.
Proof.
  unfold Qgtb. rewrite negb_false_iff. apply Qle_bool_iff.
Qed.

(** ** The classification engine *)

Section EngineFacts.

Lemma mask_fns_ids : mask_fns = map mask_fn mask_ids.
Proof. reflexivity. Qed.

Lemma pos_lt (m : mask_id) : (pos m < 25)%nat.
Proof. destruct m; simpl; lia. Qed.

Lemma nth_pos_ids (m : mask_id) : nth_error mask_ids (pos m) = Some m.
Proof. destruct m; reflexivity. Qed.

Lemma msum_cons (b : bool) (l : list bool) :
msum (b :: l) = (if b then 1 else 0) + msum l.
Proof. reflexivity. Qed.

Lemma msum_nonneg (l : list bool) : 0 <= msum l.
Proof.
induction l as [|b l IH]; [cbv; discriminate|].
rewrite msum_cons. destruct b; lia.
Qed.

Lemma msum_map_le {A : Type} (f g : A -> bool) (l : list A) :
(forall x, In x l -> f x = true -> g x = true) ->
msum (map f l) <= msum (map g l).
Proof.
induction l as [|x l IH]; intros H; cbn [map]; [lia|].
assert (IH' : msum (map f l) <= msum (map g l)).
{ apply IH. intros y Hy. apply H. now right. }
rewrite !msum_cons. destruct (f x) eqn:Ef.
- rewrite (H x (or_introl eq_refl) Ef). lia.
- destruct (g x); lia.
Qed.

Lemma msum_combine_le (f : bool * Row -> bool) :
(forall b r, f (b, r) = true -> b = true) ->
forall (M : list bool) (arr : list Row),
  msum (map f (combine M arr)) <= msum M.
Proof.
intros Hf. induction M as [|b M IH]; intros arr; [cbv; discriminate|].
destruct arr as [|r arr]; cbn [combine map]; rewrite !msum_cons.
- pose proof (msum_nonneg M). change (msum []) with 0. destruct b; lia.
- specialize (IH arr). destruct (f (b, r)) eqn:E.
  + rewrite (Hf _ _ E). lia.
  + destruct b; lia.
Qed.

Lemma broadcast_aligned (M : list bool) (arr : list Row) :
length M = length arr -> broadcast M arr = Some (combine M arr).
Proof.
intros H. unfold broadcast.
destruct M as [|b [|b' M]]; destruct arr as [|r [|r' arr]];
  simpl in H; try discriminate; try reflexivity.
- injection H as H. apply Nat.eqb_eq in H.
  cbn [length]. cbn [Nat.eqb]. rewrite H. reflexivity.
Qed.

Lemma mats_aligned (arr : list Row) (M : list bool) :
length M = length arr ->
mats arr M =
  Some (map (fun m => map (fun br => mask_fn m (fst br) (snd br)) (combine M arr))
            mask_ids).
Proof.
intros H. unfold mats. rewrite (broadcast_aligned _ _ H).
rewrite mask_fns_ids, map_map. reflexivity.
Qed.

Lemma counts_aligned (arr : list Row) (M : list bool) :
length M = length arr ->
compute_bundle_counts arr M =
  Some (map (fun m => msum (map (fun br => mask_fn m (fst br) (snd br))
                                (combine M arr)))
            mask_ids).
Proof.
intros H. unfold compute_bundle_counts. rewrite (mats_aligned _ _ H).
cbn [option_map]. rewrite map_map. reflexivity.
Qed.

Lemma nth_error_combine {A B : Type} (l : list A) (l' : list B) i a b :
nth_error l i = Some a -> nth_error l' i = Some b ->
nth_error (combine l l') i = Some (a, b).
Proof.
revert l' i. induction l as [|x l IH]; intros [|y l'] [|i]; simpl;
  try discriminate; intros H1 H2.
- congruence.
- now apply IH.
Qed.

(** Entry [i] of a mask array is the row expression at row [i]. *)
Lemma mask_at_aligned (arr : list Row) (M : list bool) (m : mask_id)
  (i : nat) (b : bool) (r : Row) :
nth_error M i = Some b -> nth_error arr i = Some r ->
mask_at (map (fun m => map (fun br => mask_fn m (fst br) (snd br)) (combine M arr))
             mask_ids) m i
= mask_fn m b r.
Proof.
intros Hb Hr. unfold mask_at.
set (col := fun m => map (fun br => mask_fn m (fst br) (snd br)) (combine M arr)).
assert (Hm : nth_error (map col mask_ids) (pos m) = Some (col m))
  by (rewrite nth_error_map, nth_pos_ids; reflexivity).
rewrite (nth_error_nth _ _ [] Hm).
assert (Hi : nth_error (col m) i = Some (mask_fn m b r)).
{ unfold col. rewrite nth_error_map, (nth_error_combine _ _ _ _ _ Hb Hr).
  reflexivity. }
apply (nth_error_nth _ _ false Hi).
Qed.

Lemma count_of_aligned (f : mask_id -> Z) (m : mask_id) :
count_of (map f mask_ids) m = f m.
Proof.
unfold count_of. apply nth_error_nth.
rewrite nth_error_map, nth_pos_ids. reflexivity.
Qed.

End EngineFacts.

Ltac bool_props :=
  repeat rewrite ?andb_true_iff, ?orb_true_iff, ?andb_false_iff, ?orb_false_iff in *.

(** Every mask is a conjunction that starts with the base mask. *)
Lemma mask_fn_base (m : mask_id) (b : bool) (r : Row) :
  mask_fn m b r = true -> b = true.
Proof.
  destruct m; cbn [mask_fn];
    unfold a1, a2, a3, a4, a5, a6, a7, a8, a9, a10,
           b1, b2, b3, b4, b5, b6, b7, b8, b9, b10,
           rn1, rn2, rn3, rn4, rn5;
    intros H; bool_props; tauto.
Qed.

(** C1, as stated, fails: on a row whose lag-1 launch is missing on one side
    ([mask_na_launch] false) the mask a.6 is still true, and so are a.7, a.8
    and a.10; the engine counts the row. *)
Lemma a6_true_where_launch_lag_missing :
  mask_na_launch row_launch_lag_missing = false
  /\ option_map (fun ms => map (fun m => mask_at ms m 0) [A6; A7; A8; A9; A10])
                (mats [row_launch_lag_missing] [true])
     = Some [true; true; true; false; true]
  /\ option_map (fun cs => count_of cs A6)
                (compute_bundle_counts [row_launch_lag_missing] [true])
     = Some 1.
Proof. repeat split. Qed.

(** C1, amended: with the base mask aligned on the rows of the bundle, each of
    a.6 to a.10 and b.6 to b.10 is false on every row where [mask_na_orig] is
    false, and a.9 and b.6 to b.10 are false on every row where
    [mask_na_launch] is false (a.6, a.7, a.8 and a.10 read no launch value and
    carry no launch gate). *)
Theorem lag_gates_of_inexperienced_masks (arr : list Row) (M : list bool) :
  length M = length arr ->
  exists ms, mats arr M = Some ms /\
    forall i b r, nth_error M i = Some b -> nth_error arr i = Some r ->
      (mask_na_orig r = false ->
       Forall (fun m => mask_at ms m i = false)
              [A6; A7; A8; A9; A10; B6; B7; B8; B9; B10])
      /\ (mask_na_launch r = false ->
          Forall (fun m => mask_at ms m i = false) [A9; B6; B7; B8; B9; B10]).
Proof.
  intros Hlen. eexists. split; [apply (mats_aligned _ _ Hlen)|].
  intros i b r Hb Hr.
  split; intros Hgate; repeat constructor;
    rewrite (mask_at_aligned _ _ _ _ _ _ Hb Hr); cbn [mask_fn];
    unfold a6, a7, a8, a9, a10, b6, b7, b8, b9, b10, b_second_base;
    rewrite Hgate;
    destruct b, (mask_na_orig r), (mask_na_launch r), (mask_na_future r);
    reflexivity.
Qed.

Lemma lag_gates_of_inexperienced_masks_witness :
  exists ms, mats [row_launch_lag_missing; row_one_sided] [true; true] = Some ms /\
    forall i b r, nth_error [true; true] i = Some b ->
      nth_error [row_launch_lag_missing; row_one_sided] i = Some r ->
      (mask_na_orig r = false ->
       Forall (fun m => mask_at ms m i = false)
              [A6; A7; A8; A9; A10; B6; B7; B8; B9; B10])
      /\ (mask_na_launch r = false ->
          Forall (fun m => mask_at ms m i = false) [A9; B6; B7; B8; B9; B10]).
Proof.
  apply (lag_gates_of_inexperienced_masks
           [row_launch_lag_missing; row_one_sided] [true; true]).
  reflexivity.
Defined.

(** C5, amended: with the base mask [M] aligned on the rows of the bundle,
    one entry per row, the engine returns 25 counts and each of them lies
    between 0 and the number of true rows of [M]; the 25 counts together can
    exceed that number, because one row can belong to several masks. *)
Theorem each_count_le_base_total :
  (forall (arr : list Row) (M : list bool),
     length M = length arr ->
     exists cs, compute_bundle_counts arr M = Some cs
       /\ length cs = 25%nat
       /\ Forall (fun c => 0 <= c <= msum M) cs)
  /\ (exists (arr : list Row) (M : list bool) (cs : list Z),
        length M = length arr
        /\ compute_bundle_counts arr M = Some cs
        /\ msum M < fold_right Z.add 0 cs).
Proof.
  split.
  - intros arr M Hlen. eexists. split; [apply (counts_aligned _ _ Hlen)|].
    split; [reflexivity|].
    apply Forall_map, Forall_forall. intros m _. split.
    + apply msum_nonneg.
    + apply msum_combine_le. intros b r. apply mask_fn_base.
  - exists [row_one_sided], [true]. eexists. repeat split.
Qed.

Lemma each_count_le_base_total_witness :
  exists cs, compute_bundle_counts [row_one_sided; row_launch_lag_missing]
                                   [true; false] = Some cs
    /\ length cs = 25%nat
    /\ Forall (fun c => 0 <= c <= msum [true; false]) cs.
Proof.
  apply (proj1 each_count_le_base_total
               [row_one_sided; row_launch_lag_missing] [true; false]).
  reflexivity.
Defined.

(** C5, as stated, fails: a base mask need not have one entry per row of the
    bundle.  In the run over the one-row base table and the firm-year table
    that repeats a firm-year, [run_entity] passes the Never mask of the base
    table, of length 1 and total 1, to a bundle of three rows; the mask is
    broadcast, the count of a.6 is 2, above the total, and the run ends
    normally with a row of the Never file that shows total 1, count 2 and
    share 2. *)
Theorem count_exceeds_total_of_broadcast_mask :
  map mask_never ex_base_one = [true]
  /\ length ex_bundle_repeat = 3%nat
  /\ (exists cs,
        compute_bundle_counts ex_bundle_repeat (map mask_never ex_base_one)
        = Some cs
        /\ msum (map mask_never ex_base_one) = 1
        /\ count_of cs A6 = 2)
  /\ snd ex_run_repeat = Some tt
  /\ (exists f row,
        nth_error (fst ex_run_repeat) 8 = Some f
        /\ file_name f
           = "originate_changes_not_interlock_with_shares_YoY_events.csv"%string
        /\ file_rows f = [row]
        /\ field (file_header f) row "Total_NoInterlock_Event_Count"
           = Some (CInt 1)
        /\ field (file_header f) row "a.6_Count" = Some (CInt 2)
        /\ field (file_header f) row "a.6_Share" = Some (CFloat (2 # 1))).
Proof.
  split; [vm_compute; reflexivity|].
  split; [vm_compute; reflexivity|].
  split; [eexists; repeat split; vm_compute; reflexivity|].
  split; [vm_compute; reflexivity|].
  eexists. eexists. split; [vm_compute; reflexivity|].
  repeat split; vm_compute; reflexivity.
Qed.

(** A refined mask implies its base variant on every row. *)
Lemma refined_implies_base (m m0 : mask_id) (b : bool) (r : Row) :
  base_of m = Some m0 -> mask_fn m b r = true -> mask_fn m0 b r = true.
Proof.
  destruct m; cbn [base_of]; intros E; inversion E; subst m0; cbn [mask_fn];
    unfold a1, a2, a3, a4, a5, a6, a7, a8, a9, a10,
           b6, b7, b8, b9, b10, b_second_base,
           rn1, rn2, rn3, rn4, rn5;
    intros H; bool_props; tauto.
Qed.

(** C9: with the base mask aligned on the rows of the bundle, a.2 to a.5
    imply a.1, a.7 to a.10 imply a.6, b.7 to b.10 imply b.6 and rn.2 to rn.5
    imply rn.1 on every row, so the count of a refined mask is at most the
    count of its base variant. *)
Theorem refinement_chains (arr : list Row) (M : list bool) :
  length M = length arr ->
  exists ms cs,
    mats arr M = Some ms /\ compute_bundle_counts arr M = Some cs /\
    forall m m0, base_of m = Some m0 ->
      (forall i, mask_at ms m i = true -> mask_at ms m0 i = true)
      /\ count_of cs m <= count_of cs m0.
Proof.
  intros Hlen. eexists. eexists.
  split; [apply (mats_aligned _ _ Hlen)|].
  split; [apply (counts_aligned _ _ Hlen)|].
  intros m m0 Hbase. split.
  - intros i.
    destruct (nth_error M i) as [b|] eqn:Hb;
      destruct (nth_error arr i) as [r|] eqn:Hr.
    + rewrite !(mask_at_aligned _ _ _ _ _ _ Hb Hr).
      apply (refined_implies_base _ _ _ _ Hbase).
    + apply nth_error_None in Hr.
      assert (i < length M)%nat by (apply nth_error_Some; congruence). lia.
    + apply nth_error_None in Hb.
      assert (i < length arr)%nat by (apply nth_error_Some; congruence). lia.
    + intros H. exfalso. revert H. unfold mask_at.
      set (col := fun m => map (fun br => mask_fn m (fst br) (snd br)) (combine M arr)).
      assert (Hm : nth_error (map col mask_ids) (pos m) = Some (col m))
        by (rewrite nth_error_map, nth_pos_ids; reflexivity).
      rewrite (nth_error_nth _ _ [] Hm).
      rewrite nth_overflow; [discriminate|].
      unfold col. rewrite length_map, length_combine.
      apply nth_error_None in Hb. lia.
  - rewrite !count_of_aligned. apply msum_map_le.
    intros [b r] _. apply (refined_implies_base _ _ _ _ Hbase).
Qed.

Lemma refinement_chains_witness :
  exists ms cs,
    mats [row_one_sided; row_launch_lag_missing] [true; true] = Some ms
    /\ compute_bundle_counts [row_one_sided; row_launch_lag_missing] [true; true]
       = Some cs
    /\ forall m m0, base_of m = Some m0 ->
         (forall i, mask_at ms m i = true -> mask_at ms m0 i = true)
         /\ count_of cs m <= count_of cs m0.
Proof.
  apply (refinement_chains [row_one_sided; row_launch_lag_missing] [true; true]).
  reflexivity.
Defined.

(** ** Counts and shares *)




(** ** Rows and files of a run *)

Ltac bind_inv H :=
  match type of H with
  | bind ?x _ = Some _ =>
      let E := fresh "E" in
      destruct x eqn:E; cbn [bind] in H; [|discriminate H]
  end.

Lemma counts_length (arr : list Row) (M : list bool) (cs : list Z) :
  compute_bundle_counts arr M = Some cs -> length cs = 25%nat.
Proof.
  unfold compute_bundle_counts, mats.
  destruct (broadcast M arr); cbn [option_map]; [|discriminate].
  intros H. injection H as <-. reflexivity.
Qed.

Lemma yoy_row_shaped (lead : list cell) (arr : Arr) (msk : list bool)
    (row : list cell) :
  yoy_row lead arr msk = Some row -> yoy_shaped (length lead) row.
Proof.
  unfold yoy_row. intros H. bind_inv H. injection H as <-.
  exists lead, (msum msk), l. repeat split.
  - apply msum_nonneg.
  - apply (counts_length _ _ _ E).
Qed.

Lemma master_block_shaped (arr : Arr) (m : list bool) (tot : Z) (b : list cell) :
  master_block arr m tot = Some b ->
  exists cs, length cs = 25%nat
    /\ b = ([CInt tot; CFloat (total_share tot)] ++ _counts_shares cs tot)%list.
Proof.
  unfold master_block. intros H. bind_inv H. injection H as <-.
  exists l. split; [apply (counts_length _ _ _ E) | reflexivity].
Qed.

Lemma group_step_shaped (base_df : list BaseRow) base_masks pair_indices cache
    (acc acc' : Rows) (g : string) :
  group_step (base_arrays base_df) base_masks pair_indices cache acc g = Some acc' ->
  rows_shaped base_df acc -> rows_shaped base_df acc'.
Proof.
  unfold group_step. intros H (Hm & Hi & Hih & Hd & Hdh & Hn).
  repeat bind_inv H. injection H as <-.
  repeat match goal with
         | E : master_block _ _ _ = Some _ |- _ =>
             apply master_block_shaped in E; destruct E as (? & ? & ->)
         | E : yoy_row _ _ _ = Some _ |- _ => apply yoy_row_shaped in E
         end.
  unfold rows_shaped. cbn [master_rows indirect_rows indirect_hist_rows
                           direct_rows direct_hist_rows never_rows].
  repeat split; apply Forall_app; split; auto; repeat constructor; auto.
  eexists g, _, _, _. repeat split; eauto.
Qed.

Lemma group_loop_shaped (base_df : list BaseRow) base_masks pair_indices cache
    (batch : list string) :
  forall acc acc',
    group_loop (base_arrays base_df) base_masks pair_indices cache acc batch
    = Some acc' ->
    rows_shaped base_df acc -> rows_shaped base_df acc'.
Proof.
  induction batch as [|g rest IH]; intros acc acc' H Hacc; cbn [group_loop] in H.
  - injection H as <-. exact Hacc.
  - bind_inv H. apply (IH _ _ H). apply (group_step_shaped _ _ _ _ _ _ _ E Hacc).
Qed.

Lemma batch_loop_shaped (base_df : list BaseRow) valid citeline entity
    (bs : list (list string)) :
  forall acc acc',
    batch_loop base_df valid citeline entity (base_arrays base_df) acc bs
    = Some acc' ->
    rows_shaped base_df acc -> rows_shaped base_df acc'.
Proof.
  induction bs as [|b rest IH]; intros acc acc' H Hacc; cbn [batch_loop] in H.
  - injection H as <-. exact Hacc.
  - bind_inv H. apply (IH _ _ H). clear H IH.
    unfold batch_step in E. bind_inv E.
    destruct o as [[|t tmp]|]; try (injection E as <-; exact Hacc).
    apply (group_loop_shaped _ _ _ _ _ _ _ E Hacc).
Qed.

Lemma no_rows_shaped (base_df : list BaseRow) : rows_shaped base_df no_rows.
Proof. repeat split; constructor. Qed.

(** Splits a list of known length into its elements. *)
Ltac explode l H :=
  repeat (destruct l as [|? l];
          [discriminate H | cbn [length] in H; apply Nat.succ_inj in H]);
  destruct l; [clear H | discriminate H].

Lemma yoy_shaped_ok (entity : Entity) (n : nat) (cc sc : string)
    (header : list string) (row : list cell) :
  (n = 1%nat /\ header = rename_key entity (yoy_cols cc sc))
  \/ (n = 2%nat /\ header = rename_key entity (hist_cols cc sc)) ->
  In (cc, sc) total_col_names ->
  yoy_shaped n row -> yoy_row_ok header cc sc row.
Proof.
  intros Hn Hin (lead & tot & cs & Hl & Htot & Hcs & ->).
  assert (Hnames : Exists (eq (cc, sc)) total_col_names)
    by (apply Exists_exists; eauto).
  unfold total_col_names in Hnames.
  repeat rewrite Exists_cons in Hnames. rewrite Exists_nil in Hnames.
  clear Hin. exists tot.
  destruct Hn as [[-> ->] | [-> ->]]; explode lead Hl;
    destruct entity;
    (destruct Hnames as [E | [E | [E | []]]]; injection E as -> ->);
    (split; [lazy -[total_share _counts_shares]; reflexivity|]);
    (split; [intros Hpos; lazy -[total_share _counts_shares];
             unfold total_share; destruct (Z.eqb_spec tot 0); [lia | reflexivity]|]);
    (split; [|exact Htot]);
    intros ->; (split; [reflexivity|]);
    intros col Hc; explode cs Hcs;
    cbv in Hc;
    repeat (destruct Hc as [<- | Hc]; [vm_compute; reflexivity|]);
    contradiction.
Qed.

Lemma master_shaped_totals (entity : Entity) (base_df : list BaseRow)
    (row : list cell) :
  master_shaped base_df row ->
  master_totals (rename_key entity master_cols) row = base_totals base_df.
Proof.
  intros (g & c1 & c2 & c3 & H1 & H2 & H3 & ->).
  unfold base_totals, base_arrays.
  cbn [tot_indirect tot_direct tot_none].
  generalize (msum (map mask_indirect base_df)),
             (msum (map mask_direct base_df)),
             (msum (map mask_no_interlock base_df)).
  intros ti td tn. explode c1 H1. explode c2 H2.
  unfold _counts_shares.
  destruct entity; destruct (ti <=? 0); destruct (td <=? 0);
    lazy -[total_share Qdiv inject_Z Z.leb]; reflexivity.
Qed.

Section WritesOnly.
Context {P : File -> Prop}.

Lemma wo_ret {A : Type} (a : A) : writes_only P (ret a).
Proof. intros fs fs' r H. injection H as <- _. auto. Qed.

Lemma wo_raise {A : Type} : writes_only P (@raise A).
Proof. intros fs fs' r H. injection H as <- _. auto. Qed.

Lemma wo_lift {A : Type} (x : option A) : writes_only P (lift x).
Proof. destruct x; [apply wo_ret | apply wo_raise]. Qed.

Lemma wo_DataFrame (rows : list (list cell)) (cols : list string) :
  writes_only P (DataFrame rows cols).
Proof.
  unfold DataFrame. destruct (forallb _ rows); [apply wo_ret | apply wo_raise].
Qed.

Lemma wo_to_csv (name : string) (header : list string)
    (rows : list (list cell)) :
  P (mkFile name header rows) -> writes_only P (to_csv name header rows).
Proof.
  intros HP fs fs' r H. injection H as <- _.
  intros Hfs. apply Forall_app. split; [exact Hfs | repeat constructor; exact HP].
Qed.

Lemma wo_seq {A B : Type} (m : IO A) (k : A -> IO B) :
  writes_only P m ->
  (forall a fs fs', m fs = (fs', Some a) -> writes_only P (k a)) ->
  writes_only P (seq_io m k).
Proof.
  intros Hm Hk fs fs' r H Hfs. unfold seq_io in H.
  destruct (m fs) as [fs1 [a|]] eqn:E.
  - apply (Hk a fs fs1 E fs1 fs' r H). apply (Hm fs fs1 _ E Hfs).
  - injection H as <- _. apply (Hm fs fs1 _ E Hfs).
Qed.
End WritesOnly.

Lemma DataFrame_returns (rows : list (list cell)) (cols : list string)
    (a : list (list cell)) (fs fs' : list File) :
  DataFrame rows cols fs = (fs', Some a) -> a = rows.
Proof.
  unfold DataFrame. destruct (forallb _ rows); cbv [ret raise]; congruence.
Qed.

(** The files of [emit_master] satisfy [P] as soon as the master file does
    and the names of the three legacy files are outside the reach of [P]. *)
Lemma wo_emit_master (P : File -> Prop) (entity : Entity)
    (rows : list (list cell)) :
  P (mkFile (master_name entity) (rename_key entity master_cols) rows) ->
  (forall f, file_name f <> master_name entity ->
             ~ (exists cc sc, is_yoy_file entity f cc sc) -> P f) ->
  writes_only P (emit_master entity rows).
Proof.
  intros Hmaster Hother. unfold emit_master.
  apply wo_seq; [apply wo_DataFrame|]. intros a ? ? Ha.
  apply DataFrame_returns in Ha. subst a.
  apply wo_seq; [apply wo_to_csv; exact Hmaster|]. intros _ _ _ _.
  assert (Hlegacy : forall name header body,
             In name [fname entity "originate_changes_interlock_indirect_with_shares.csv";
                      fname entity "originate_changes_interlock_direct_with_shares.csv";
                      fname entity "originate_changes_not_interlock_indirect_with_shares.csv"]%string ->
             P (mkFile name header body)).
  { intros name header body Hname. apply Hother; cbn [file_name].
    - destruct entity; cbv in Hname;
        repeat (destruct Hname as [<-|Hname]; [discriminate|]); contradiction.
    - intros (cc & sc & H). destruct entity; cbv in Hname, H;
        repeat (destruct Hname as [<-|Hname];
                [repeat (destruct H as [H|H]; [discriminate H|]); exact H|]);
        contradiction. }
  apply wo_seq; [apply wo_lift|]. intros ? _ _ _.
  apply wo_seq; [apply wo_to_csv, Hlegacy; cbn; auto|]. intros _ _ _ _.
  apply wo_seq; [apply wo_lift|]. intros ? _ _ _.
  apply wo_seq; [apply wo_to_csv, Hlegacy; cbn; auto|]. intros _ _ _ _.
  apply wo_seq; [apply wo_lift|]. intros ? _ _ _.
  apply wo_to_csv, Hlegacy; cbn; auto.
Qed.

Lemma wo_emit_yoy (P : File -> Prop) (entity : Entity)
    (ri rih rd rdh rn : list (list cell)) :
  (forall name n cc sc rows,
     In (name, n, (cc, sc), rows)
        [ ("originate_changes_interlock_indirect_with_shares_YoY_events.csv",
           1%nat, ("Total_Interlock_Event_Count", "Total_Interlock_Event_Share"), ri);
          ("originate_changes_interlock_indirect_with_shares_by_prior_direct_history.csv",
           2%nat, ("Total_Interlock_Event_Count", "Total_Interlock_Event_Share"), rih);
          ("originate_changes_interlock_direct_with_shares_YoY_events.csv",
           1%nat, ("Total_Direct_Interlock_Event_Count",
                   "Total_Direct_Interlock_Event_Share"), rd);
          ("originate_changes_interlock_direct_with_share_by_prior_direct_history.csv",
           2%nat, ("Total_Direct_Interlock_Event_Count",
                   "Total_Direct_Interlock_Event_Share"), rdh);
          ("originate_changes_not_interlock_with_shares_YoY_events.csv",
           1%nat, ("Total_NoInterlock_Event_Count",
                   "Total_NoInterlock_Event_Share"), rn) ]%string ->
     P (mkFile (fname entity name)
               (rename_key entity
                  (match n with 1%nat => yoy_cols cc sc | _ => hist_cols cc sc end))
               rows)) ->
  writes_only P (emit_yoy entity ri rih rd rdh rn).
Proof.
  intros HP. unfold emit_yoy.
  apply wo_seq; [apply wo_DataFrame|]. intros a ? ? Ha.
  apply DataFrame_returns in Ha. subst a.
  apply wo_seq; [apply wo_to_csv; apply (HP _ 1%nat); cbn; auto|]. intros _ _ _ _.
  apply wo_seq; [apply wo_DataFrame|]. intros a ? ? Ha.
  apply DataFrame_returns in Ha. subst a.
  apply wo_seq; [apply wo_to_csv; apply (HP _ 2%nat); cbn; auto|]. intros _ _ _ _.
  apply wo_seq; [apply wo_DataFrame|]. intros a ? ? Ha.
  apply DataFrame_returns in Ha. subst a.
  apply wo_seq; [apply wo_to_csv; apply (HP _ 1%nat); cbn; auto|]. intros _ _ _ _.
  apply wo_seq; [apply wo_DataFrame|]. intros a ? ? Ha.
  apply DataFrame_returns in Ha. subst a.
  apply wo_seq; [apply wo_to_csv; apply (HP _ 2%nat); cbn; auto 6|]. intros _ _ _ _.
  apply wo_seq; [apply wo_DataFrame|]. intros a ? ? Ha.
  apply DataFrame_returns in Ha. subst a.
  apply wo_to_csv; apply (HP _ 1%nat); cbn; auto 6.
Qed.

Lemma lift_returns {A : Type} (x : option A) (a : A) (fs fs' : list File) :
  lift x fs = (fs', Some a) -> x = Some a.
Proof. destruct x; cbv [lift ret raise]; congruence. Qed.

(** The files of [run_entity] satisfy [P] when the master file and the five
    YoY files built from shaped rows do. *)
Lemma wo_run_entity (P : File -> Prop) (base_df : list BaseRow)
    (valid : list string) (citeline : FirmTable) (entity : Entity)
    (groups : list string) (BATCH : nat) :
  (forall out, rows_shaped base_df out ->
     writes_only P (emit_master entity (master_rows out))
     /\ writes_only P (emit_yoy entity (indirect_rows out) (indirect_hist_rows out)
                                 (direct_rows out) (direct_hist_rows out)
                                 (never_rows out))) ->
  writes_only P (run_entity base_df valid citeline entity groups BATCH).
Proof.
  intros HP. unfold run_entity. destruct groups as [|g groups]; [apply wo_ret|].
  apply wo_seq; [apply wo_lift|]. intros bs _ _ _.
  apply wo_seq; [apply wo_lift|]. intros out ? ? Hout.
  apply lift_returns in Hout.
  apply batch_loop_shaped in Hout; [|apply no_rows_shaped].
  destruct (HP out Hout) as [H1 H2].
  apply wo_seq; [exact H1 | intros _ _ _ _; exact H2].
Qed.

(** C7: in every row of every YoY and YoY-by-history file that [run_entity]
    writes, the total-share cell is [1.0] when the total event count of the
    row is positive and [0.0] when it is zero, and in the latter case all 25
    mask shares of the row are [0.0]; the count is never negative. *)
Theorem yoy_total_share_one_or_zero (base_df : list BaseRow)
    (valid : list string) (citeline : FirmTable) (entity : Entity)
    (groups : list string) (BATCH : nat)
    (files : list File) (res : option unit) :
  run_entity base_df valid citeline entity groups BATCH [] = (files, res) ->
  forall f cc sc,
    In f files -> is_yoy_file entity f cc sc ->
    Forall (yoy_row_ok (file_header f) cc sc) (file_rows f).
Proof.
  intros Hrun f cc sc Hf Hyoy.
  set (P := fun f => forall cc sc, is_yoy_file entity f cc sc ->
                     Forall (yoy_row_ok (file_header f) cc sc) (file_rows f)).
  assert (HP : Forall P files).
  { apply (wo_run_entity P base_df valid citeline entity groups BATCH) with (fs := [])
      (r := res); [|exact Hrun|constructor].
    intros out (Hm & Hi & Hih & Hd & Hdh & Hn). split.
    - apply wo_emit_master.
      + intros cc' sc' H. exfalso. destruct entity; cbv in H;
          repeat (destruct H as [H|H]; [discriminate H|]); exact H.
      + intros f' _ Hno cc' sc' H. exfalso. apply Hno. eauto.
    - apply wo_emit_yoy. intros name n cc0 sc0 rows Hin cc' sc' H.
      cbn [file_header file_rows].
      assert (Hshape : Forall (yoy_shaped n) rows
                       /\ In (cc0, sc0) total_col_names
                       /\ (n = 1 \/ n = 2)%nat).
      { cbn [In] in Hin.
        repeat (destruct Hin as [Hin|Hin];
                [injection Hin as <- <- <- <- <-;
                 split; [assumption | split; [cbn; auto | auto]]|]).
        contradiction. }
      destruct Hshape as (Hrows & Hnames & Hn12).
      assert (Hcols : (cc', sc') = (cc0, sc0)).
      { unfold is_yoy_file in H. cbn [file_name] in H. cbn [In] in Hin.
        destruct entity;
          repeat (destruct Hin as [Hin|Hin];
                  [injection Hin as <- <- <- <- <-; cbv in H;
                   repeat (destruct H as [H|H];
                           [first [discriminate H | congruence]|]);
                   contradiction|]);
          contradiction. }
      injection Hcols as -> ->.
      eapply Forall_impl; [|exact Hrows]. intros row Hr.
      apply (yoy_shaped_ok entity n cc0 sc0); [|exact Hnames|exact Hr].
      destruct Hn12 as [-> | ->]; [left | right]; split; reflexivity. }
  rewrite Forall_forall in HP. apply (HP f Hf cc sc Hyoy).
Qed.

Lemma yoy_total_share_one_or_zero_witness :
  Forall (yoy_row_ok (file_header (nth 5 (fst ex_run) no_file))
                     "Total_Interlock_Event_Count" "Total_Interlock_Event_Share")
         (file_rows (nth 5 (fst ex_run) no_file)).
Proof.
  apply (yoy_total_share_one_or_zero
           ex_base ex_valid ex_citeline disease ["X"%string] 20
           (fst ex_run) (snd ex_run)).
  - vm_compute. reflexivity.
  - vm_compute. tauto.
  - vm_compute. tauto.
Defined.

(** C10: in every row of the master file that [run_entity] writes, the three
    scenario totals and their total shares are the values computed from the
    base table alone; hence two runs over the same base table that differ in
    the firm-year series, the groups or the batch size agree on them in every
    row. *)
Theorem master_totals_from_base_alone (base_df : list BaseRow)
    (valid : list string) (entity : Entity) :
  (forall citeline groups BATCH files res f row,
     run_entity base_df valid citeline entity groups BATCH [] = (files, res) ->
     In f files -> file_name f = master_name entity -> In row (file_rows f) ->
     master_totals (file_header f) row = base_totals base_df)
  /\ (forall citeline1 citeline2 groups1 groups2 BATCH1 BATCH2
             files1 files2 res1 res2 f1 f2 row1 row2,
        run_entity base_df valid citeline1 entity groups1 BATCH1 [] = (files1, res1) ->
        run_entity base_df valid citeline2 entity groups2 BATCH2 [] = (files2, res2) ->
        In f1 files1 -> file_name f1 = master_name entity -> In row1 (file_rows f1) ->
        In f2 files2 -> file_name f2 = master_name entity -> In row2 (file_rows f2) ->
        master_totals (file_header f1) row1 = master_totals (file_header f2) row2).
Proof.
  assert (H1 : forall citeline groups BATCH files res f row,
     run_entity base_df valid citeline entity groups BATCH [] = (files, res) ->
     In f files -> file_name f = master_name entity -> In row (file_rows f) ->
     master_totals (file_header f) row = base_totals base_df).
  { intros citeline groups BATCH files res f row Hrun Hf Hname Hrow.
    set (P := fun f => file_name f = master_name entity ->
                       Forall (fun row => master_totals (file_header f) row
                                          = base_totals base_df) (file_rows f)).
    assert (HP : Forall P files).
    { apply (wo_run_entity P base_df valid citeline entity groups BATCH)
        with (fs := []) (r := res); [|exact Hrun|constructor].
      intros out (Hm & _). split.
      - apply wo_emit_master.
        + intros _. cbn [file_header file_rows].
          apply (Forall_impl _ (master_shaped_totals entity base_df) Hm).
        + intros f' Hne _ He. contradiction.
      - apply wo_emit_yoy. intros name n cc0 sc0 rows Hin He. exfalso.
        cbn [file_name] in He. cbn [In] in Hin.
        destruct entity;
          repeat (destruct Hin as [Hin|Hin];
                  [injection Hin as <- <- <- <- <-; discriminate He|]);
          contradiction. }
    rewrite Forall_forall in HP. specialize (HP f Hf Hname).
    rewrite Forall_forall in HP. apply (HP row Hrow). }
  split; [exact H1|].
  intros citeline1 citeline2 groups1 groups2 BATCH1 BATCH2 files1 files2
         res1 res2 f1 f2 row1 row2 Hrun1 Hrun2 Hf1 Hn1 Hr1 Hf2 Hn2 Hr2.
  rewrite (H1 _ _ _ _ _ _ _ Hrun1 Hf1 Hn1 Hr1).
  rewrite (H1 _ _ _ _ _ _ _ Hrun2 Hf2 Hn2 Hr2).
  reflexivity.
Qed.

Lemma master_totals_from_base_alone_witness :
  master_totals (file_header (nth 0 (fst ex_run) no_file))
                (nth 0 (file_rows (nth 0 (fst ex_run) no_file)) [])
  = base_totals ex_base.
Proof.
  apply (proj1 (master_totals_from_base_alone ex_base ex_valid disease)
               ex_citeline ["X"%string] 20%nat (fst ex_run) (snd ex_run)
               (nth 0 (fst ex_run) no_file)).
  - vm_compute. reflexivity.
  - vm_compute. tauto.
  - vm_compute. reflexivity.
  - vm_compute. tauto.
Defined.

(** ** Group discovery *)

Lemma no_group_found (cols : list string) (ents : list Entity) :
  (forall ent, In ent ents -> detect_groups cols ent = []) ->
  existsb (fun p : Entity * list string =>
             match snd p with [] => false | _ => true end)
          (map (fun ent => (ent, detect_groups cols ent)) ents) = false.
Proof.
  induction ents as [|e ents IH]; intros H; [reflexivity|].
  cbn [map existsb snd]. rewrite (H e (or_introl eq_refl)).
  apply IH. intros ent Hent. apply H. now right.
Qed.

Lemma get_groups_detected (cols0 : list string) (ents : list Entity)
    (ent : Entity) :
  In ent ents ->
  get_groups (map (fun e => (e, detect_groups cols0 e)) ents) ent
  = detect_groups cols0 ent.
Proof.
  induction ents as [|e ents IH]; [contradiction|].
  intros Hin. cbn [map get_groups].
  destruct (Entity_eqb e ent) eqn:E.
  - destruct e, ent; try discriminate; reflexivity.
  - destruct Hin as [-> | Hin]; [destruct ent; discriminate | apply IH, Hin].
Qed.

Lemma some_group_found (cols0 : list string) (ents : list Entity) :
  (exists ent, In ent ents /\ detect_groups cols0 ent <> []) ->
  existsb (fun p : Entity * list string =>
             match snd p with [] => false | _ => true end)
          (map (fun ent => (ent, detect_groups cols0 ent)) ents) = true.
Proof.
  intros (ent & Hin & Hne). apply existsb_exists.
  exists (ent, detect_groups cols0 ent). split.
  - apply in_map_iff. exists ent. now split.
  - cbn [snd]. destruct (detect_groups cols0 ent); [congruence | reflexivity].
Qed.

(** An entity without groups changes nothing in a run over several
    entities. *)
Lemma run_all_skips (df : list BaseRow) (valid : list string)
    (citeline : FirmTable) (gbe : list (Entity * list string))
    (ents : list Entity) (fs : list File) :
  run_all df valid citeline gbe ents fs
  = run_all df valid citeline gbe (MoreProps.entities_with_groups gbe ents) fs.
Proof.
  revert fs. induction ents as [|ent ents IH]; intros fs; [reflexivity|].
  cbn [run_all MoreProps.entities_with_groups filter].
  destruct (get_groups gbe ent) as [|g gs] eqn:Eg.
  - unfold seq_io, run_entity. cbv beta iota delta [ret]. apply IH.
  - cbn [run_all]. rewrite Eg. unfold seq_io.
    destruct (run_entity df valid citeline ent (g :: gs) 20 fs) as [fs' [[]|]];
      [apply IH | reflexivity].
Qed.

(** C8, amended: when group discovery over the header of the firm-year table
    finds no group for any requested entity, [main] raises and no file is
    written.  When it finds a group for at least one requested entity, the
    base table is built and the run does not abort on the entities for which
    discovery was empty: [main] is the run over the requested entities that
    have groups, in order, so an entity without groups is skipped, raises
    nothing and gets no file of its own; [run_entity] on an empty group list
    returns normally and writes nothing. *)
Theorem empty_discovery_aborts_before_output :
  (forall valid citeline interlock run_entities fs,
     (forall ent, In ent run_entities ->
                  detect_groups (f_columns citeline) ent = []) ->
     main valid citeline interlock run_entities fs = (fs, None))
  /\ (forall valid citeline interlock run_entities fs,
        (exists ent, In ent run_entities
                     /\ detect_groups (f_columns citeline) ent <> []) ->
        exists df gbe,
          build_base valid (f_columns citeline) interlock run_entities
          = Some (df, gbe)
          /\ main valid citeline interlock run_entities fs
             = run_all df valid citeline gbe
                       (MoreProps.entities_with_groups gbe run_entities) fs
          /\ forall ent,
               In ent (MoreProps.entities_with_groups gbe run_entities)
               <-> In ent run_entities
                   /\ detect_groups (f_columns citeline) ent <> [])
  /\ (forall base_df valid citeline entity BATCH fs,
        run_entity base_df valid citeline entity [] BATCH fs = (fs, Some tt)).
Proof.
  split; [|split].
  - intros valid citeline interlock run_entities fs H.
    unfold main, build_base, seq_io. rewrite (no_group_found _ _ H). reflexivity.
  - intros valid citeline interlock run_entities fs Hsome.
    unfold main, build_base, seq_io.
    rewrite (some_group_found _ _ Hsome). cbn [negb lift ret].
    cbv beta iota delta [ret].
    eexists. eexists. split; [reflexivity|]. split; [apply run_all_skips|].
    intros ent. unfold MoreProps.entities_with_groups. rewrite filter_In.
    split.
    + intros [Hin Hne]. split; [exact Hin|].
      rewrite (get_groups_detected _ _ _ Hin) in Hne.
      destruct (detect_groups (f_columns citeline) ent); [discriminate|discriminate].
    + intros [Hin Hne]. split; [exact Hin|].
      rewrite (get_groups_detected _ _ _ Hin).
      destruct (detect_groups (f_columns citeline) ent); [congruence|reflexivity].
  - reflexivity.
Qed.

Lemma empty_discovery_aborts_before_output_witness :
  main ex_valid ex_citeline_no_groups ex_interlock [disease; therapeutic] []
  = ([], None)
  /\ exists df gbe,
       build_base ex_valid (f_columns ex_citeline) ex_interlock
                  [disease; therapeutic] = Some (df, gbe)
       /\ main ex_valid ex_citeline ex_interlock [disease; therapeutic] []
          = run_all df ex_valid ex_citeline gbe
                    (MoreProps.entities_with_groups gbe [disease; therapeutic]) []
       /\ forall ent,
            In ent (MoreProps.entities_with_groups gbe [disease; therapeutic])
            <-> In ent [disease; therapeutic]
                /\ detect_groups (f_columns ex_citeline) ent <> [].
Proof.
  split.
  - apply (proj1 empty_discovery_aborts_before_output).
    intros ent _. destruct ent; vm_compute; reflexivity.
  - apply (proj1 (proj2 empty_discovery_aborts_before_output)
                 ex_valid ex_citeline ex_interlock [disease; therapeutic] []).
    exists disease. split; [simpl; auto | vm_compute; discriminate].
Defined.

(** ** Grouped operations *)

Section GroupFacts.
Context {K : Type} (keq : K -> K -> bool).
Hypothesis keq_spec : forall a b, keq a b = true <-> a = b.

Lemma group_positions_from (s : nat) (keys : list K) (k : K) :
  map fst (filter (fun p => keq (snd p) k) (combine (seq s (length keys)) keys))
  = positions_from keq s keys k.
Proof.
  revert s. induction keys as [|x rest IH]; intros s; [reflexivity|].
  cbn [length seq combine filter snd positions_from].
  destruct (keq x k); cbn [map fst]; rewrite IH; reflexivity.
Qed.

Lemma group_positions_scan (keys : list K) (k : K) :
  group_positions keq keys k = positions_from keq 0 keys k.
Proof. apply group_positions_from. Qed.

Lemma in_positions_from (s : nat) (keys : list K) (k : K) (j : nat) :
  In j (positions_from keq s keys k)
  <-> (s <= j)%nat /\ nth_error keys (j - s) = Some k.
Proof.
  revert s. induction keys as [|x rest IH]; intros s; cbn [positions_from].
  - rewrite nth_error_nil. split; [contradiction | intros [_ H]; discriminate].
  - assert (Hrest : In j (positions_from keq (S s) rest k)
                    <-> (s < j)%nat /\ nth_error (x :: rest) (j - s) = Some k).
    { rewrite IH. split; intros [H1 H2]; (split; [lia|]).
      - replace (j - s)%nat with (S (j - S s)) by lia. exact H2.
      - replace (j - s)%nat with (S (j - S s)) in H2 by lia. exact H2. }
    destruct (keq x k) eqn:E.
    + apply keq_spec in E. subst x. cbn [In]. rewrite Hrest. split.
      * intros [<- | [H1 H2]]; [|split; [lia | exact H2]].
        split; [lia|]. rewrite Nat.sub_diag. reflexivity.
      * intros [H1 H2]. destruct (Nat.eq_dec s j) as [->|Hne]; [now left|].
        right. split; [lia | exact H2].
    + rewrite Hrest. split; intros [H1 H2]; (split; [|exact H2]); [lia|].
      destruct (Nat.eq_dec s j) as [->|Hne]; [|lia]. exfalso.
      rewrite Nat.sub_diag in H2. cbn in H2. injection H2 as ->.
      assert (keq k k = true) by now apply keq_spec. congruence.
Qed.

Lemma in_group_positions (keys : list K) (k : K) (j : nat) :
  In j (group_positions keq keys k) <-> nth_error keys j = Some k.
Proof.
  rewrite group_positions_scan, in_positions_from, Nat.sub_0_r.
  split; [intros [_ H]; exact H | intros H; split; [lia | exact H]].
Qed.

Lemma group_positions_lt (keys : list K) (k : K) :
  Forall (fun j => (j < length keys)%nat) (group_positions keq keys k).
Proof.
  apply Forall_forall. intros j Hj. apply in_group_positions in Hj.
  apply nth_error_Some. congruence.
Qed.

Lemma in_distinct (keys : list K) (k : K) :
  In k (distinct keq keys) <-> In k keys.
Proof.
  induction keys as [|x rest IH]; cbn [distinct In]; [tauto|].
  rewrite filter_In, IH, negb_true_iff. split.
  - intros [H | [H _]]; auto.
  - intros [H | H]; [now left|].
    destruct (keq k x) eqn:E; [left; symmetry; now apply keq_spec | right; auto].
Qed.

Lemma existsb_distinct (keys : list K) (k : K) (i : nat) :
  nth_error keys i = Some k -> existsb (keq k) (distinct keq keys) = true.
Proof.
  intros H. apply existsb_exists. exists k. split.
  - apply in_distinct. apply (nth_error_In _ _ H).
  - now apply keq_spec.
Qed.

Lemma groups_positions (keys : list K) :
  map snd (groups keq keys (seq 0 (length keys)))
  = map (group_positions keq keys) (distinct keq keys).
Proof.
  unfold groups. rewrite map_map. cbn [snd]. apply map_ext. intros k.
  rewrite <- (map_id (group_positions keq keys k)) at 2.
  apply map_ext_in. intros j Hj.
  apply in_group_positions in Hj.
  apply seq_nth. apply nth_error_Some. congruence.
Qed.
End GroupFacts.

(** ** Causal flags *)

Lemma take_positions {A : Type} (a : list A) (d : A) (idx : list nat) :
  Forall (fun j => (j < length a)%nat) idx ->
  take a idx = Some (map (fun j => nth j a d) idx).
Proof.
  induction idx as [|j idx IH]; intros H; [reflexivity|].
  inversion H as [|? ? Hj Hidx]; subst. cbn [take map].
  destruct (nth_error a j) as [x|] eqn:E.
  - rewrite (nth_error_nth _ _ d E). cbn [bind]. rewrite (IH Hidx). reflexivity.
  - apply nth_error_None in E. lia.
Qed.

Lemma store_spec {A : Type} (a : list A) (i : nat) (x : A) :
  (i < length a)%nat ->
  exists a', store a i x = Some a' /\ length a' = length a
             /\ forall j d, nth j a' d = if (j =? i)%nat then x else nth j a d.
Proof.
  revert i. induction a as [|y a IH]; intros i Hi; cbn [length] in Hi; [lia|].
  destruct i as [|i].
  - exists (x :: a). repeat split. intros [|j] d; reflexivity.
  - destruct (IH i ltac:(lia)) as (a' & Ha' & Hlen & Hnth).
    exists (y :: a'). cbn [store]. rewrite Ha'. cbn [bind length].
    repeat split; [lia|]. intros [|j] d; [reflexivity|]. cbn [nth]. apply Hnth.
Qed.

Lemma store_all_spec {A : Type} (idx : list nat) (x : A) :
  forall a, Forall (fun j => (j < length a)%nat) idx ->
  exists a', store_all a idx x = Some a' /\ length a' = length a
             /\ forall j d, nth j a' d
                            = if existsb (Nat.eqb j) idx then x else nth j a d.
Proof.
  induction idx as [|i idx IH]; intros a H.
  - exists a. repeat split.
  - inversion H as [|? ? Hi Hidx]; subst.
    destruct (store_spec a i x Hi) as (a1 & Ha1 & Hlen1 & Hnth1).
    destruct (IH a1) as (a' & Ha' & Hlen & Hnth).
    { rewrite Hlen1. exact Hidx. }
    exists a'. cbn [store_all]. rewrite Ha1. cbn [bind].
    repeat split; [exact Ha' | congruence |].
    intros j d. rewrite Hnth, Hnth1. cbn [existsb].
    destruct (j =? i)%nat, (existsb (Nat.eqb j) idx); reflexivity.
Qed.

Lemma accumulate_nondecreasing (v : list Q) (m : Q) :
  nondecreasing_from m (accumulate_from m v).
Proof.
  revert m. induction v as [|x v IH]; intros m; cbn [accumulate_from]; [exact I|].
  cbn [nondecreasing_from]. split; [|apply IH].
  destruct (Qgtb x m) eqn:E; [apply Qgtb_lt in E; lra | lra].
Qed.

(** On a nondecreasing sequence the first positive difference between
    neighbours is where the sequence first exceeds its start. *)
Lemma first_difference_is_first_above (m0 : Q) (l : list Q) :
  forall (p : Q) (i : nat),
    (p == m0)%Q -> nondecreasing_from p l ->
    hd_error (flatnonzero_pos i (diff_from p l))
    = option_map (fun j => (i + j)%nat) (find_index (fun x => Qgtb x m0) l).
Proof.
  induction l as [|x l IH]; intros p i Hp Hl; [reflexivity|].
  destruct Hl as [Hpx Hl]. cbn [diff_from flatnonzero_pos find_index].
  destruct (Qgtb (x - p) 0) eqn:E.
  - apply Qgtb_lt in E.
    assert (E' : Qgtb x m0 = true) by (apply Qgtb_lt; lra).
    rewrite E'. cbn. f_equal. lia.
  - apply Qgtb_le in E.
    assert (E' : Qgtb x m0 = false) by (apply Qgtb_le; lra).
    rewrite E'. rewrite (IH x (S i)); [|lra|exact Hl].
    destruct (find_index (fun x0 => Qgtb x0 m0) l); cbn; [f_equal; lia | reflexivity].
Qed.

Lemma first_increment_of_running_max (v : list Q) :
  _first_increment_index_np (maximum_accumulate v)
  = first_above_first (maximum_accumulate v).
Proof.
  destruct v as [|x v]; [reflexivity|].
  unfold _first_increment_index_np, first_above_first. cbn [maximum_accumulate].
  pose proof (first_difference_is_first_above x (x :: accumulate_from x v) x 0%nat)
    as H.
  assert (Hmono : nondecreasing_from x (x :: accumulate_from x v)).
  { split; [lra | apply accumulate_nondecreasing]. }
  specialize (H ltac:(lra) Hmono).
  destruct (flatnonzero_pos 0 (diff_from x (x :: accumulate_from x v)))
    as [|i0 rest] eqn:E; cbn [hd_error] in H;
    destruct (find_index (fun x0 => Qgtb x0 x) (x :: accumulate_from x v));
    cbn [option_map Nat.add] in H; congruence.
Qed.

Lemma side_ok_eligible (o l : list f32) : side_ok o l = eligible o l.
Proof.
  unfold side_ok, eligible. rewrite !first_increment_of_running_max. reflexivity.
Qed.

Section CausalLoop.
Context {K : Type} (keq : K -> K -> bool).
Hypothesis keq_spec : forall a b, keq a b = true <-> a = b.
Variable keys : list K.
Variables o1 l1 o2 l2 : list f32.
Hypothesis Ho1 : length o1 = length keys.
Hypothesis Hl1 : length l1 = length keys.
Hypothesis Ho2 : length o2 = length keys.
Hypothesis Hl2 : length l2 = length keys.

Let ser (col : list f32) (k : K) : list f32 := group_series keq keys col k.

Lemma take_group (col : list f32) (k : K) :
  length col = length keys ->
  take col (group_positions keq keys k) = Some (ser col k).
Proof.
  intros H. apply take_positions. rewrite H. apply group_positions_lt, keq_spec.
Qed.

Lemma in_group_bool (k : K) (i : nat) (k' : K) :
  nth_error keys i = Some k' ->
  existsb (Nat.eqb i) (group_positions keq keys k) = keq k' k.
Proof.
  intros Hi. destruct (keq k' k) eqn:E.
  - apply keq_spec in E. subst k'. apply existsb_exists. exists i.
    split; [now apply in_group_positions | apply Nat.eqb_refl].
  - destruct (existsb _ _) eqn:E'; [|reflexivity].
    apply existsb_exists in E'. destruct E' as (j & Hj & Hij).
    apply Nat.eqb_eq in Hij. subst j.
    apply (in_group_positions keq keq_spec) in Hj.
    assert (k' = k) by congruence. subst k'.
    assert (keq k k = true) by now apply keq_spec. congruence.
Qed.

Lemma flag_update (ok : list bool) (k : K) (b : bool) :
  length ok = length keys ->
  exists ok',
    (if b then store_all ok (group_positions keq keys k) true else Some ok)
    = Some ok'
    /\ length ok' = length keys
    /\ forall i k', nth_error keys i = Some k' ->
         nth i ok' false = (keq k' k && b) || nth i ok false.
Proof.
  intros Hlen. destruct b.
  - destruct (store_all_spec (group_positions keq keys k) true ok)
      as (ok' & Hok' & Hlen' & Hnth).
    { rewrite Hlen. apply group_positions_lt, keq_spec. }
    exists ok'. repeat split; [exact Hok' | congruence |].
    intros i k' Hi. rewrite Hnth, (in_group_bool k i k' Hi).
    destruct (keq k' k); reflexivity.
  - exists ok. repeat split; [exact Hlen|].
    intros i k' _. rewrite andb_false_r. reflexivity.
Qed.

Lemma causal_loop_spec (ks : list K) :
  forall ok1 ok2,
    length ok1 = length keys -> length ok2 = length keys ->
    exists ok1' ok2',
      causal_loop o1 l1 o2 l2 (map (group_positions keq keys) ks) (ok1, ok2)
      = Some (ok1', ok2')
      /\ length ok1' = length keys /\ length ok2' = length keys
      /\ forall i k, nth_error keys i = Some k ->
           nth i ok1' false
           = (existsb (keq k) ks && side_ok (ser o1 k) (ser l1 k))
             || nth i ok1 false
           /\ nth i ok2' false
              = (existsb (keq k) ks && side_ok (ser o2 k) (ser l2 k))
                || nth i ok2 false.
Proof.
  induction ks as [|k0 ks IH]; intros ok1 ok2 H1 H2.
  - exists ok1, ok2. repeat split; auto.
  - cbn [map causal_loop]. unfold causal_step.
    rewrite (take_group o1 k0 Ho1), (take_group l1 k0 Hl1),
            (take_group o2 k0 Ho2), (take_group l2 k0 Hl2).
    cbn [bind].
    destruct (flag_update ok1 k0 (side_ok (ser o1 k0) (ser l1 k0)) H1)
      as (ok1a & E1 & Hlen1 & Hnth1).
    destruct (flag_update ok2 k0 (side_ok (ser o2 k0) (ser l2 k0)) H2)
      as (ok2a & E2 & Hlen2 & Hnth2).
    rewrite E1. cbn [bind]. rewrite E2. cbn [bind].
    destruct (IH ok1a ok2a Hlen1 Hlen2)
      as (ok1' & ok2' & Hloop & Hl1' & Hl2' & Hnth).
    exists ok1', ok2'. repeat split; try assumption;
      destruct (Hnth i k H) as [Ha Hb];
      [rewrite Ha, (Hnth1 i k H) | rewrite Hb, (Hnth2 i k H)];
      cbn [existsb];
      (destruct (keq k k0) eqn:E;
       [apply keq_spec in E; subst k0 | ]);
      repeat match goal with
             | |- context [existsb ?f ?l] => destruct (existsb f l)
             | |- context [side_ok ?a ?b] => destruct (side_ok a b)
             | |- context [nth ?i ?l false] => destruct (nth i l false)
             end; reflexivity.
Qed.

Lemma causal_flags_per_pair :
  exists ok1 ok2,
    _compute_causal_flags_for_pairs
      (groups keq keys (seq 0 (length keys))) o1 l1 o2 l2 = Some (ok1, ok2)
    /\ length ok1 = length keys /\ length ok2 = length keys
    /\ forall i k, nth_error keys i = Some k ->
         nth i ok1 false = eligible (ser o1 k) (ser l1 k)
         /\ nth i ok2 false = eligible (ser o2 k) (ser l2 k).
Proof.
  unfold _compute_causal_flags_for_pairs.
  rewrite (groups_positions keq keq_spec), Ho1.
  destruct (causal_loop_spec (distinct keq keys)
              (repeat false (length keys)) (repeat false (length keys))
              (repeat_length _ _) (repeat_length _ _))
    as (ok1 & ok2 & Hloop & H1 & H2 & Hnth).
  exists ok1, ok2. repeat split; try assumption;
    destruct (Hnth i k H) as [Ha Hb];
    [rewrite Ha | rewrite Hb];
    rewrite (existsb_distinct keq keq_spec keys k i H), nth_repeat,
            orb_false_r, side_ok_eligible; reflexivity.
Qed.
End CausalLoop.

Lemma pair_eqb_spec (a b : string * string) : pair_eqb a b = true <-> a = b.
Proof.
  destruct a as [a1 a2], b as [b1 b2]. unfold pair_eqb. cbn [fst snd].
  rewrite andb_true_iff, !String.eqb_eq. split; [intros [-> ->] | intros [= -> ->]]; auto.
Qed.

Lemma accumulate_all_zero (v : list Q) (m : Q) :
  (m == 0)%Q -> Forall (fun x => (x == 0)%Q) v ->
  Forall (fun x => (x == 0)%Q) (accumulate_from m v).
Proof.
  revert m. induction v as [|x v IH]; intros m Hm Hv; cbn [accumulate_from];
    [constructor|].
  inversion Hv as [|? ? Hx Hv']; subst.
  destruct (Qgtb x m); constructor; auto.
Qed.

Lemma find_index_none (m0 : Q) (l : list Q) :
  Forall (fun x => (x <= m0)%Q) l -> find_index (fun x => Qgtb x m0) l = None.
Proof.
  induction l as [|x l IH]; intros H; [reflexivity|].
  inversion H as [|? ? Hx Hl]; subst. cbn [find_index].
  apply Qgtb_le in Hx. rewrite Hx, (IH Hl). reflexivity.
Qed.

(** A series that is zero or missing everywhere has no first increment. *)
Lemma all_zero_not_eligible (o l : list f32) :
  Forall (fun x => (nan_to_num 0 x == 0)%Q) o -> eligible o l = false.
Proof.
  intros H. unfold eligible.
  assert (Hz : Forall (fun x => (x == 0)%Q) (maximum_accumulate (map (nan_to_num 0) o))).
  { apply (proj2 (Forall_map (nan_to_num 0) (fun x => (x == 0)%Q) o)) in H.
    destruct (map (nan_to_num 0) o) as [|x v]; [constructor|].
    inversion H as [|? ? Hx Hv]; subst. cbn [maximum_accumulate].
    constructor; [exact Hx | apply accumulate_all_zero; assumption]. }
  destruct (maximum_accumulate (map (nan_to_num 0) o)) as [|m0 rest] eqn:E;
    [reflexivity|].
  unfold first_above_first. rewrite find_index_none; [reflexivity|].
  inversion Hz as [|? ? Hm0 _]; subst.
  eapply Forall_impl; [|exact Hz]. cbn beta. intros x Hx. lra.
Qed.

Lemma eq0_zero (x : f32) : eq0 x = true -> (nan_to_num 0 x == 0)%Q.
Proof.
  destruct x as [q|]; cbn; [|discriminate]. intros H.
  apply Qeq_bool_iff in H. exact H.
Qed.

(** *** The running maximum of the specification *)

Lemma fold_larger_spec (l : list Q) :
  forall x,
    (forall y, In y (x :: l) -> (y <= fold_left larger l x)%Q)
    /\ In (fold_left larger l x) (x :: l).
Proof.
  induction l as [|a l IH]; intros x; cbn [fold_left].
  - split; [intros y [<- | []]; lra | now left].
  - destruct (IH (larger x a)) as [Hub Hin]. split.
    + intros y Hy.
      assert (Hxa : (x <= larger x a)%Q /\ (a <= larger x a)%Q).
      { unfold larger. destruct (Qle_bool a x) eqn:E.
        - apply Qle_bool_iff in E. split; lra.
        - assert (~ (a <= x)%Q) by (intro H; apply Qle_bool_iff in H; congruence).
          split; lra. }
      pose proof (Hub (larger x a) (or_introl eq_refl)) as Hm.
      destruct Hy as [<- | [<- | Hy]]; [lra | lra | apply Hub; now right].
    + destruct Hin as [Hin | Hin]; [|right; now right].
      rewrite <- Hin. unfold larger. destruct (Qle_bool a x); [now left | right; now left].
Qed.

(** Each entry of [running_maximum] is a value of the series at or before its
    row, and no value at or before its row is above it. *)
Lemma running_maximum_spec (v : list Q) (i : nat) (m : Q) :
  nth_error (running_maximum v) i = Some m ->
  In m (firstn (S i) v) /\ forall y, In y (firstn (S i) v) -> (y <= m)%Q.
Proof.
  unfold running_maximum. rewrite nth_error_map, nth_error_seq.
  destruct (i <? length v)%nat eqn:E; [|discriminate].
  apply Nat.ltb_lt in E. cbn [option_map Nat.add]. intros [= <-].
  destruct v as [|x rest]; [cbn [length] in E; lia|].
  cbn [firstn largest].
  destruct (fold_larger_spec (firstn i rest) x) as [Hub Hin]. split; assumption.
Qed.

(** The running maximum the code computes is the one of the specification. *)
Lemma accumulate_from_running (rest : list Q) :
  forall x,
    accumulate_from x rest
    = map (fun i => fold_left larger (firstn (S i) rest) x) (seq 0 (length rest)).
Proof.
  induction rest as [|y rest IH]; intros x; [reflexivity|].
  cbn [accumulate_from length seq map firstn fold_left].
  assert (E : (if Qgtb y x then y else x) = larger x y).
  { unfold Qgtb, larger. destruct (Qle_bool y x); reflexivity. }
  rewrite E. f_equal.
  rewrite IH, <- seq_shift, map_map. reflexivity.
Qed.

Lemma maximum_accumulate_running (v : list Q) :
  maximum_accumulate v = running_maximum v.
Proof.
  destruct v as [|x rest]; [reflexivity|].
  unfold running_maximum. cbn [maximum_accumulate length seq map firstn largest].
  cbn [fold_left]. f_equal.
  rewrite accumulate_from_running, <- seq_shift, map_map. reflexivity.
Qed.

Lemma eligible_spec (o l : list f32) : eligible o l = spec_eligible o l.
Proof.
  unfold eligible, spec_eligible. rewrite !maximum_accumulate_running. reflexivity.
Qed.

(** C3: for the pairs of a key column and four series aligned with it, the
    flag [ok1] of a row is true exactly when the pair of the row is eligible
    on side 1 in the specification's own terms: with missing values replaced
    by zero and the running maximum taken (at each row the largest value of
    the pair's series up to that row), both the origination and the launch
    series of the pair have a first value strictly above their first row, and
    the launch position is not before the origination position.  The flag is
    the same on all rows of a pair, it is false when the origination series of
    the pair is zero everywhere, and [ok2] is the same for side 2. *)
Theorem causal_flags_follow_first_increments
    (keys : list (string * string)) (o1 l1 o2 l2 : list f32) :
  length o1 = length keys -> length l1 = length keys ->
  length o2 = length keys -> length l2 = length keys ->
  exists ok1 ok2,
    _compute_causal_flags_for_pairs
      (groups pair_eqb keys (seq 0 (length keys))) o1 l1 o2 l2 = Some (ok1, ok2)
    /\ length ok1 = length keys /\ length ok2 = length keys
    /\ (forall i k, nth_error keys i = Some k ->
          nth i ok1 false
          = spec_eligible (group_series pair_eqb keys o1 k)
                          (group_series pair_eqb keys l1 k)
          /\ nth i ok2 false
             = spec_eligible (group_series pair_eqb keys o2 k)
                             (group_series pair_eqb keys l2 k))
    /\ (forall i j k, nth_error keys i = Some k -> nth_error keys j = Some k ->
          nth i ok1 false = nth j ok1 false /\ nth i ok2 false = nth j ok2 false)
    /\ (forall i k, nth_error keys i = Some k ->
          (Forall (fun x => eq0 x = true) (group_series pair_eqb keys o1 k) ->
           nth i ok1 false = false)
          /\ (Forall (fun x => eq0 x = true) (group_series pair_eqb keys o2 k) ->
              nth i ok2 false = false)).
Proof.
  intros Ho1 Hl1 Ho2 Hl2.
  destruct (causal_flags_per_pair pair_eqb pair_eqb_spec keys o1 l1 o2 l2
              Ho1 Hl1 Ho2 Hl2)
    as (ok1 & ok2 & Hrun & H1 & H2 & Hnth).
  exists ok1, ok2. split; [exact Hrun|]. split; [exact H1|]. split; [exact H2|].
  split; [|split].
  - intros i k Hi. rewrite <- !eligible_spec. apply (Hnth i k Hi).
  - intros i j k Hi Hj.
    destruct (Hnth i k Hi) as [Ha Hb]. destruct (Hnth j k Hj) as [Hc Hd].
    split; congruence.
  - intros i k Hi. destruct (Hnth i k Hi) as [Ha Hb].
    split; intros Hz; [rewrite Ha | rewrite Hb];
      apply all_zero_not_eligible;
      (eapply Forall_impl; [|exact Hz]); intros x; apply eq0_zero.
Qed.

Lemma causal_flags_follow_first_increments_witness :
  exists ok1 ok2,
    _compute_causal_flags_for_pairs
      (groups pair_eqb ex_pair_keys (seq 0 (length ex_pair_keys)))
      ex_o1 ex_l1 ex_o2 ex_l2 = Some (ok1, ok2)
    /\ length ok1 = length ex_pair_keys /\ length ok2 = length ex_pair_keys
    /\ (forall i k, nth_error ex_pair_keys i = Some k ->
          nth i ok1 false
          = spec_eligible (group_series pair_eqb ex_pair_keys ex_o1 k)
                          (group_series pair_eqb ex_pair_keys ex_l1 k)
          /\ nth i ok2 false
             = spec_eligible (group_series pair_eqb ex_pair_keys ex_o2 k)
                             (group_series pair_eqb ex_pair_keys ex_l2 k))
    /\ (forall i j k, nth_error ex_pair_keys i = Some k ->
          nth_error ex_pair_keys j = Some k ->
          nth i ok1 false = nth j ok1 false /\ nth i ok2 false = nth j ok2 false)
    /\ (forall i k, nth_error ex_pair_keys i = Some k ->
          (Forall (fun x => eq0 x = true) (group_series pair_eqb ex_pair_keys ex_o1 k) ->
           nth i ok1 false = false)
          /\ (Forall (fun x => eq0 x = true)
                     (group_series pair_eqb ex_pair_keys ex_o2 k) ->
              nth i ok2 false = false)).
Proof.
  apply (causal_flags_follow_first_increments ex_pair_keys ex_o1 ex_l1 ex_o2 ex_l2);
    reflexivity.
Defined.

(** A series that dips below its first value and comes back to it has a flat
    running maximum, so the side is not eligible although the raw series has
    a positive step between neighbours. *)
Example causal_flags_of_a_dip :
  running_maximum (map (nan_to_num 0) ex_dip_o)
  = [inject_Z 2; inject_Z 2; inject_Z 2]
  /\ spec_eligible ex_dip_o ex_dip_l = false
  /\ _compute_causal_flags_for_pairs
       (groups pair_eqb ex_dip_keys (seq 0 (length ex_dip_keys)))
       ex_dip_o ex_dip_l ex_dip_o ex_dip_l
     = Some ([false; false; false], [false; false; false]).
Proof. repeat split; vm_compute; reflexivity. Qed.

(** The flags of the example: pair (A, B) is eligible on side 1 (origination
    rises at position 1, launch at position 2) and not on side 2 (launch
    rises before origination); pair (A, C) has a flat side-1 origination. *)
Example causal_flags_example :
  _compute_causal_flags_for_pairs
    (groups pair_eqb ex_pair_keys (seq 0 (length ex_pair_keys)))
    ex_o1 ex_l1 ex_o2 ex_l2
  = Some ([true; true; true; false; false], [false; false; false; false; false]).
Proof. vm_compute. reflexivity. Qed.

(** ** Lag 1 and running sums inside a group *)

Lemma last_or_nil {A : Type} (l : list A) :
  l = [] \/ exists l' a, l = (l' ++ [a])%list.
Proof.
  destruct l as [|x l] using rev_ind; [now left | right; eauto].
Qed.

Section ShiftFacts.
Local Open Scope nat_scope.
Context {K : Type} (keq : K -> K -> bool).
Hypothesis keq_spec : forall a b, keq a b = true <-> a = b.

Lemma positions_from_ge (s : nat) (keys : list K) (k : K) :
  Forall (fun j => (s <= j)%nat) (positions_from keq s keys k).
Proof.
  apply Forall_forall. intros j Hj.
  apply (in_positions_from keq keq_spec) in Hj. tauto.
Qed.

Lemma positions_from_sorted (s : nat) (keys : list K) (k : K) :
  StronglySorted lt (positions_from keq s keys k).
Proof.
  revert s. induction keys as [|x rest IH]; intros s; cbn [positions_from];
    [constructor|].
  destruct (keq x k); [|apply IH].
  constructor; [apply IH|].
  eapply Forall_impl; [|apply (positions_from_ge (S s))]. cbn beta. lia.
Qed.

Lemma sorted_split_below (i : nat) (l : list nat) :
  StronglySorted lt l ->
  l = (filter (fun j => j <? i) l ++ filter (fun j => negb (j <? i)) l)%list.
Proof.
  induction 1 as [|a l Hs IH Ha]; [reflexivity|]. cbn [filter].
  destruct (a <? i)%nat eqn:E; cbn [negb app].
  - f_equal. exact IH.
  - apply Nat.ltb_ge in E.
    assert (Hnone : filter (fun j => j <? i) l = []).
    { clear IH Hs. induction l as [|b l IHl]; [reflexivity|].
      inversion Ha as [|? ? Hb Hl]; subst. cbn [filter].
      assert (Eb : (b <? i)%nat = false) by (apply Nat.ltb_ge; lia).
      rewrite Eb. apply IHl. exact Hl. }
    rewrite Hnone in IH |- *. cbn [app] in IH |- *. f_equal. exact IH.
Qed.

Lemma sorted_before_last (l1 l2 : list nat) (x : nat) :
  StronglySorted lt (l1 ++ x :: l2) -> Forall (fun y => (y < x)%nat) l1.
Proof.
  induction l1 as [|a l1 IH]; intros H; [constructor|].
  cbn [app] in H. apply StronglySorted_inv in H. destruct H as [Hs Ha].
  constructor; [|apply IH; exact Hs].
  rewrite Forall_forall in Ha. apply Ha. apply in_or_app. right. now left.
Qed.

Lemma is_prev_unique (keys : list K) (j j' i : nat) :
  is_prev keys j i -> is_prev keys j' i -> j = j'.
Proof.
  intros (H1 & H2 & H3) (H1' & H2' & H3').
  destruct (Nat.lt_trichotomy j j') as [Hlt | [Heq | Hgt]]; [|exact Heq|].
  - exfalso. apply (H3 j'); [lia | exact H2'].
  - exfalso. apply (H3' j); [lia | exact H2].
Qed.

(** [shift(1)] reads the previous row of the group, and gives NaN when the
    row is the first of its group. *)
Lemma shift1_previous_row (keys : list K) (col : list f32) (i : nat) (k : K) :
  nth_error keys i = Some k ->
  (exists j, is_prev keys j i /\ shift_at keq keys col 1 i = nth j col NaN)
  \/ ((forall j, ~ is_prev keys j i) /\ shift_at keq keys col 1 i = NaN).
Proof.
  intros Hi. unfold shift_at. rewrite Hi. cbv zeta. unfold rank.
  set (g := group_positions keq keys k).
  assert (Hsorted : StronglySorted lt g).
  { unfold g. rewrite (group_positions_scan keq). apply positions_from_sorted. }
  pose proof (sorted_split_below i g Hsorted) as Hsplit.
  assert (Hin : forall j, In j (filter (fun j => j <? i) g)
                          <-> (j < i)%nat /\ nth_error keys j = Some k).
  { intros j. rewrite filter_In. unfold g.
    rewrite (in_group_positions keq keq_spec), Nat.ltb_lt. tauto. }
  destruct (last_or_nil (filter (fun j => j <? i) g)) as [Hnil | Hlast].
  - right. rewrite Hnil. cbn [length]. split; [|reflexivity].
    intros j (Hj1 & Hj2 & _).
    assert (In j (filter (fun j => j <? i) g)) by (apply Hin; split; congruence).
    rewrite Hnil in H. contradiction.
  - left. destruct Hlast as (pre & j & Hpre). exists j.
    rewrite Hpre in Hsplit, Hin |- *.
    rewrite length_app. cbn [length].
    replace (Z.of_nat (length pre + 1) - 1)%Z with (Z.of_nat (length pre)) by lia.
    assert (Hlen : (length pre < length g)%nat).
    { rewrite Hsplit, !length_app. cbn [length]. lia. }
    assert (Hq : ((0 <=? Z.of_nat (length pre)) && (Z.of_nat (length pre) <? Z.of_nat (length g)))%Z = true).
    { apply andb_true_iff. split; [apply Z.leb_le | apply Z.ltb_lt]; lia. }
    rewrite Hq, Nat2Z.id.
    assert (Hnth : nth_error g (length pre) = Some j).
    { rewrite Hsplit, <- app_assoc. rewrite nth_error_app2 by lia.
      rewrite Nat.sub_diag. reflexivity. }
    rewrite Hnth. split; [|reflexivity].
    assert (Hj : (j < i)%nat /\ nth_error keys j = Some k).
    { apply Hin. apply in_or_app. right. now left. }
    destruct Hj as [Hji Hjk]. split; [exact Hji|]. split; [congruence|].
    intros m Hm Hmk.
    assert (Hmin : In m (pre ++ [j])) by (apply Hin; split; [lia | congruence]).
    assert (Hpre_lt : Forall (fun y => (y < j)%nat) pre).
    { apply (sorted_before_last pre (filter (fun j0 => negb (j0 <? i)) g)).
      rewrite Hsplit in Hsorted. rewrite <- app_assoc in Hsorted. exact Hsorted. }
    apply in_app_or in Hmin. destruct Hmin as [Hmin | [-> | []]]; [|lia].
    rewrite Forall_forall in Hpre_lt. specialize (Hpre_lt m Hmin). lia.
Qed.
End ShiftFacts.

Section CumsumFacts.
Context {K : Type} (keq : K -> K -> bool).
Hypothesis keq_spec : forall a b, keq a b = true <-> a = b.
Local Open Scope nat_scope.

Lemma filter_below_start (s : nat) (l : list nat) :
  Forall (fun j => s <= j) l -> filter (fun j => j <? s) l = [].
Proof.
  induction 1 as [|a l Ha _ IH]; [reflexivity|]. cbn [filter].
  assert (E : (a <? s) = false) by (apply Nat.ltb_ge; lia).
  rewrite E. exact IH.
Qed.

(** The group rows among the first [m] rows, read off a scan that starts
    at position [s]. *)
Lemma cumsum_scan (k : K) (keys : list K) :
  forall (col : list Z) (s m : nat),
    length col = length keys ->
    map (fun j => nth (j - s) col 0%Z)
        (filter (fun j => j <? s + m) (positions_from keq s keys k))
    = map snd (filter (fun p => keq (fst p) k) (firstn m (combine keys col))).
Proof.
  induction keys as [|x rest IH]; intros col s m Hlen.
  { cbn [positions_from combine filter map]. rewrite firstn_nil. reflexivity. }
  destruct col as [|c col]; [discriminate|].
  injection Hlen as Hlen.
  destruct m as [|m].
  - rewrite Nat.add_0_r, filter_below_start;
      [reflexivity | apply (positions_from_ge keq keq_spec)].
  - cbn [combine firstn filter fst positions_from].
    assert (Htail :
      map (fun j => nth (j - s) (c :: col) 0%Z)
          (filter (fun j => j <? s + S m) (positions_from keq (S s) rest k))
      = map snd (filter (fun p => keq (fst p) k) (firstn m (combine rest col)))).
    { rewrite <- (IH col (S s) m Hlen).
      rewrite (filter_ext (fun j => j <? s + S m) (fun j => j <? S s + m))
        by (intros j; f_equal; lia).
      apply map_ext_in. intros j Hj. apply filter_In in Hj. destruct Hj as [Hj _].
      pose proof (positions_from_ge keq keq_spec (S s) rest k) as Hge.
      rewrite Forall_forall in Hge. specialize (Hge j Hj).
      replace (j - s) with (S (j - S s)) by lia. reflexivity. }
    destruct (keq x k); [|exact Htail].
    cbn [filter]. assert (E : (s <? s + S m) = true) by (apply Nat.ltb_lt; lia).
    rewrite E. cbn [map snd]. rewrite Nat.sub_diag. cbn [nth].
    f_equal. exact Htail.
Qed.

Lemma cumsum_at_prefix (keys : list K) (col : list Z) (i : nat) (k : K) :
  length col = length keys -> nth_error keys i = Some k ->
  cumsum_at keq keys col i
  = fold_right Z.add 0%Z
      (map snd (filter (fun p => keq (fst p) k) (firstn (S i) (combine keys col)))).
Proof.
  intros Hlen Hi. unfold cumsum_at. rewrite Hi. f_equal.
  rewrite (group_positions_scan keq), <- (cumsum_scan k keys col 0 (S i) Hlen).
  rewrite (filter_ext (fun j => j <=? i) (fun j => j <? 0 + S i)).
  - apply map_ext. intros j. rewrite Nat.sub_0_r. reflexivity.
  - intros j. cbn [Nat.add].
    destruct (Nat.leb_spec j i), (Nat.ltb_spec j (S i)); try reflexivity; lia.
Qed.
End CumsumFacts.

Lemma nth_map_seq {A : Type} (f : nat -> A) (n i : nat) (d : A) :
  (i < n)%nat -> nth i (map f (seq 0 n)) d = f i.
Proof.
  intros H. apply nth_error_nth.
  rewrite nth_error_map, nth_error_seq.
  assert (E : (i <? n)%nat = true) by (apply Nat.ltb_lt; exact H).
  rewrite E. reflexivity.
Qed.

Lemma map_nth_seq {A : Type} (l : list A) (d : A) :
  map (fun i => nth i l d) (seq 0 (length l)) = l.
Proof.
  induction l as [|x l IH]; [reflexivity|].
  cbn [length seq map nth]. f_equal.
  rewrite <- seq_shift, map_map. exact IH.
Qed.

(** ** The pair-year base table *)

Lemma Qtrunc_inject_Z (z : Z) : Qtrunc (inject_Z z) = z.
Proof.
  unfold Qtrunc. destruct (Qle_bool 0 (inject_Z z));
    [apply Qfloor_Z | apply Qceiling_Z].
Qed.

Lemma wrap8_idem (z : Z) : wrap 8 (wrap 8 z) = wrap 8 z.
Proof.
  unfold wrap. change (2 ^ (8 - 1)) with 128. change (2 ^ 8) with 256.
  rewrite Z.sub_add, Z.mod_mod by lia. reflexivity.
Qed.

Lemma fillna0_int8_num (x : f32) :
  fillna0_int 8 (num (fillna0_int 8 x)) = fillna0_int 8 x.
Proof.
  unfold fillna0_int at 1. cbn [num nan_to_num].
  rewrite Qtrunc_inject_Z. apply wrap8_idem.
Qed.

Lemma filter_map_comm {A B : Type} (h : A -> B) (p : B -> bool) (l : list A) :
  filter p (map h l) = map h (filter (fun x => p (h x)) l).
Proof.
  induction l as [|x l IH]; [reflexivity|]. cbn [map filter].
  destruct (p (h x)); cbn [map]; rewrite IH; reflexivity.
Qed.

Lemma combine_map_same {A B C : Type} (f : A -> B) (g : A -> C) (l : list A) :
  combine (map f l) (map g l) = map (fun x => (f x, g x)) l.
Proof.
  induction l as [|x l IH]; [reflexivity|]. cbn [map combine]. now rewrite IH.
Qed.

Section BaseRows.
Variable df : list InterlockRow.

Let base : list BaseRow := base_rows df.
Let keys : list (string * string) := map pair_key df.
Let ind : list Z := map (fun r => fillna0_int 8 (i_interlock_indirect r)) df.
Let dir : list Z := map (fun r => fillna0_int 8 (i_interlock_direct r)) df.

Lemma base_rows_length : length base = length df.
Proof. unfold base, base_rows. now rewrite length_map, length_seq. Qed.

Lemma base_rows_pairs : map base_pair base = keys.
Proof.
  unfold base, base_rows, keys. rewrite map_map.
  transitivity (map (fun i => pair_key (nth i df (mkInterlockRow "" "" 0 NaN NaN)))
                    (seq 0 (length df))).
  - apply map_ext. intros i. reflexivity.
  - rewrite <- (map_map (fun i => nth i df (mkInterlockRow "" "" 0 NaN NaN)) pair_key).
    rewrite map_nth_seq. reflexivity.
Qed.

Lemma base_rows_indirect : map interlock_indirect base = ind.
Proof.
  unfold base, base_rows. rewrite map_map. cbn [interlock_indirect].
  fold ind. replace (length df) with (length ind) by apply length_map.
  apply map_nth_seq.
Qed.

Lemma base_rows_direct : map interlock_direct base = dir.
Proof.
  unfold base, base_rows. rewrite map_map. cbn [interlock_direct].
  fold dir. replace (length df) with (length dir) by apply length_map.
  apply map_nth_seq.
Qed.

(** Lag 1 of a cleaned indicator column at row [i]. *)
Lemma lag1_of_indicator (raw : InterlockRow -> f32) (i : nat) (k : string * string) :
  nth_error keys i = Some k ->
  let col := map (fun r => fillna0_int 8 (raw r)) df in
  (exists j, is_prev keys j i
             /\ fillna0_int 8 (shift_at pair_eqb keys (map num col) 1 i)
                = nth j col 0)
  \/ ((forall j, ~ is_prev keys j i)
      /\ fillna0_int 8 (shift_at pair_eqb keys (map num col) 1 i) = 0).
Proof.
  intros Hi col.
  destruct (shift1_previous_row pair_eqb pair_eqb_spec keys (map num col) i k Hi)
    as [(j & Hprev & Hshift) | (Hnone & Hshift)]; rewrite Hshift.
  - left. exists j. split; [exact Hprev|].
    assert (Hj : (j < length df)%nat).
    { destruct Hprev as (Hlt & _ & _).
      assert (i < length keys)%nat by (apply nth_error_Some; congruence).
      unfold keys in H. rewrite length_map in H. lia. }
    destruct (nth_error df j) as [x|] eqn:Ex;
      [|apply nth_error_None in Ex; lia].
    assert (E1 : nth_error (map num col) j = Some (num (fillna0_int 8 (raw x)))).
    { unfold col. rewrite !nth_error_map, Ex. reflexivity. }
    assert (E2 : nth_error col j = Some (fillna0_int 8 (raw x))).
    { unfold col. rewrite nth_error_map, Ex. reflexivity. }
    rewrite (nth_error_nth _ _ NaN E1), (nth_error_nth _ _ 0 E2).
    apply fillna0_int8_num.
  - right. split; [exact Hnone | reflexivity].
Qed.
End BaseRows.

Lemma running_count_cumsum (base : list BaseRow) (f : BaseRow -> Z)
    (i : nat) (r : BaseRow) :
  nth_error base i = Some r ->
  cumsum_at pair_eqb (map base_pair base) (map f base) i = running_count f base i r.
Proof.
  intros Hi.
  rewrite (cumsum_at_prefix pair_eqb pair_eqb_spec _ _ i (base_pair r)).
  - unfold running_count. f_equal.
    rewrite combine_map_same, firstn_map, filter_map_comm, map_map.
    reflexivity.
  - now rewrite !length_map.
  - rewrite nth_error_map, Hi. reflexivity.
Qed.

Lemma base_rows_masks (df : list InterlockRow) (i : nat) (r : BaseRow) :
  nth_error (base_rows df) i = Some r ->
  (mask_indirect_yoy r = true <->
     interlock_indirect r = 1
     /\ forall j r', is_prev (map base_pair (base_rows df)) j i ->
                     nth_error (base_rows df) j = Some r' ->
                     interlock_indirect r' = 0)
  /\ (mask_direct_yoy r = true <->
        interlock_direct r = 1
        /\ forall j r', is_prev (map base_pair (base_rows df)) j i ->
                        nth_error (base_rows df) j = Some r' ->
                        interlock_direct r' = 0)
  /\ (mask_never r = true <->
        running_count interlock_indirect (base_rows df) i r = 0
        /\ running_count interlock_direct (base_rows df) i r = 0).
Proof.
  intros Hr.
  assert (Hi : (i < length df)%nat).
  { rewrite <- (base_rows_length df). apply nth_error_Some. congruence. }
  assert (Hk : nth_error (map pair_key df) i = Some (base_pair r)).
  { rewrite <- (base_rows_pairs df), nth_error_map, Hr. reflexivity. }
  assert (Hrow : forall (f : BaseRow -> Z) j r',
             nth_error (base_rows df) j = Some r' ->
             nth j (map f (base_rows df)) 0 = f r').
  { intros f j r' Hj. apply nth_error_nth. rewrite nth_error_map, Hj. reflexivity. }
  pose proof (lag1_of_indicator df i_interlock_indirect i _ Hk) as Hlag_i.
  pose proof (lag1_of_indicator df i_interlock_direct i _ Hk) as Hlag_d.
  cbv zeta in Hlag_i, Hlag_d.
  pose proof (running_count_cumsum (base_rows df) interlock_indirect i r Hr) as Hcum_i.
  pose proof (running_count_cumsum (base_rows df) interlock_direct i r Hr) as Hcum_d.
  rewrite (base_rows_pairs df) in Hcum_i, Hcum_d.
  rewrite (base_rows_indirect df) in Hcum_i. rewrite (base_rows_direct df) in Hcum_d.
  rewrite (base_rows_pairs df).
  assert (Hfields :
    mask_indirect_yoy r
    = (interlock_indirect r =? 1)
      && (fillna0_int 8
            (shift_at pair_eqb (map pair_key df)
               (map num (map (fun r => fillna0_int 8 (i_interlock_indirect r)) df))
               1 i) =? 0)
    /\ mask_direct_yoy r
       = (interlock_direct r =? 1)
         && (fillna0_int 8
               (shift_at pair_eqb (map pair_key df)
                  (map num (map (fun r => fillna0_int 8 (i_interlock_direct r)) df))
                  1 i) =? 0)
    /\ mask_never r
       = (cumsum_at pair_eqb (map pair_key df)
            (map (fun r => fillna0_int 8 (i_interlock_indirect r)) df) i =? 0)
         && (cumsum_at pair_eqb (map pair_key df)
               (map (fun r => fillna0_int 8 (i_interlock_direct r)) df) i =? 0)).
  { unfold base_rows in Hr. rewrite nth_error_map, nth_error_seq in Hr.
    assert (E : (i <? length df)%nat = true) by (apply Nat.ltb_lt; exact Hi).
    rewrite E in Hr. cbn [option_map Nat.add] in Hr. injection Hr as <-.
    cbn [mask_indirect_yoy mask_direct_yoy mask_never interlock_indirect
         interlock_direct].
    unfold shift, cumsum. rewrite !map_map, !length_map.
    rewrite !(nth_map_seq _ _ _ _ Hi). repeat split. }
  destruct Hfields as (-> & -> & ->).
  rewrite Hcum_i, Hcum_d.
  rewrite !andb_true_iff, !Z.eqb_eq.
  split; [|split; [|tauto]].
  - destruct Hlag_i as [(j & Hprev & ->) | (Hnone & ->)].
    + destruct (nth_error (base_rows df) j) as [rj|] eqn:Hj.
      * rewrite <- (base_rows_indirect df), (Hrow _ _ _ Hj). split; intros [H1 H2]; (split; [exact H1|]).
        -- intros j' r' Hprev' Hj'.
           rewrite (is_prev_unique _ _ _ _ Hprev' Hprev) in Hj'. congruence.
        -- apply (H2 j rj Hprev Hj).
      * exfalso. apply nth_error_None in Hj. rewrite base_rows_length in Hj.
        destruct Hprev as (Hlt & _). lia.
    + split; intros [H1 _]; (split; [exact H1|]); [|reflexivity].
      intros j r' Hprev. exfalso. apply (Hnone j Hprev).
  - destruct Hlag_d as [(j & Hprev & ->) | (Hnone & ->)].
    + destruct (nth_error (base_rows df) j) as [rj|] eqn:Hj.
      * rewrite <- (base_rows_direct df), (Hrow _ _ _ Hj). split; intros [H1 H2]; (split; [exact H1|]).
        -- intros j' r' Hprev' Hj'.
           rewrite (is_prev_unique _ _ _ _ Hprev' Hprev) in Hj'. congruence.
        -- apply (H2 j rj Hprev Hj).
      * exfalso. apply nth_error_None in Hj. rewrite base_rows_length in Hj.
        destruct Hprev as (Hlt & _). lia.
    + split; intros [H1 _]; (split; [exact H1|]); [|reflexivity].
      intros j r' Hprev. exfalso. apply (Hnone j Hprev).
Qed.

(** C4, as stated, fails: pair (A, B) of the small run has the indirect
    indicator 0, 1, 0, 1 over 2000-2003, and the Indirect-YoY mask is true in
    2001 and again in 2003, the second onset. *)
Lemma indirect_yoy_true_on_second_onset :
  option_map fst (build_base ex_valid (f_columns ex_citeline) ex_interlock
                             [disease; therapeutic]) = Some ex_base
  /\ map (fun r => (BoardName1 r, BoardName2 r, year r,
                    interlock_indirect r, mask_indirect_yoy r)) ex_base
     = [ ("A", "B", 2000, 0, false); ("A", "B", 2001, 1, true);
         ("A", "B", 2002, 0, false); ("A", "B", 2003, 1, true);
         ("A", "C", 2000, 0, false); ("A", "C", 2001, 1, true) ]%string.
Proof. split; vm_compute; reflexivity. Qed.

(** C4, amended: in the base table, the Indirect-YoY mask of a row is true
    exactly when its indirect indicator is 1 and the previous row of the same
    pair, if there is one, has indicator 0 (every onset, a second one
    included, and never a year that continues an interlock); the Direct-YoY
    mask likewise for the direct indicator; and the Never mask is true exactly
    when the running counts of both indicators over the rows of the pair up to
    the row are zero. *)
Theorem yoy_masks_flag_every_onset (valid cols0 : list string)
    (interlock : list InterlockRow) (want_entities : list Entity)
    (base : list BaseRow) (gbe : list (Entity * list string)) :
  build_base valid cols0 interlock want_entities = Some (base, gbe) ->
  forall i r, nth_error base i = Some r ->
    (mask_indirect_yoy r = true <->
       interlock_indirect r = 1
       /\ forall j r', is_prev (map base_pair base) j i ->
                       nth_error base j = Some r' -> interlock_indirect r' = 0)
    /\ (mask_direct_yoy r = true <->
          interlock_direct r = 1
          /\ forall j r', is_prev (map base_pair base) j i ->
                          nth_error base j = Some r' -> interlock_direct r' = 0)
    /\ (mask_never r = true <->
          running_count interlock_indirect base i r = 0
          /\ running_count interlock_direct base i r = 0).
Proof.
  unfold build_base. intros H.
  destruct (negb _); [discriminate|]. injection H as <- _.
  intros i r. apply base_rows_masks.
Qed.

Lemma yoy_masks_flag_every_onset_witness :
  let r := nth 3 ex_base no_row in
  (mask_indirect_yoy r = true <->
     interlock_indirect r = 1
     /\ forall j r', is_prev (map base_pair ex_base) j 3 ->
                     nth_error ex_base j = Some r' -> interlock_indirect r' = 0)
  /\ (mask_direct_yoy r = true <->
        interlock_direct r = 1
        /\ forall j r', is_prev (map base_pair ex_base) j 3 ->
                        nth_error ex_base j = Some r' -> interlock_direct r' = 0)
  /\ (mask_never r = true <->
        running_count interlock_indirect ex_base 3 r = 0
        /\ running_count interlock_direct ex_base 3 r = 0).
Proof.
  apply (yoy_masks_flag_every_onset
           ex_valid (f_columns ex_citeline) ex_interlock [disease; therapeutic]
           ex_base [(disease, ["X"%string]); (therapeutic, [])]).
  - vm_compute. reflexivity.
  - vm_compute. reflexivity.
Defined.

(** ** The lag and lead cache *)

(** C2 on the small run.  Firm A has origination 0, 1, 1, 2 over 2000-2003
    and is paired with B (2000-2003) and with C (2000-2001).  On the first row
    of pair (A, C), year 2000, the first year of firm A, the cached lag 1 of
    the side-1 origination is 2, the value of firm A in 2003 carried over
    from the last row of pair (A, B), and not a missing value; the lead 1 on
    the last row of pair (A, B) is the value of 2000. *)
Lemma lag1_crosses_pair_boundary :
  map (fun r => (BoardName1 (j_base r), BoardName2 (j_base r), year (j_base r)))
      ex_tmp
  = [ ("A", "B", 2000); ("A", "B", 2001); ("A", "B", 2002); ("A", "B", 2003);
      ("A", "C", 2000); ("A", "C", 2001) ]%string
  /\ c_cur_o1 ex_cache "X" = [num 0; num 1; num 1; num 2; num 0; num 1]
  /\ c_L1_o1 ex_cache "X" = [NaN; num 0; num 1; num 1; num 2; num 0]
  /\ c_F1_o1 ex_cache "X" = [num 1; num 1; num 2; num 0; num 1; NaN].
Proof. repeat split; vm_compute; reflexivity. Qed.

(** What the cache holds as lag 1 of the side-1 origination: the value on the
    previous row of the joined table that has the same BoardName1, whatever
    its pair and year, and NaN on the first row of the firm. *)
Lemma cached_lag1_is_previous_row_of_firm (tmp : list JoinedRow)
    (entity : Entity) (g : string) (i : nat) (k : string) :
  let firms := map (fun r => BoardName1 (j_base r)) tmp in
  let cache := _build_shift_last_cache tmp entity in
  nth_error firms i = Some k ->
  (exists j, is_prev firms j i
             /\ nth i (c_L1_o1 cache g) NaN = nth j (c_cur_o1 cache g) NaN)
  \/ ((forall j, ~ is_prev firms j i) /\ nth i (c_L1_o1 cache g) NaN = NaN).
Proof.
  intros firms cache Hi.
  assert (Hlt : (i < length firms)%nat) by (apply nth_error_Some; congruence).
  assert (E : nth i (c_L1_o1 cache g) NaN
              = shift_at String.eqb firms (c_cur_o1 cache g) 1 i).
  { unfold cache, _build_shift_last_cache. cbn [c_L1_o1 c_cur_o1].
    unfold shift. fold firms. apply nth_map_seq. exact Hlt. }
  rewrite E.
  apply (shift1_previous_row String.eqb String.eqb_eq firms _ i k Hi).
Qed.

(** ** Sorting and the index labels of the joined table *)

Section SortFacts.
Context {A : Type} (leb : A -> A -> bool).
Hypothesis leb_total : forall a b, leb a b = true \/ leb b a = true.

Lemma insert_hd (x y : A) (l : list A) :
  leb y x = true -> HdRel (fun a b => leb a b = true) y l ->
  HdRel (fun a b => leb a b = true) y (insert leb x l).
Proof.
  intros Hyx Hl. destruct l as [|z l]; cbn [insert]; [now constructor|].
  destruct (leb x z); constructor; [exact Hyx|].
  inversion Hl; assumption.
Qed.

Lemma insert_sorted (x : A) (l : list A) :
  sorted_by leb l -> sorted_by leb (insert leb x l).
Proof.
  unfold sorted_by. induction 1 as [|y l Hl IH Hy]; cbn [insert].
  - repeat constructor.
  - destruct (leb x y) eqn:E.
    + constructor; [constructor; assumption | constructor; exact E].
    + constructor; [exact IH|]. apply insert_hd; [|exact Hy].
      destruct (leb_total x y); congruence.
Qed.

Lemma stable_sort_sorted (l : list A) : sorted_by leb (stable_sort leb l).
Proof.
  induction l as [|x l IH]; cbn [stable_sort]; [constructor|].
  apply insert_sorted, IH.
Qed.

(** Sorting a sorted table leaves it as it is. *)
Lemma stable_sort_sorted_id (l : list A) :
  sorted_by leb l -> stable_sort leb l = l.
Proof.
  unfold sorted_by. induction 1 as [|x l Hl IH Hx]; [reflexivity|].
  cbn [stable_sort]. rewrite IH. destruct Hx as [|y l' Hxy]; cbn [insert];
    [reflexivity|]. rewrite Hxy. reflexivity.
Qed.
End SortFacts.

Lemma key3_leb_total (a b : string * string * Z) :
  key3_leb a b = true \/ key3_leb b a = true.
Proof.
  destruct a as [[a1 a2] ay], b as [[b1 b2] by_]. unfold key3_leb.
  rewrite (String.compare_antisym b1 a1), (String.compare_antisym b2 a2).
  destruct (String.compare a1 b1); cbn [CompOpp]; auto.
  destruct (String.compare a2 b2); cbn [CompOpp]; auto.
  destruct (Z.leb_spec ay by_); [now left | right; apply Z.leb_le; lia].
Qed.

Lemma key3_leb_refl (a : string * string * Z) : key3_leb a a = true.
Proof. destruct (key3_leb_total a a); assumption. Qed.

Lemma sorted_by_map {A B : Type} (f : A -> B) (leb : B -> B -> bool) (l : list A) :
  sorted_by (fun a b => leb (f a) (f b)) l <-> sorted_by leb (map f l).
Proof.
  unfold sorted_by. induction l as [|x l IH]; cbn [map].
  - split; constructor.
  - split; intros H; inversion H as [|? ? Hl Hx]; subst;
      (constructor; [now apply IH|]);
      destruct l; cbn [map] in *; constructor; inversion Hx; assumption.
Qed.

(** Replacing every row by a non-empty block of rows with the same key keeps
    a sorted key column sorted. *)
Lemma blocks_sorted {L R : Type} (key : L -> string * string * Z)
    (blk : L -> list (L * R)) (left : list L) :
  (forall l, blk l <> [] /\ Forall (fun p => fst p = l) (blk l)) ->
  sorted_by key3_leb (map key left) ->
  sorted_by key3_leb (map (fun p => key (fst p)) (flat_map blk left)).
Proof.
  intros Hblk. unfold sorted_by.
  assert (Hblock : forall l (block : list (L * R)) tail,
             Forall (fun p => fst p = l) block ->
             Sorted (fun a b => key3_leb a b = true) tail ->
             HdRel (fun a b => key3_leb a b = true) (key l) tail ->
             Sorted (fun a b => key3_leb a b = true)
                    (map (fun p => key (fst p)) block ++ tail)).
  { intros l. induction block as [|p block IHb]; intros tail Hb Ht Hh;
      cbn [map app]; [exact Ht|].
    inversion Hb as [|? ? Hp Hb']; subst. constructor; [apply IHb; assumption|].
    destruct block as [|q block]; cbn [map app].
    - exact Hh.
    - inversion Hb' as [|? ? Hq _]; subst. constructor. rewrite Hq.
      apply key3_leb_refl. }
  induction left as [|l rest IH]; intros H; cbn [flat_map map]; [constructor|].
  cbn [map] in H. inversion H as [|? ? Hrest Hhd]; subst.
  rewrite map_app. apply (Hblock l); [apply Hblk | apply IH, Hrest |].
  destruct rest as [|l' rest']; cbn [flat_map map]; [constructor|].
  inversion Hhd as [|? ? Hll']; subst.
  destruct (Hblk l') as [Hne Hall].
  destruct (blk l') as [|p block]; [contradiction|].
  inversion Hall as [|? ? Hp _]; subst.
  cbn [app map]. constructor. exact Hll'.
Qed.

(** A left merge repeats left rows in place, so it keeps a sorted key column
    sorted. *)
Lemma merge_left_sorted {L : Type} (key : L -> string * string * Z)
    (name : L -> string) (yr : L -> Z) (firm : list FirmRow) (left : list L) :
  sorted_by key3_leb (map key left) ->
  sorted_by key3_leb (map (fun p => key (fst p)) (merge_left left name yr firm)).
Proof.
  unfold merge_left. apply blocks_sorted. intros l.
  destruct (filter _ firm) as [|fr ms].
  - split; [discriminate | repeat constructor].
  - split; [discriminate|]. apply Forall_forall. intros p Hp.
    apply in_map_iff in Hp. destruct Hp as (x & <- & _). reflexivity.
Qed.

(** When the base table is sorted, the sort of [_attach_entity_batch] moves
    no row, so the index label of every row of the joined table is its
    position: the index lists of [groupby(...).groups] can serve as array
    positions. *)
Lemma joined_labels_are_positions (base : list BaseRow) (valid : list string)
    (citeline : FirmTable) (entity : Entity) (groups : list string)
    (tmp : list JoinedRow) :
  sorted_by key3_leb (map base_key base) ->
  _attach_entity_batch base valid citeline entity groups = Some (Some tmp) ->
  map j_index tmp = seq 0 (length tmp).
Proof.
  intros Hsorted. unfold _attach_entity_batch.
  destruct groups as [|g groups]; [discriminate|].
  destruct (negb _); [discriminate|].
  set (firm := filter (fun fr => isin valid (f_BoardName fr)) (f_rows citeline)).
  set (m1 := merge_left base BoardName1 year firm).
  set (m2 := merge_left m1 (fun p => BoardName2 (fst p)) (fun p => year (fst p)) firm).
  set (pre := map _ (combine (seq 0 (length m2)) m2)).
  intros H.
  assert (Htmp : tmp = stable_sort (fun a b => key3_leb (joined_key a) (joined_key b))
                                   pre)
    by (injection H as <-; reflexivity).
  clear H. subst tmp.
  assert (Hpre : sorted_by (fun a b => key3_leb (joined_key a) (joined_key b)) pre).
  { apply (proj2 (sorted_by_map joined_key key3_leb pre)).
    assert (Hkeys : map joined_key pre = map (fun p => base_key (fst (fst p))) m2).
    { unfold pre. clearbody m2. clear. generalize 0%nat.
      induction m2 as [|x l IH]; intros n; [reflexivity|].
      cbn [length seq combine map]. f_equal; first [apply IH | reflexivity]. }
    rewrite Hkeys.
    apply (merge_left_sorted (fun p => base_key (fst p))).
    apply (merge_left_sorted base_key). exact Hsorted. }
  rewrite (stable_sort_sorted_id _ _ Hpre).
  unfold pre. rewrite map_map, length_map. cbn [j_index].
  rewrite length_combine, length_seq, Nat.min_id.
  clearbody m2. clear. generalize 0%nat.
  induction m2 as [|x l IH]; intros n; [reflexivity|].
  cbn [length seq combine map fst]. f_equal. apply IH.
Qed.

(** The base table that [build_base] returns is sorted by pair and year. *)
Lemma build_base_sorted (valid cols0 : list string)
    (interlock : list InterlockRow) (want_entities : list Entity)
    (base : list BaseRow) (gbe : list (Entity * list string)) :
  build_base valid cols0 interlock want_entities = Some (base, gbe) ->
  sorted_by key3_leb (map base_key base).
Proof.
  unfold build_base. destruct (negb _); [discriminate|]. intros H.
  set (df := stable_sort (fun a b => key3_leb (sort_key a) (sort_key b)) _) in H.
  assert (Hb : base = base_rows df) by (injection H as <- _; reflexivity).
  clear H. subst base.
  assert (Hkeys : map base_key (base_rows df) = map sort_key df).
  { unfold base_rows. rewrite map_map.
    transitivity (map (fun i => sort_key (nth i df (mkInterlockRow "" "" 0 NaN NaN)))
                      (seq 0 (length df))).
    - apply map_ext. intros i. reflexivity.
    - rewrite <- (map_map (fun i => nth i df (mkInterlockRow "" "" 0 NaN NaN)) sort_key).
      rewrite map_nth_seq. reflexivity. }
  rewrite Hkeys. apply (proj1 (sorted_by_map sort_key key3_leb df)). unfold df.
  apply stable_sort_sorted. intros a b. apply key3_leb_total.
Qed.

(** In a run over a sorted base table, the flags that [prepare_arrays_fast]
    stores in the rows of a group are the eligibility of the pair of the row,
    computed on the current origination and launch columns of the joined
    table. *)
Lemma prepared_flags_are_pair_eligibility (base : list BaseRow)
    (valid : list string) (citeline : FirmTable) (entity : Entity)
    (batch : list string) (tmp : list JoinedRow) (base_masks : BaseMasks)
    (g : string) :
  sorted_by key3_leb (map base_key base) ->
  _attach_entity_batch base valid citeline entity batch = Some (Some tmp) ->
  let cache := _build_shift_last_cache tmp entity in
  let keys := map joined_pair tmp in
  exists arr,
    prepare_arrays_fast base_masks (groups pair_eqb keys (map j_index tmp)) cache g
    = Some arr
    /\ length (rows arr) = length tmp
    /\ forall i k r, nth_error keys i = Some k -> nth_error (rows arr) i = Some r ->
         Engine.ok1 r = eligible (group_series pair_eqb keys (c_cur_o1 cache g) k)
                                 (group_series pair_eqb keys (c_cur_l1 cache g) k)
         /\ Engine.ok2 r = eligible (group_series pair_eqb keys (c_cur_o2 cache g) k)
                                    (group_series pair_eqb keys (c_cur_l2 cache g) k).
Proof.
  intros Hsorted Htmp cache keys.
  rewrite (joined_labels_are_positions _ _ _ _ _ _ Hsorted Htmp).
  assert (Hlen : length keys = length tmp) by apply length_map.
  rewrite <- Hlen.
  assert (Hcol : forall (col : Cache -> string -> list f32),
             In col [c_cur_o1; c_cur_l1; c_cur_o2; c_cur_l2] ->
             length (col cache g) = length keys).
  { intros col Hc. rewrite Hlen. cbn [In] in Hc.
    destruct Hc as [<- | [<- | [<- | [<- | []]]]];
      cbn [cache _build_shift_last_cache c_cur_o1 c_cur_l1 c_cur_o2 c_cur_l2];
      apply length_map. }
  destruct (causal_flags_per_pair pair_eqb pair_eqb_spec keys
              (c_cur_o1 cache g) (c_cur_l1 cache g)
              (c_cur_o2 cache g) (c_cur_l2 cache g))
    as (ok1 & ok2 & Hrun & H1 & H2 & Hnth);
    try (apply Hcol; cbn; auto).
  unfold prepare_arrays_fast. rewrite Hrun. cbn [bind].
  eexists. split; [reflexivity|]. cbn [rows].
  rewrite (Hcol c_cur_o1) by (cbn; auto).
  split; [rewrite length_map, length_seq; reflexivity|].
  intros i k r Hi Hr.
  rewrite nth_error_map, nth_error_seq in Hr.
  destruct (i <? length keys)%nat; [|discriminate].
  cbn [option_map Nat.add] in Hr. injection Hr as <-. cbn [Engine.ok1 Engine.ok2].
  apply (Hnth i k Hi).
Qed.

(** C8, as stated, fails: the header of the small run names a group of the
    disease entity only, so group discovery for the therapeutic entity yields
    the empty list; yet [main] on both entities does not abort: it ends
    normally, the therapeutic entity is skipped and the nine files of the
    disease entity are written. *)
Theorem entity_without_groups_is_skipped :
  detect_groups (f_columns ex_citeline) therapeutic = []
  /\ main ex_valid ex_citeline ex_interlock [disease; therapeutic] []
     = (fst ex_run, Some tt)
  /\ map file_name (fst ex_run)
     = [ "full_disease_results_with_all_scenarios.csv";
         "originate_changes_interlock_indirect_with_shares.csv";
         "originate_changes_interlock_direct_with_shares.csv";
         "originate_changes_not_interlock_indirect_with_shares.csv";
         "originate_changes_interlock_indirect_with_shares_YoY_events.csv";
         "originate_changes_interlock_indirect_with_shares_by_prior_direct_history.csv";
         "originate_changes_interlock_direct_with_shares_YoY_events.csv";
         "originate_changes_interlock_direct_with_share_by_prior_direct_history.csv";
         "originate_changes_not_interlock_with_shares_YoY_events.csv" ]%string.
Proof. split; [|split]; vm_compute; reflexivity. Qed.

(** * Further properties of the code *)

Import MoreProps.

(** ** Algebra of the classification masks *)

Lemma mask_fn_factor (m : mask_id) (b : bool) (r : Row) :
  mask_fn m b r = b && mask_fn m true r.
Proof. destruct m, b; reflexivity. Qed.

Lemma gt0_not_eq0 (x : f32) : gt0 x = true -> eq0 x = false.
Proof.
  destruct x as [q|]; cbn; [|discriminate]. intros H.
  apply Qgtb_lt in H. destruct (Qeq_bool q (inject_Z 0)) eqn:E; [|reflexivity].
  apply Qeq_bool_iff in E. lra.
Qed.

Ltac split_cells r :=
  pose proof (gt0_not_eq0 (L1_o1 r)); pose proof (gt0_not_eq0 (L1_o2 r));
  destruct (gt0 (L1_o1 r)), (eq0 (L1_o1 r)),
           (gt0 (L1_o2 r)), (eq0 (L1_o2 r));
  try (assert (true = false) by auto; discriminate).

(** rn.k is a.k and b.(k+5) at once. *)
Lemma rn_is_intersection (m ma mb : mask_id) (b : bool) (r : Row) :
  rn_parts m = Some (ma, mb) ->
  mask_fn m b r = mask_fn ma b r && mask_fn mb b r.
Proof.
  destruct m; cbn [rn_parts]; intros E; inversion E; subst ma mb; cbn [mask_fn];
    unfold rn1, rn2, rn3, rn4, rn5, a1, a2, a3, a4, a5,
           b6, b7, b8, b9, b10, b_second_base,
           starts1_by_last, starts2_by_last;
    split_cells r;
    destruct b, (mask_na_orig r), (mask_na_launch r), (mask_na_future r),
             (eq0 (L1_l1 r)), (eq0 (L1_l2 r));
    cbn [andb orb]; try reflexivity;
    repeat match goal with
           | |- context [?x && ?y] =>
               match x with
               | true => fail 1 | false => fail 1
               | _ => destruct x
               end
           | |- context [?x || ?y] =>
               match x with
               | true => fail 1 | false => fail 1
               | _ => destruct x
               end
           end; cbn [andb orb]; try reflexivity;
    repeat match goal with
           | |- context [gt ?x ?y] => destruct (gt x y)
           | |- context [gt0 ?x] => destruct (gt0 x)
           | |- context [ok1 ?x] => destruct (ok1 x)
           | |- context [ok2 ?x] => destruct (ok2 x)
           end; reflexivity.
Qed.

Lemma both_inexp_known_zero (r : Row) :
  both_inexp_lag r = eq0 (L1_o1 r) && eq0 (L1_o2 r).
Proof.
  unfold both_inexp_lag, eq0, eqv, num.
  destruct (L1_o1 r), (L1_o2 r); reflexivity.
Qed.

Lemma families_exclusive_row (m m' : mask_id) (b : bool) (r : Row) :
  In m one_sided_family -> In m' inexperienced_family ->
  mask_fn m b r && mask_fn m' b r = false.
Proof.
  intros Hm Hm'.
  assert (H1 : mask_fn m b r = true -> mask_fn A1 b r = true).
  { cbn in Hm. repeat (destruct Hm as [<- | Hm]; [|]); try contradiction;
      try (exact (fun H => H));
      try (apply refined_implies_base; reflexivity);
      intros H;
      [ rewrite (rn_is_intersection RN1 A1 B6) in H by reflexivity
      | rewrite (rn_is_intersection RN2 A2 B7) in H by reflexivity
      | rewrite (rn_is_intersection RN3 A3 B8) in H by reflexivity
      | rewrite (rn_is_intersection RN4 A4 B9) in H by reflexivity
      | rewrite (rn_is_intersection RN5 A5 B10) in H by reflexivity ];
      apply andb_true_iff in H; destruct H as [H _];
      try exact H; revert H; apply refined_implies_base; reflexivity. }
  assert (H6 : mask_fn m' b r = true -> mask_fn A6 b r = true).
  { cbn in Hm'. repeat (destruct Hm' as [<- | Hm']; [|]); try contradiction;
      try (exact (fun H => H)); apply refined_implies_base; reflexivity. }
  destruct (mask_fn m b r) eqn:E1; [|reflexivity].
  destruct (mask_fn m' b r) eqn:E6; [|reflexivity].
  specialize (H1 eq_refl). specialize (H6 eq_refl). exfalso.
  cbn [mask_fn] in H1, H6. unfold a1 in H1. unfold a6 in H6.
  rewrite both_inexp_known_zero in H6.
  pose proof (gt0_not_eq0 (L1_o1 r)). pose proof (gt0_not_eq0 (L1_o2 r)).
  bool_props. intuition congruence.
Qed.

(** Entry [i] of a mask array over aligned inputs, also past the end. *)
Lemma mask_at_rows (arr : list Row) (M : list bool) (m : mask_id) (i : nat) :
  length M = length arr ->
  mask_at (map (fun m => map (fun br => mask_fn m (fst br) (snd br)) (combine M arr))
               mask_ids) m i
  = match nth_error M i, nth_error arr i with
    | Some b, Some r => mask_fn m b r
    | _, _ => false
    end.
Proof.
  intros Hlen.
  destruct (nth_error M i) as [b|] eqn:Hb; destruct (nth_error arr i) as [r|] eqn:Hr.
  - apply (mask_at_aligned _ _ _ _ _ _ Hb Hr).
  - apply nth_error_None in Hr.
    assert (i < length M)%nat by (apply nth_error_Some; congruence). lia.
  - apply nth_error_None in Hb.
    assert (i < length arr)%nat by (apply nth_error_Some; congruence). lia.
  - unfold mask_at.
    set (col := fun m => map (fun br => mask_fn m (fst br) (snd br)) (combine M arr)).
    assert (Hm : nth_error (map col mask_ids) (pos m) = Some (col m))
      by (rewrite nth_error_map, nth_pos_ids; reflexivity).
    rewrite (nth_error_nth _ _ [] Hm). apply nth_overflow.
    unfold col. rewrite length_map, length_combine.
    apply nth_error_None in Hb. lia.
Qed.

(** X1: over a base mask aligned with the rows, the mask rn.k is on every row
    the conjunction of a.k and b.(k+5), so its count is at most each of
    theirs. *)
Theorem rn_masks_are_intersections (arr : list Row) (M : list bool) :
  length M = length arr ->
  exists ms cs,
    mats arr M = Some ms /\ compute_bundle_counts arr M = Some cs /\
    forall m ma mb, rn_parts m = Some (ma, mb) ->
      (forall i, mask_at ms m i = mask_at ms ma i && mask_at ms mb i)
      /\ count_of cs m <= count_of cs ma /\ count_of cs m <= count_of cs mb.
Proof.
  intros Hlen. eexists. eexists.
  split; [apply (mats_aligned _ _ Hlen)|].
  split; [apply (counts_aligned _ _ Hlen)|].
  intros m ma mb Hparts. split; [|split].
  - intros i. rewrite !(mask_at_rows _ _ _ _ Hlen).
    destruct (nth_error M i), (nth_error arr i); try reflexivity.
    apply (rn_is_intersection _ _ _ _ _ Hparts).
  - rewrite !count_of_aligned. apply msum_map_le. intros [b r] _. cbn [fst snd].
    rewrite (rn_is_intersection _ _ _ _ _ Hparts). intros H.
    apply andb_true_iff in H. tauto.
  - rewrite !count_of_aligned. apply msum_map_le. intros [b r] _. cbn [fst snd].
    rewrite (rn_is_intersection _ _ _ _ _ Hparts). intros H.
    apply andb_true_iff in H. tauto.
Qed.

Lemma rn_masks_are_intersections_witness :
  exists ms cs,
    mats two_rows [true; true] = Some ms
    /\ compute_bundle_counts two_rows [true; true] = Some cs /\
    forall m ma mb, rn_parts m = Some (ma, mb) ->
      (forall i, mask_at ms m i = mask_at ms ma i && mask_at ms mb i)
      /\ count_of cs m <= count_of cs ma /\ count_of cs m <= count_of cs mb.
Proof.
  apply (rn_masks_are_intersections two_rows [true; true]). reflexivity.
Defined.

(** X2: over a base mask aligned with the rows, no row is at once in a mask
    of the one-side-experienced family (a.1 to a.5, rn.1 to rn.5) and in a
    mask of the both-inexperienced family (a.6 to a.10). *)
Theorem experienced_and_inexperienced_exclusive (arr : list Row) (M : list bool) :
  length M = length arr ->
  exists ms,
    mats arr M = Some ms /\
    forall m m' i, In m one_sided_family -> In m' inexperienced_family ->
      mask_at ms m i && mask_at ms m' i = false.
Proof.
  intros Hlen. eexists. split; [apply (mats_aligned _ _ Hlen)|].
  intros m m' i Hm Hm'. rewrite !(mask_at_rows _ _ _ _ Hlen).
  destruct (nth_error M i), (nth_error arr i); try reflexivity.
  apply families_exclusive_row; assumption.
Qed.

Lemma experienced_and_inexperienced_exclusive_witness :
  exists ms,
    mats two_rows [true; true] = Some ms /\
    forall m m' i, In m one_sided_family -> In m' inexperienced_family ->
      mask_at ms m i && mask_at ms m' i = false.
Proof.
  apply (experienced_and_inexperienced_exclusive two_rows [true; true]).
  reflexivity.
Defined.

Lemma msum_combine_mono (g : Row -> bool) (M M' : list bool) :
  mask_le M M' ->
  forall arr,
    msum (map (fun br => fst br && g (snd br)) (combine M arr))
    <= msum (map (fun br => fst br && g (snd br)) (combine M' arr)).
Proof.
  induction 1 as [|b b' M M' Hb _ IH]; intros arr; [cbn; lia|].
  destruct arr as [|r arr]; [cbn; lia|].
  cbn [combine map fst snd]. rewrite !msum_cons. specialize (IH arr).
  destruct b; [rewrite (Hb eq_refl); lia|].
  cbn [andb]. destruct (b' && g r); lia.
Qed.

(** X3: the engine is monotone in the base mask: when one aligned base mask
    lies inside another, each of the 25 counts under the smaller mask is at
    most the count under the larger one. *)
Theorem counts_monotone_in_base_mask (arr : list Row) (M M' : list bool) :
  length M = length arr -> mask_le M M' ->
  exists cs cs',
    compute_bundle_counts arr M = Some cs
    /\ compute_bundle_counts arr M' = Some cs'
    /\ forall m, count_of cs m <= count_of cs' m.
Proof.
  intros Hlen Hle.
  assert (Hlen' : length M' = length arr).
  { rewrite <- Hlen. symmetry. apply (Forall2_length Hle). }
  eexists. eexists.
  split; [apply (counts_aligned _ _ Hlen)|].
  split; [apply (counts_aligned _ _ Hlen')|].
  intros m. rewrite !count_of_aligned.
  rewrite (map_ext _ (fun br => fst br && mask_fn m true (snd br)))
    by (intros br; apply mask_fn_factor).
  rewrite (map_ext (fun br => mask_fn m (fst br) (snd br))
                   (fun br => fst br && mask_fn m true (snd br)))
    by (intros br; apply mask_fn_factor).
  apply msum_combine_mono. exact Hle.
Qed.

Lemma counts_monotone_in_base_mask_witness :
  exists cs cs',
    compute_bundle_counts two_rows [true; false] = Some cs
    /\ compute_bundle_counts two_rows [true; true] = Some cs'
    /\ forall m, count_of cs m <= count_of cs' m.
Proof.
  apply (counts_monotone_in_base_mask two_rows [true; false] [true; true]).
  - reflexivity.
  - repeat constructor.
Defined.

(** ** History buckets and ranges of the YoY rows *)

Lemma and_cols_map {X : Type} (p : X -> bool) (M : list bool) (xs : list X) :
  and_cols M (map p xs) = map (fun bx => fst bx && p (snd bx)) (combine M xs).
Proof.
  unfold and_cols. revert xs. induction M as [|b M IH]; intros [|x xs];
    try reflexivity. cbn [map combine fst snd]. f_equal. apply IH.
Qed.

Lemma and_cols_length (M H : list bool) :
  length M = length H -> length (and_cols M H) = length M.
Proof.
  intros E. unfold and_cols. rewrite length_map, length_combine. lia.
Qed.

Lemma bucket_sums_add (g : Row -> bool) (base : list BaseRow) :
  Forall (fun r => 0 <= cum_interlock_direct_prev r) base ->
  forall (M : list bool) (arr : list Row),
    length M = length base -> length arr = length base ->
    msum (map (fun br => fst br && g (snd br))
              (combine (and_cols M (map (fun r => (cum_interlock_direct_prev r =? 0)) base))
                       arr))
    + msum (map (fun br => fst br && g (snd br))
                (combine (and_cols M (map (fun r => (0 <? cum_interlock_direct_prev r)) base))
                         arr))
    = msum (map (fun br => fst br && g (snd br)) (combine M arr)).
Proof.
  induction 1 as [|r base Hr _ IH]; intros M arr HM Harr.
  - destruct M; [|discriminate]. reflexivity.
  - destruct M as [|b M]; [discriminate|]. destruct arr as [|x arr]; [discriminate|].
    injection HM as HM. injection Harr as Harr. specialize (IH M arr HM Harr).
    unfold and_cols in *. cbn [map combine fst snd]. rewrite !msum_cons.
    destruct (Z.eqb_spec (cum_interlock_direct_prev r) 0) as [E|E];
      destruct (Z.ltb_spec 0 (cum_interlock_direct_prev r)) as [L|L]; try lia;
      destruct b, (g x); cbn [andb]; lia.
Qed.

Lemma bucket_totals_add (base : list BaseRow) :
  Forall (fun r => 0 <= cum_interlock_direct_prev r) base ->
  forall M : list bool,
    length M = length base ->
    msum (and_cols M (map (fun r => (cum_interlock_direct_prev r =? 0)) base))
    + msum (and_cols M (map (fun r => (0 <? cum_interlock_direct_prev r)) base))
    = msum M.
Proof.
  induction 1 as [|r base Hr _ IH]; intros M HM.
  - destruct M; [|discriminate]. reflexivity.
  - destruct M as [|b M]; [discriminate|]. injection HM as HM. specialize (IH M HM).
    unfold and_cols in *. cbn [map combine fst snd]. rewrite !msum_cons.
    destruct (Z.eqb_spec (cum_interlock_direct_prev r) 0) as [E|E];
      destruct (Z.ltb_spec 0 (cum_interlock_direct_prev r)) as [L|L]; try lia;
      destruct b; cbn [andb]; lia.
Qed.

(** X4: when no lag-1 cumulative direct count of the base table is negative,
    the two history buckets split a base mask aligned with the bundle: the
    totals of the "no_prior_direct" and "prior_direct" masks add up to the
    total of the mask, and so do the two counts of each of the 25 masks. *)
Theorem history_buckets_add_up (base_df : list BaseRow) (arr : list Row)
    (M : list bool) :
  length M = length base_df -> length arr = length base_df ->
  Forall (fun r => 0 <= cum_interlock_direct_prev r) base_df ->
  let M0 := and_cols M (hist_no_prior (base_arrays base_df)) in
  let M1 := and_cols M (hist_prior (base_arrays base_df)) in
  exists cs cs0 cs1,
    compute_bundle_counts arr M = Some cs
    /\ compute_bundle_counts arr M0 = Some cs0
    /\ compute_bundle_counts arr M1 = Some cs1
    /\ msum M0 + msum M1 = msum M
    /\ forall m, count_of cs0 m + count_of cs1 m = count_of cs m.
Proof.
  intros HM Harr Hpos M0 M1.
  assert (H0 : length M0 = length arr).
  { unfold M0. rewrite and_cols_length; cbn [hist_no_prior base_arrays];
      rewrite ?length_map; congruence. }
  assert (H1 : length M1 = length arr).
  { unfold M1. rewrite and_cols_length; cbn [hist_prior base_arrays];
      rewrite ?length_map; congruence. }
  eexists. eexists. eexists.
  split; [apply counts_aligned; congruence|].
  split; [apply (counts_aligned _ _ H0)|].
  split; [apply (counts_aligned _ _ H1)|].
  split; [apply (bucket_totals_add _ Hpos _ HM)|].
  intros m. rewrite !count_of_aligned.
  rewrite !(map_ext (fun br => mask_fn m (fst br) (snd br))
                    (fun br => fst br && mask_fn m true (snd br)))
    by (intros br; apply mask_fn_factor).
  apply (bucket_sums_add _ _ Hpos _ _ HM Harr).
Qed.

Lemma history_buckets_add_up_witness :
  let M0 := and_cols ex_yoy_mask (hist_no_prior (base_arrays ex_base)) in
  let M1 := and_cols ex_yoy_mask (hist_prior (base_arrays ex_base)) in
  exists cs cs0 cs1,
    compute_bundle_counts ex_rows ex_yoy_mask = Some cs
    /\ compute_bundle_counts ex_rows M0 = Some cs0
    /\ compute_bundle_counts ex_rows M1 = Some cs1
    /\ msum M0 + msum M1 = msum ex_yoy_mask
    /\ forall m, count_of cs0 m + count_of cs1 m = count_of cs m.
Proof.
  apply (history_buckets_add_up ex_base ex_rows ex_yoy_mask).
  - vm_compute. reflexivity.
  - vm_compute. reflexivity.
  - vm_compute. repeat constructor; discriminate.
Defined.

Lemma share_in_unit_interval (c tot : Z) :
  0 <= c <= tot -> 0 < tot -> (0 <= inject_Z c / inject_Z tot <= 1)%Q.
Proof.
  intros Hc Ht.
  destruct Hc as [Hc0 Hc1].
  rewrite Zlt_Qlt in Ht. rewrite Zle_Qle in Hc0, Hc1.
  change (inject_Z 0) with 0%Q in Ht, Hc0.
  pose proof Ht as Ht'.
  split.
  - apply Qle_shift_div_l; [exact Ht' | lra].
  - apply Qle_shift_div_r; [exact Ht' | lra].
Qed.

Lemma counts_shares_in_range (cs : list Z) (tot : Z) :
  Forall (fun c => 0 <= c <= tot) cs ->
  Forall (cell_in_range tot) (_counts_shares cs tot).
Proof.
  intros H. unfold _counts_shares. destruct (Z.leb_spec tot 0) as [Ht|Ht].
  - induction H as [|c cs Hc _ IH]; cbn [flat_map app]; [constructor|].
    repeat constructor; try exact IH; cbn; try lia; lra.
  - induction H as [|c cs Hc _ IH]; cbn [flat_map app]; [constructor|].
    constructor; [exact Hc|]. constructor; [|exact IH].
    apply (share_in_unit_interval _ _ Hc Ht).
Qed.

(** X5: in a YoY or YoY-by-history row built over a mask aligned with the
    bundle, every cell after the labels is in range: the total and the 25
    counts lie between 0 and the total, the total share and the 25 shares
    between 0 and 1. *)
Theorem yoy_row_cells_in_range (lead : list cell) (arr : Arr) (msk : list bool) :
  length msk = length (rows arr) ->
  exists row,
    yoy_row lead arr msk = Some row
    /\ length row = (length lead + 52)%nat
    /\ Forall (cell_in_range (msum msk)) (skipn (length lead) row).
Proof.
  intros Hlen. unfold yoy_row. rewrite (counts_aligned _ _ Hlen). cbn [bind].
  eexists. split; [reflexivity|].
  assert (Hcs : Forall (fun c => 0 <= c <= msum msk)
                  (map (fun m => msum (map (fun br => mask_fn m (fst br) (snd br))
                                           (combine msk (rows arr)))) mask_ids)).
  { apply Forall_map, Forall_forall. intros m _. split;
      [apply msum_nonneg | apply msum_combine_le; intros b r; apply mask_fn_base]. }
  split.
  - rewrite length_app. cbn [app length]. f_equal.
    unfold _counts_shares. destruct (msum msk <=? 0); reflexivity.
  - rewrite skipn_app, skipn_all, Nat.sub_diag. cbn [app skipn].
    pose proof (msum_nonneg msk) as Hn.
    constructor; [cbn; lia|]. constructor.
    + unfold total_share. destruct (msum msk =? 0); cbn; lra.
    + apply counts_shares_in_range, Hcs.
Qed.

Lemma yoy_row_cells_in_range_witness :
  exists row,
    yoy_row [CStr "X"] (mkArr ex_rows [] [] [] [] [] []) ex_yoy_mask = Some row
    /\ length row = (length [CStr "X"] + 52)%nat
    /\ Forall (cell_in_range (msum ex_yoy_mask)) (skipn (length [CStr "X"]) row).
Proof.
  apply (yoy_row_cells_in_range [CStr "X"] (mkArr ex_rows [] [] [] [] [] [])
                                ex_yoy_mask).
  vm_compute. reflexivity.
Defined.

(** ** The causal flags read on the raw series *)

Lemma Qgtb_irrefl (x : Q) : Qgtb x x = false.
Proof. apply Qgtb_le. lra. Qed.

Lemma find_above_accumulate (x : Q) (rest : list Q) :
  find_index (fun y => Qgtb y x) (accumulate_from x rest)
  = find_index (fun y => Qgtb y x) rest.
Proof.
  induction rest as [|y rest IH]; [reflexivity|].
  cbn [accumulate_from find_index]. destruct (Qgtb y x) eqn:E.
  - rewrite E. reflexivity.
  - rewrite Qgtb_irrefl, IH. reflexivity.
Qed.

Lemma first_above_first_running_max (v : list Q) :
  first_above_first (maximum_accumulate v) = first_above_first v.
Proof.
  destruct v as [|x rest]; [reflexivity|].
  cbn [maximum_accumulate first_above_first find_index].
  rewrite Qgtb_irrefl, find_above_accumulate. reflexivity.
Qed.

Lemma eligible_raw (o l : list f32) : eligible o l = raw_eligible o l.
Proof.
  unfold eligible, raw_eligible. rewrite !first_above_first_running_max.
  reflexivity.
Qed.

(** X6: the causal flags can be read on the zero-filled series as they are.
    For the pairs of a key column and four series aligned with it, the flag
    that the code computes for a row on either side (through the running
    maximum and the first positive difference between neighbours) is true
    exactly when both the origination and the launch series of the pair have a
    row strictly above their first row and the first such launch row is not
    before the first such origination row. *)
Theorem causal_flags_read_on_raw_series
    (keys : list (string * string)) (o1 l1 o2 l2 : list f32) :
  length o1 = length keys -> length l1 = length keys ->
  length o2 = length keys -> length l2 = length keys ->
  exists ok1 ok2,
    _compute_causal_flags_for_pairs
      (groups pair_eqb keys (seq 0 (length keys))) o1 l1 o2 l2 = Some (ok1, ok2)
    /\ forall i k, nth_error keys i = Some k ->
         nth i ok1 false
         = raw_eligible (group_series pair_eqb keys o1 k)
                        (group_series pair_eqb keys l1 k)
         /\ nth i ok2 false
            = raw_eligible (group_series pair_eqb keys o2 k)
                           (group_series pair_eqb keys l2 k).
Proof.
  intros Ho1 Hl1 Ho2 Hl2.
  destruct (causal_flags_per_pair pair_eqb pair_eqb_spec keys o1 l1 o2 l2
              Ho1 Hl1 Ho2 Hl2)
    as (ok1 & ok2 & Hrun & _ & _ & Hnth).
  exists ok1, ok2. split; [exact Hrun|].
  intros i k Hi. rewrite <- !eligible_raw. apply (Hnth i k Hi).
Qed.

Lemma causal_flags_read_on_raw_series_witness :
  exists ok1 ok2,
    _compute_causal_flags_for_pairs
      (groups pair_eqb ex_pair_keys (seq 0 (length ex_pair_keys)))
      ex_o1 ex_l1 ex_o2 ex_l2 = Some (ok1, ok2)
    /\ forall i k, nth_error ex_pair_keys i = Some k ->
         nth i ok1 false
         = raw_eligible (group_series pair_eqb ex_pair_keys ex_o1 k)
                        (group_series pair_eqb ex_pair_keys ex_l1 k)
         /\ nth i ok2 false
            = raw_eligible (group_series pair_eqb ex_pair_keys ex_o2 k)
                           (group_series pair_eqb ex_pair_keys ex_l2 k).
Proof.
  apply (causal_flags_read_on_raw_series ex_pair_keys ex_o1 ex_l1 ex_o2 ex_l2);
    reflexivity.
Defined.

Lemma flat_series_has_no_increment (v : list f32) :
  never_above_first v -> first_above_first (map (nan_to_num 0) v) = None.
Proof.
  intros H. destruct v as [|x v]; [reflexivity|].
  cbn [map first_above_first]. apply find_index_none.
  change (Forall (fun y => (y <= nan_to_num 0 x)%Q) (map (nan_to_num 0) (x :: v))).
  apply (proj2 (Forall_map (nan_to_num 0) (fun y => (y <= nan_to_num 0 x)%Q) (x :: v))).
  apply Forall_forall. intros y Hy. apply (H y Hy).
Qed.

(** X7: a side of a pair whose origination series, or whose launch series,
    never rises above the value of the pair's first row is not eligible: its
    flag is false on every row of the pair.  A pair observed on a single row
    is such a pair. *)
Theorem flat_series_never_eligible
    (keys : list (string * string)) (o1 l1 o2 l2 : list f32) :
  length o1 = length keys -> length l1 = length keys ->
  length o2 = length keys -> length l2 = length keys ->
  exists ok1 ok2,
    _compute_causal_flags_for_pairs
      (groups pair_eqb keys (seq 0 (length keys))) o1 l1 o2 l2 = Some (ok1, ok2)
    /\ forall i k, nth_error keys i = Some k ->
         (never_above_first (group_series pair_eqb keys o1 k)
          \/ never_above_first (group_series pair_eqb keys l1 k)
          \/ length (group_positions pair_eqb keys k) = 1%nat ->
          nth i ok1 false = false)
         /\ (never_above_first (group_series pair_eqb keys o2 k)
             \/ never_above_first (group_series pair_eqb keys l2 k)
             \/ length (group_positions pair_eqb keys k) = 1%nat ->
             nth i ok2 false = false).
Proof.
  intros Ho1 Hl1 Ho2 Hl2.
  destruct (causal_flags_per_pair pair_eqb pair_eqb_spec keys o1 l1 o2 l2
              Ho1 Hl1 Ho2 Hl2)
    as (ok1 & ok2 & Hrun & _ & _ & Hnth).
  exists ok1, ok2. split; [exact Hrun|].
  assert (Hsingle : forall col k,
             length (group_positions pair_eqb keys k) = 1%nat ->
             never_above_first (group_series pair_eqb keys col k)).
  { intros col k Hone. unfold group_series.
    destruct (group_positions pair_eqb keys k) as [|j [|j' g]]; try discriminate.
    intros x [<- | []]. cbn. lra. }
  assert (Hflat : forall o l,
             never_above_first o \/ never_above_first l -> eligible o l = false).
  { intros o l H. rewrite eligible_raw. unfold raw_eligible.
    destruct H as [H | H]; rewrite (flat_series_has_no_increment _ H);
      [reflexivity|].
    destruct (first_above_first (map (nan_to_num 0) o)); reflexivity. }
  intros i k Hi. destruct (Hnth i k Hi) as [Ha Hb].
  split; intros H; [rewrite Ha | rewrite Hb]; apply Hflat;
    destruct H as [H | [H | H]]; auto.
Qed.

Lemma flat_series_never_eligible_witness :
  exists ok1 ok2,
    _compute_causal_flags_for_pairs
      (groups pair_eqb ex_pair_keys (seq 0 (length ex_pair_keys)))
      ex_o1 ex_l1 ex_o2 ex_l2 = Some (ok1, ok2)
    /\ forall i k, nth_error ex_pair_keys i = Some k ->
         (never_above_first (group_series pair_eqb ex_pair_keys ex_o1 k)
          \/ never_above_first (group_series pair_eqb ex_pair_keys ex_l1 k)
          \/ length (group_positions pair_eqb ex_pair_keys k) = 1%nat ->
          nth i ok1 false = false)
         /\ (never_above_first (group_series pair_eqb ex_pair_keys ex_o2 k)
             \/ never_above_first (group_series pair_eqb ex_pair_keys ex_l2 k)
             \/ length (group_positions pair_eqb ex_pair_keys k) = 1%nat ->
             nth i ok2 false = false).
Proof.
  apply (flat_series_never_eligible ex_pair_keys ex_o1 ex_l1 ex_o2 ex_l2);
    reflexivity.
Defined.

(** ** The cache: LAST, leads and lags *)

Lemma last_valid_snoc (l : list f32) (x : f32) :
  last_valid (l ++ [x]) = if isnan x then last_valid l else x.
Proof. unfold last_valid. rewrite fold_left_app. reflexivity. Qed.

Lemma last_valid_spec (l : list f32) :
  (isnan (last_valid l) = true <-> Forall (fun x => isnan x = true) l)
  /\ (forall q, last_valid l = Some q ->
        exists pre post, l = (pre ++ Some q :: post)%list
                         /\ Forall (fun x => isnan x = true) post).
Proof.
  induction l as [|x l [IH1 IH2]] using rev_ind.
  - split; [split; [constructor | reflexivity] | discriminate].
  - rewrite last_valid_snoc. destruct x as [q0|]; cbn [isnan].
    + split.
      * split; [discriminate|]. intros H. apply Forall_app in H.
        destruct H as [_ H]. inversion H; subst. discriminate.
      * intros q E. injection E as ->. exists l, []. split; [reflexivity | constructor].
    + split.
      * rewrite IH1. split; intros H.
        -- apply Forall_app. split; [exact H | repeat constructor].
        -- apply Forall_app in H. tauto.
      * intros q E. destruct (IH2 q E) as (pre & post & -> & Hpost).
        exists pre, (post ++ [None])%list. split.
        -- rewrite <- app_assoc. reflexivity.
        -- apply Forall_app. split; [exact Hpost | repeat constructor].
Qed.

(** X8: each LAST column of the cache is constant on a pair; it is missing
    exactly when every current value of the pair is missing, and otherwise it
    is a current value of the pair after which the pair has only missing
    values (the last observed value, not the value of the last row). *)
Theorem last_is_last_observed_of_pair (tmp : list JoinedRow) (entity : Entity)
    (g : string) (last cur : Cache -> string -> list f32)
    (i : nat) (k : string * string) :
  In (last, cur) last_columns ->
  nth_error (map joined_pair tmp) i = Some k ->
  let cache := _build_shift_last_cache tmp entity in
  let pairs := map joined_pair tmp in
  let series := group_series pair_eqb pairs (cur cache g) k in
  let v := nth i (last cache g) NaN in
  (forall j, nth_error pairs j = Some k -> nth j (last cache g) NaN = v)
  /\ (isnan v = true <-> Forall (fun x => isnan x = true) series)
  /\ (forall q, v = Some q ->
        exists pre post, series = (pre ++ Some q :: post)%list
                         /\ Forall (fun x => isnan x = true) post).
Proof.
  intros Hin Hi cache pairs series v.
  assert (Hval : forall j, nth_error pairs j = Some k ->
                           nth j (last cache g) NaN = last_valid series).
  { intros j Hj. unfold last_columns in Hin. cbn [In] in Hin.
    destruct Hin as [E | [E | [E | [E | []]]]]; injection E as <- <-;
      cbn [cache _build_shift_last_cache c_LAST_o1 c_LAST_o2 c_LAST_l1 c_LAST_l2
           c_cur_o1 c_cur_o2 c_cur_l1 c_cur_l2] in *;
      unfold transform_last; apply nth_error_nth;
      rewrite nth_error_map; fold pairs; rewrite Hj; reflexivity. }
  assert (Hv : v = last_valid series) by (apply Hval; exact Hi).
  split; [intros j Hj; rewrite Hv; apply Hval; exact Hj|].
  rewrite Hv. apply last_valid_spec.
Qed.

Lemma last_is_last_observed_of_pair_witness :
  let cache := _build_shift_last_cache ex_tmp disease in
  let pairs := map joined_pair ex_tmp in
  let series := group_series pair_eqb pairs (c_cur_l1 cache "X") ("A", "C")%string in
  let v := nth 4 (c_LAST_l1 cache "X") NaN in
  (forall j, nth_error pairs j = Some ("A", "C")%string ->
             nth j (c_LAST_l1 cache "X") NaN = v)
  /\ (isnan v = true <-> Forall (fun x => isnan x = true) series)
  /\ (forall q, v = Some q ->
        exists pre post, series = (pre ++ Some q :: post)%list
                         /\ Forall (fun x => isnan x = true) post).
Proof.
  apply (last_is_last_observed_of_pair ex_tmp disease "X" c_LAST_l1 c_cur_l1 4
                                       ("A", "C")%string).
  - cbn. auto.
  - vm_compute. reflexivity.
Defined.

Section ShiftAnywhere.
Context {K : Type} (keq : K -> K -> bool).
Hypothesis keq_spec : forall a b, keq a b = true <-> a = b.
Local Open Scope nat_scope.

Lemma rank_of_position (g : list nat) :
  StronglySorted lt g ->
  forall p i, nth_error g p = Some i -> rank g i = p.
Proof.
  unfold rank. induction 1 as [|a g Hs IH Ha]; intros p i Hp.
  - destruct p; discriminate.
  - destruct p as [|p]; cbn [nth_error] in Hp.
    + injection Hp as ->. cbn [filter]. rewrite Nat.ltb_irrefl.
      rewrite filter_below_start; [reflexivity|].
      eapply Forall_impl; [|exact Ha]. cbn beta. lia.
    + cbn [filter].
      assert (Hai : a < i).
      { rewrite Forall_forall in Ha. apply Ha. apply (nth_error_In _ _ Hp). }
      apply Nat.ltb_lt in Hai. rewrite Hai. cbn [length]. f_equal.
      apply (IH p i Hp).
Qed.

(** A shift reads the row of the group that is [d] positions away. *)
Lemma shift_at_position (keys : list K) (col : list f32) (k : K)
    (p i : nat) (d : Z) :
  nth_error (group_positions keq keys k) p = Some i ->
  shift_at keq keys col d i
  = match nth_error (group_positions keq keys k) (Z.to_nat (Z.of_nat p - d)) with
    | Some j => if (0 <=? Z.of_nat p - d)%Z then nth j col NaN else NaN
    | None => NaN
    end.
Proof.
  intros Hp.
  assert (Hi : nth_error keys i = Some k).
  { apply (in_group_positions keq keq_spec). apply (nth_error_In _ _ Hp). }
  assert (Hsorted : StronglySorted lt (group_positions keq keys k)).
  { rewrite (group_positions_scan keq). apply (positions_from_sorted keq keq_spec). }
  unfold shift_at. rewrite Hi. cbv zeta.
  rewrite (rank_of_position _ Hsorted p i Hp).
  destruct (0 <=? Z.of_nat p - d)%Z eqn:E0; cbn [andb].
  - destruct (Z.of_nat p - d <? Z.of_nat (length (group_positions keq keys k)))%Z eqn:E1.
    + reflexivity.
    + apply Z.ltb_ge in E1.
      assert (Hnone : nth_error (group_positions keq keys k)
                                (Z.to_nat (Z.of_nat p - d)) = None).
      { apply nth_error_None. apply Z.leb_le in E0. lia. }
      rewrite Hnone. reflexivity.
  - destruct (nth_error _ (Z.to_nat (Z.of_nat p - d))); reflexivity.
Qed.
End ShiftAnywhere.

Lemma cache_shift_columns (side2 : bool) (tmp : list JoinedRow) (entity : Entity)
    (grp : string) (i : nat) :
  (i < length tmp)%nat ->
  let cache := _build_shift_last_cache tmp entity in
  let firms := firm_column side2 tmp in
  (forall d F, In (d, F) (lead_columns side2) ->
     nth i (F cache grp) NaN
     = shift_at String.eqb firms (cur_o side2 cache grp) (- Z.of_nat d) i)
  /\ nth i (lag_o side2 cache grp) NaN
     = shift_at String.eqb firms (cur_o side2 cache grp) 1 i
  /\ nth i (lag_l side2 cache grp) NaN
     = shift_at String.eqb firms (cur_l side2 cache grp) 1 i.
Proof.
  intros Hi cache firms.
  assert (Hlen : (i < length firms)%nat) by (unfold firms, firm_column; now rewrite length_map).
  destruct side2;
    cbn [lead_columns lead_columns_1 lead_columns_2 cur_o cur_l lag_o lag_l];
    (split; [intros d F HF; cbn [In] in HF;
             destruct HF as [E | [E | [E | []]]]; injection E as <- <-|split]);
    cbn [cache _build_shift_last_cache c_F1_o1 c_F2_o1 c_F3_o1 c_F1_o2 c_F2_o2 c_F3_o2
         c_L1_o1 c_L1_o2 c_L1_l1 c_L1_l2 c_cur_o1 c_cur_o2 c_cur_l1 c_cur_l2];
    unfold shift; apply (nth_map_seq _ _ _ _ Hlen).
Qed.

(** X9: inside the block of rows of one firm on one side (rows with the same
    BoardName1, or the same BoardName2, in table order), the lead [d] of a row
    is the current origination of the row [d] places further down the block
    and is missing on the last [d] rows of the block; lag 1 of origination and
    of launch is the current value of the row just above in the block and is
    missing on the first row of the block. *)
Theorem leads_and_lags_inside_firm_block (side2 : bool) (tmp : list JoinedRow)
    (entity : Entity) (grp : string) (k : string) (p i : nat) :
  let cache := _build_shift_last_cache tmp entity in
  let block := group_positions String.eqb (firm_column side2 tmp) k in
  nth_error block p = Some i ->
  (forall d F j, In (d, F) (lead_columns side2) ->
     nth_error block (p + d) = Some j ->
     nth i (F cache grp) NaN = nth j (cur_o side2 cache grp) NaN)
  /\ (forall d F, In (d, F) (lead_columns side2) ->
        (length block <= p + d)%nat -> nth i (F cache grp) NaN = NaN)
  /\ (forall j, nth_error block (S p) = Some j ->
        nth j (lag_o side2 cache grp) NaN = nth i (cur_o side2 cache grp) NaN
        /\ nth j (lag_l side2 cache grp) NaN = nth i (cur_l side2 cache grp) NaN)
  /\ (p = 0%nat ->
      nth i (lag_o side2 cache grp) NaN = NaN
      /\ nth i (lag_l side2 cache grp) NaN = NaN).
Proof.
  intros cache block Hp.
  assert (Hrow : forall q j, nth_error block q = Some j -> (j < length tmp)%nat).
  { intros q j Hq. apply nth_error_In in Hq.
    apply (in_group_positions String.eqb String.eqb_eq) in Hq.
    assert (j < length (firm_column side2 tmp))%nat by (apply nth_error_Some; congruence).
    unfold firm_column in H. now rewrite length_map in H. }
  destruct (cache_shift_columns side2 tmp entity grp i (Hrow p i Hp))
    as (Hlead & Hlo & Hll).
  fold cache in Hlead, Hlo, Hll.
  split; [|split; [|split]].
  - intros d F j HF Hj. rewrite (Hlead d F HF).
    rewrite (shift_at_position String.eqb String.eqb_eq _ _ k p i _ Hp).
    fold block.
    replace (Z.to_nat (Z.of_nat p - - Z.of_nat d)) with (p + d)%nat by lia.
    rewrite Hj.
    assert (E : (0 <=? Z.of_nat p - - Z.of_nat d) = true) by (apply Z.leb_le; lia).
    rewrite E. reflexivity.
  - intros d F HF Hlen. rewrite (Hlead d F HF).
    rewrite (shift_at_position String.eqb String.eqb_eq _ _ k p i _ Hp).
    fold block.
    replace (Z.to_nat (Z.of_nat p - - Z.of_nat d)) with (p + d)%nat by lia.
    assert (E : nth_error block (p + d) = None) by (apply nth_error_None; exact Hlen).
    rewrite E. reflexivity.
  - intros j Hj.
    destruct (cache_shift_columns side2 tmp entity grp j (Hrow (S p) j Hj))
      as (_ & Hjo & Hjl).
    fold cache in Hjo, Hjl. rewrite Hjo, Hjl.
    rewrite !(shift_at_position String.eqb String.eqb_eq _ _ k (S p) j _ Hj).
    fold block.
    replace (Z.to_nat (Z.of_nat (S p) - 1)) with p by lia.
    rewrite Hp.
    assert (E : (0 <=? Z.of_nat (S p) - 1) = true) by (apply Z.leb_le; lia).
    rewrite E. split; reflexivity.
  - intros ->. rewrite Hlo, Hll.
    rewrite !(shift_at_position String.eqb String.eqb_eq _ _ k 0%nat i _ Hp).
    fold block.
    change (Z.to_nat (Z.of_nat 0 - 1)) with 0%nat.
    change (0 <=? Z.of_nat 0 - 1) with false.
    rewrite Hp. split; reflexivity.
Qed.

Lemma leads_and_lags_inside_firm_block_witness :
  let cache := _build_shift_last_cache ex_tmp disease in
  let block := group_positions String.eqb (firm_column false ex_tmp) "A"%string in
  (forall d F j, In (d, F) (lead_columns false) ->
     nth_error block (3 + d) = Some j ->
     nth 3 (F cache "X"%string) NaN = nth j (cur_o false cache "X"%string) NaN)
  /\ (forall d F, In (d, F) (lead_columns false) ->
        (length block <= 3 + d)%nat -> nth 3 (F cache "X"%string) NaN = NaN)
  /\ (forall j, nth_error block (S 3) = Some j ->
        nth j (lag_o false cache "X"%string) NaN
        = nth 3 (cur_o false cache "X"%string) NaN
        /\ nth j (lag_l false cache "X"%string) NaN
           = nth 3 (cur_l false cache "X"%string) NaN)
  /\ (3%nat = 0%nat ->
      nth 3 (lag_o false cache "X"%string) NaN = NaN
      /\ nth 3 (lag_l false cache "X"%string) NaN = NaN).
Proof.
  apply (leads_and_lags_inside_firm_block false ex_tmp disease "X"%string
                                          "A"%string 3 3).
  vm_compute. reflexivity.
Defined.

(** ** Rows at the boundaries of a firm block *)

Lemma all_masks_need_lag_origination (m : mask_id) (b : bool) (r : Row) :
  mask_na_orig r = false -> mask_fn m b r = false.
Proof.
  intros H. destruct m; cbn [mask_fn];
    unfold a1, a2, a3, a4, a5, a6, a7, a8, a9, a10,
           b1, b2, b3, b4, b5, b6, b7, b8, b9, b10, b_second_base,
           rn1, rn2, rn3, rn4, rn5;
    rewrite H; destruct b; reflexivity.
Qed.

Lemma future_masks_need_lead3 (m : mask_id) (b : bool) (r : Row) :
  In m future_gated -> mask_na_future r = false -> mask_fn m b r = false.
Proof.
  intros Hm H. cbn in Hm.
  repeat (destruct Hm as [<- | Hm]; [|]); try contradiction; cbn [mask_fn];
    unfold a3, a4, a5, a8, a9, a10, b3, b4, b5, b8, b9, b10, rn3, rn4, rn5;
    rewrite H; destruct b, (mask_na_orig r), (mask_na_launch r); reflexivity.
Qed.

(** The rows that [prepare_arrays_fast] builds in a run over a sorted base
    table read the lag 1 and lead 3 columns of the cache. *)
Lemma prepared_rows_read_cache (base : list BaseRow) (valid : list string)
    (citeline : FirmTable) (entity : Entity) (batch : list string)
    (tmp : list JoinedRow) (base_masks : BaseMasks) (g : string) :
  sorted_by key3_leb (map base_key base) ->
  _attach_entity_batch base valid citeline entity batch = Some (Some tmp) ->
  let cache := _build_shift_last_cache tmp entity in
  exists arr,
    prepare_arrays_fast base_masks
      (groups pair_eqb (map joined_pair tmp) (map j_index tmp)) cache g = Some arr
    /\ length (rows arr) = length tmp
    /\ forall i r, nth_error (rows arr) i = Some r ->
         L1_o1 r = nth i (c_L1_o1 cache g) NaN
         /\ L1_o2 r = nth i (c_L1_o2 cache g) NaN
         /\ F3_o1 r = nth i (c_F3_o1 cache g) NaN
         /\ F3_o2 r = nth i (c_F3_o2 cache g) NaN.
Proof.
  intros Hsorted Htmp cache.
  rewrite (joined_labels_are_positions _ _ _ _ _ _ Hsorted Htmp).
  set (keys := map joined_pair tmp).
  assert (Hlen : length keys = length tmp) by apply length_map.
  rewrite <- Hlen.
  assert (Hcol : forall (col : Cache -> string -> list f32),
             In col [c_cur_o1; c_cur_l1; c_cur_o2; c_cur_l2] ->
             length (col cache g) = length keys).
  { intros col Hc. rewrite Hlen. cbn [In] in Hc.
    destruct Hc as [<- | [<- | [<- | [<- | []]]]];
      cbn [cache _build_shift_last_cache c_cur_o1 c_cur_l1 c_cur_o2 c_cur_l2];
      apply length_map. }
  destruct (causal_flags_per_pair pair_eqb pair_eqb_spec keys
              (c_cur_o1 cache g) (c_cur_l1 cache g)
              (c_cur_o2 cache g) (c_cur_l2 cache g))
    as (ok1 & ok2 & Hrun & _);
    try (apply Hcol; cbn; auto).
  unfold prepare_arrays_fast. rewrite Hrun. cbn [bind].
  eexists. split; [reflexivity|]. cbn [rows].
  rewrite (Hcol c_cur_o1) by (cbn; auto).
  split; [rewrite length_map, length_seq; reflexivity|].
  intros i r Hr. rewrite nth_error_map, nth_error_seq in Hr.
  destruct (i <? length keys)%nat; [|discriminate].
  cbn [option_map Nat.add] in Hr. injection Hr as <-.
  cbn [L1_o1 L1_o2 F3_o1 F3_o2]. repeat split.
Qed.

Lemma block_boundary_values (side2 : bool) (tmp : list JoinedRow)
    (entity : Entity) (grp : string) (k : string) (p i : nat) :
  let cache := _build_shift_last_cache tmp entity in
  let block := group_positions String.eqb (firm_column side2 tmp) k in
  nth_error block p = Some i ->
  (p = 0%nat -> nth i (lag_o side2 cache grp) NaN = NaN)
  /\ ((length block <= p + 3)%nat ->
      nth i ((if side2 then c_F3_o2 else c_F3_o1) cache grp) NaN = NaN).
Proof.
  intros cache block Hp.
  assert (Hi : (i < length tmp)%nat).
  { apply nth_error_In in Hp.
    apply (in_group_positions String.eqb String.eqb_eq) in Hp.
    assert (i < length (firm_column side2 tmp))%nat by (apply nth_error_Some; congruence).
    unfold firm_column in H. now rewrite length_map in H. }
  destruct (cache_shift_columns side2 tmp entity grp i Hi) as (Hlead & Hlo & _).
  fold cache in Hlead, Hlo. split.
  - intros ->. rewrite Hlo.
    rewrite (shift_at_position String.eqb String.eqb_eq _ _ k 0%nat i _ Hp).
    fold block.
    change (Z.to_nat (Z.of_nat 0 - 1)) with 0%nat.
    change (0 <=? Z.of_nat 0 - 1) with false.
    rewrite Hp. reflexivity.
  - intros Hlen.
    rewrite (Hlead 3%nat) by (destruct side2; cbn; auto).
    rewrite (shift_at_position String.eqb String.eqb_eq _ _ k p i _ Hp).
    fold block.
    replace (Z.to_nat (Z.of_nat p - - Z.of_nat 3)) with (p + 3)%nat by lia.
    assert (E : nth_error block (p + 3) = None) by (apply nth_error_None; exact Hlen).
    rewrite E. reflexivity.
Qed.

(** X10: in a run over a sorted base table, every one of the 25 masks carries
    the gate on lag-1 origination, so a row that is the first row of the block
    of its BoardName1 or of its BoardName2 is counted by no mask, whatever the
    base mask; and a row among the last three rows of such a block is counted
    by none of the masks that carry the gate on lead 3. *)
Theorem block_boundary_rows_are_not_counted (base : list BaseRow)
    (valid : list string) (citeline : FirmTable) (entity : Entity)
    (batch : list string) (tmp : list JoinedRow) (base_masks : BaseMasks)
    (g : string) (M : list bool) :
  sorted_by key3_leb (map base_key base) ->
  _attach_entity_batch base valid citeline entity batch = Some (Some tmp) ->
  length M = length tmp ->
  exists arr ms,
    prepare_arrays_fast base_masks
      (groups pair_eqb (map joined_pair tmp) (map j_index tmp))
      (_build_shift_last_cache tmp entity) g = Some arr
    /\ mats (rows arr) M = Some ms
    /\ (forall i m, first_of_firm_block tmp i -> mask_at ms m i = false)
    /\ (forall i m, in_last_three_of_firm_block tmp i -> In m future_gated ->
                    mask_at ms m i = false).
Proof.
  intros Hsorted Htmp HM.
  destruct (prepared_rows_read_cache base valid citeline entity batch tmp
              base_masks g Hsorted Htmp) as (arr & Harr & Hlen & Hrows).
  assert (HMarr : length M = length (rows arr)) by congruence.
  exists arr. eexists. split; [exact Harr|].
  split; [apply (mats_aligned _ _ HMarr)|].
  split.
  - intros i m (side2 & k & Hp). rewrite (mask_at_rows _ _ _ _ HMarr).
    destruct (nth_error M i) as [b|]; [|reflexivity].
    destruct (nth_error (rows arr) i) as [r|] eqn:Hr; [|reflexivity].
    apply all_masks_need_lag_origination.
    destruct (Hrows i r Hr) as (H1 & H2 & _).
    destruct (block_boundary_values side2 tmp entity g k 0 i Hp) as [Hnan _].
    specialize (Hnan eq_refl). unfold mask_na_orig.
    destruct side2; cbn [lag_o] in Hnan; [rewrite H2, Hnan | rewrite H1, Hnan];
      cbn [isnan negb andb]; [apply andb_false_r | reflexivity].
  - intros i m (side2 & k & p & Hp & Hlast) Hm.
    rewrite (mask_at_rows _ _ _ _ HMarr).
    destruct (nth_error M i) as [b|]; [|reflexivity].
    destruct (nth_error (rows arr) i) as [r|] eqn:Hr; [|reflexivity].
    apply (future_masks_need_lead3 _ _ _ Hm).
    destruct (Hrows i r Hr) as (_ & _ & H3 & H4).
    destruct (block_boundary_values side2 tmp entity g k p i Hp) as [_ Hnan].
    specialize (Hnan Hlast). unfold mask_na_future.
    destruct side2; [rewrite H4, Hnan | rewrite H3, Hnan];
      cbn [isnan negb andb]; [apply andb_false_r | reflexivity].
Qed.

Lemma block_boundary_rows_are_not_counted_witness :
  exists arr ms,
    prepare_arrays_fast ex_base_masks
      (groups pair_eqb (map joined_pair ex_tmp) (map j_index ex_tmp))
      (_build_shift_last_cache ex_tmp disease) "X" = Some arr
    /\ mats (rows arr) ex_yoy_mask = Some ms
    /\ (forall i m, first_of_firm_block ex_tmp i -> mask_at ms m i = false)
    /\ (forall i m, in_last_three_of_firm_block ex_tmp i -> In m future_gated ->
                    mask_at ms m i = false).
Proof.
  apply (block_boundary_rows_are_not_counted
           ex_base ex_valid ex_citeline disease ["X"%string] ex_tmp
           ex_base_masks "X"%string ex_yoy_mask).
  - apply (build_base_sorted ex_valid (f_columns ex_citeline) ex_interlock
                              [disease; therapeutic] ex_base
                              [(disease, ["X"%string]); (therapeutic, [])]).
    vm_compute. reflexivity.
  - vm_compute. reflexivity.
  - vm_compute. reflexivity.
Defined.

(** ** Batches of groups *)

Lemma ceil_div_step (B n : nat) :
  (0 < B)%nat -> (0 < n)%nat ->
  ((n + B - 1) / B = S ((n - B + B - 1) / B))%nat.
Proof.
  intros HB Hn. destruct (Nat.le_gt_cases B n) as [Hle | Hgt].
  - replace (n + B - 1)%nat with ((n - B + B - 1) + 1 * B)%nat by lia.
    rewrite Nat.div_add by lia. lia.
  - replace (n + B - 1)%nat with ((n - 1) + 1 * B)%nat by lia.
    rewrite Nat.div_add by lia.
    replace (n - B + B - 1)%nat with (B - 1)%nat by lia.
    rewrite !Nat.div_small by lia. reflexivity.
Qed.

Lemma slices_step (B : nat) (l : list string) :
  (0 < B)%nat -> l <> [] ->
  map (fun k => firstn B (skipn (k * B) l))
      (seq 0 ((length l + B - 1) / B))
  = firstn B l
    :: map (fun k => firstn B (skipn (k * B) (skipn B l)))
           (seq 0 ((length (skipn B l) + B - 1) / B)).
Proof.
  intros HB Hl.
  assert (Hn : (0 < length l)%nat) by (destruct l; [congruence | cbn; lia]).
  rewrite (ceil_div_step B (length l) HB Hn), length_skipn.
  cbn [seq map Nat.mul skipn]. f_equal.
  rewrite <- seq_shift, map_map. apply map_ext. intros k.
  rewrite skipn_skipn. do 2 f_equal. lia.
Qed.

Lemma slices_partition (B : nat) :
  (0 < B)%nat ->
  forall (n : nat) (l : list string), length l = n ->
    let bs := map (fun k => firstn B (skipn (k * B) l))
                  (seq 0 ((length l + B - 1) / B)) in
    concat bs = l /\ MoreProps.chunked B bs.
Proof.
  intros HB n. induction n as [n IH] using lt_wf_ind. intros l Hlen.
  destruct l as [|x l'] eqn:El.
  { cbn [length Nat.add]. rewrite Nat.div_small by lia.
    cbn. split; [reflexivity | exact I]. }
  rewrite <- El in *. assert (Hl : l <> []) by (rewrite El; discriminate).
  assert (Hn : (0 < length l)%nat) by (rewrite El; cbn; lia).
  cbv zeta. rewrite (slices_step B l HB Hl).
  assert (Hrest : (length (skipn B l) < n)%nat) by (rewrite length_skipn; lia).
  destruct (IH _ Hrest (skipn B l) eq_refl) as [Hcat Hch].
  cbv zeta in Hcat, Hch. split.
  - cbn [concat]. rewrite Hcat. apply firstn_skipn.
  - cbn [MoreProps.chunked].
    destruct (map _ (seq 0 ((length (skipn B l) + B - 1) / B))) as [|b rest] eqn:Er.
    + rewrite length_firstn. lia.
    + split; [|exact Hch].
      rewrite length_firstn.
      destruct (Nat.le_gt_cases B (length l)) as [Hle | Hgt]; [lia|].
      exfalso. rewrite length_skipn in Er.
      replace (length l - B)%nat with 0%nat in Er by lia.
      cbn [Nat.add] in Er. rewrite Nat.div_small in Er by lia.
      discriminate.
Qed.

(** X11: with a positive batch size, [run_entity] cuts the group list into
    consecutive batches that together are the group list itself, in order and
    without loss or repetition; every batch but the last has exactly [BATCH]
    groups and the last has between 1 and [BATCH], so no batch is empty. *)
Theorem batches_partition_groups (groups : list string) (BATCH : nat) :
  (0 < BATCH)%nat ->
  exists bs, batches groups BATCH = Some bs
             /\ concat bs = groups
             /\ chunked BATCH bs.
Proof.
  intros HB. unfold batches. destruct BATCH as [|b]; [lia|].
  eexists. split; [reflexivity|].
  exact (slices_partition (S b) HB (length groups) groups eq_refl).
Qed.

Lemma batches_partition_groups_witness :
  exists bs, batches ["g1"; "g2"; "g3"; "g4"; "g5"]%string 2 = Some bs
             /\ concat bs = ["g1"; "g2"; "g3"; "g4"; "g5"]%string
             /\ chunked 2 bs.
Proof.
  apply (batches_partition_groups ["g1"; "g2"; "g3"; "g4"; "g5"]%string 2). lia.
Defined.

(** ** Group discovery *)

Lemma strip_prefix_spec (p s r : string) :
  strip_prefix p s = Some r <-> s = (p ++ r)%string.
Proof.
  revert s. induction p as [|a p IH]; intros s; cbn [strip_prefix String.append].
  - split; [intros [= ->]; reflexivity | intros ->; reflexivity].
  - destruct s as [|b s].
    + split; discriminate.
    + destruct (Ascii.eqb_spec a b) as [-> | Hne].
      * rewrite IH. split; [intros ->; reflexivity | intros [= ->]; reflexivity].
      * split; [discriminate | intros [= E _]; congruence].
Qed.

Lemma chomp_clean (g : string) : has_newline g = false -> chomp g = g.
Proof.
  induction g as [|a g IH]; [reflexivity|]. cbn [has_newline].
  intros H. apply orb_false_iff in H. destruct H as [Ha Hg].
  cbn [chomp]. rewrite Ha. destruct g; [reflexivity|].
  now rewrite (IH Hg).
Qed.

Lemma chomp_trailing_newline (g : string) :
  chomp (g ++ String newline EmptyString) = g.
Proof.
  induction g as [|a g IH].
  - cbn. reflexivity.
  - cbn [String.append chomp].
    destruct (g ++ String newline EmptyString)%string eqn:E.
    + destruct g; discriminate.
    + now rewrite IH.
Qed.

Lemma chomp_spec (rest g : string) :
  has_newline g = false ->
  (chomp rest = g <-> rest = g \/ rest = (g ++ String newline EmptyString)%string).
Proof.
  intros Hg. split.
  - revert g Hg. induction rest as [|a rest IH]; intros g Hg H.
    + left. cbn in H. congruence.
    + cbn [chomp] in H. destruct rest as [|b rest'].
      * destruct (Ascii.eqb_spec a newline) as [-> | Hne].
        -- right. subst g. reflexivity.
        -- left. exact H.
      * destruct g as [|a' g']; [discriminate|].
        injection H as <- H. cbn [has_newline] in Hg.
        apply orb_false_iff in Hg. destruct Hg as [_ Hg'].
        destruct (IH g' Hg' H) as [-> | ->]; [left | right]; reflexivity.
  - intros [-> | ->]; [apply chomp_clean; exact Hg | apply chomp_trailing_newline].
Qed.

Lemma match_added_spec (ent : Entity) (c g : string) :
  match_added ent c = Some g <->
  g <> EmptyString /\ has_newline g = false
  /\ (c = col_added ent g
      \/ c = col_added ent (g ++ String newline EmptyString)).
Proof.
  assert (Hcol : forall x,
             col_added ent x
             = (("cum_" ++ entity_name ent ++ "_n_added_") ++ x)%string).
  { intros x. destruct ent; reflexivity. }
  rewrite !Hcol. unfold match_added.
  destruct (strip_prefix ("cum_" ++ entity_name ent ++ "_n_added_") c)
    as [rest|] eqn:E.
  - apply strip_prefix_spec in E. subst c.
    assert (Happ : forall p x y : string, (p ++ x = p ++ y)%string -> x = y).
    { induction p as [|a p IH]; intros x y H; [exact H|].
      injection H as H. now apply IH. }
    split.
    + intros H.
      assert (Hg : chomp rest = g /\ g <> EmptyString /\ has_newline g = false).
      { destruct (chomp rest) as [|a r'] eqn:Ec; [discriminate|].
        destruct (has_newline (String a r')) eqn:Hn; [discriminate|].
        injection H as <-. repeat split; [discriminate | exact Hn]. }
      destruct Hg as (Hc & Hne & Hn). split; [exact Hne|]. split; [exact Hn|].
      apply (chomp_spec rest g Hn) in Hc.
      destruct Hc as [-> | ->]; [left | right]; reflexivity.
    + intros (Hne & Hn & Hc).
      assert (Hc' : chomp rest = g).
      { apply (chomp_spec rest g Hn).
        destruct Hc as [Hc | Hc]; apply Happ in Hc; [left | right]; exact Hc. }
      rewrite Hc'. destruct g; [congruence|]. rewrite Hn. reflexivity.
  - split; [discriminate|]. intros (_ & _ & [Hc | Hc]); exfalso;
      apply strip_prefix_spec in Hc; congruence.
Qed.

(** X12: the groups detected for an entity are exactly the non-empty,
    newline-free suffixes [g] for which the header has the column
    [cum_<entity>_n_added_<g>], or that column name followed by one final
    newline; a launch column alone, or an added column of the other entity,
    gives no group. *)
Theorem detect_groups_characterised (columns : list string) (ent : Entity)
    (g : string) :
  In g (detect_groups columns ent) <->
  g <> EmptyString /\ has_newline g = false
  /\ (In (col_added ent g) columns
      \/ In (col_added ent (g ++ String newline EmptyString)) columns).
Proof.
  unfold detect_groups. rewrite in_flat_map. split.
  - intros (c & Hc & Hg).
    destruct (match_added ent c) as [g'|] eqn:E; [|contradiction].
    destruct Hg as [<- | []].
    apply match_added_spec in E. destruct E as (Hne & Hn & [-> | ->]); tauto.
  - intros (Hne & Hn & [Hc | Hc]).
    + exists (col_added ent g). split; [exact Hc|].
      rewrite (proj2 (match_added_spec ent _ g)) by tauto. now left.
    + exists (col_added ent (g ++ String newline EmptyString)). split; [exact Hc|].
      rewrite (proj2 (match_added_spec ent _ g)) by tauto. now left.
Qed.

(** ** The joined table of a batch *)

Lemma filter_unique_firm_year (firm : list FirmRow) (name : string) (y : Z) :
  NoDup (map firm_year firm) ->
  filter (fun fr => String.eqb (f_BoardName fr) name && (f_year fr =? y)%Z) firm
  = match lookup_firm firm name y with
    | Some fr => [fr]
    | None => []
    end.
Proof.
  unfold lookup_firm. induction firm as [|fr rest IH]; intros Hnd; [reflexivity|].
  cbn [map] in Hnd. inversion Hnd as [|? ? Hnotin Hrest]; subst.
  cbn [filter find].
  destruct (String.eqb (f_BoardName fr) name && (f_year fr =? y)%Z) eqn:E.
  - f_equal. apply andb_true_iff in E. destruct E as [En Ey].
    apply String.eqb_eq in En. apply Z.eqb_eq in Ey.
    destruct (filter _ rest) as [|x xs] eqn:Ef; [reflexivity|].
    exfalso. apply Hnotin.
    assert (Hx : In x (filter (fun fr0 => String.eqb (f_BoardName fr0) name
                                           && (f_year fr0 =? y)%Z) rest))
      by (rewrite Ef; now left).
    apply filter_In in Hx. destruct Hx as [Hin Hx].
    apply andb_true_iff in Hx. destruct Hx as [Hxn Hxy].
    apply String.eqb_eq in Hxn. apply Z.eqb_eq in Hxy.
    apply in_map_iff. exists x. split; [|exact Hin].
    unfold firm_year. congruence.
  - apply IH, Hrest.
Qed.

Lemma merge_left_unique {L : Type} (left : list L) (name : L -> string)
    (yr : L -> Z) (firm : list FirmRow) :
  NoDup (map firm_year firm) ->
  merge_left left name yr firm
  = map (fun l => (l, lookup_firm firm (name l) (yr l))) left.
Proof.
  intros Hnd. unfold merge_left.
  rewrite (flat_map_ext _ (fun l => [(l, lookup_firm firm (name l) (yr l))])).
  - induction left as [|l rest IH]; [reflexivity|].
    cbn [flat_map map app]. now rewrite IH.
  - intros l. rewrite (filter_unique_firm_year firm _ _ Hnd).
    destruct (lookup_firm firm (name l) (yr l)); reflexivity.
Qed.

Lemma combine_map_r {A B C : Type} (f : B -> C) (l : list A) (l' : list B) :
  combine l (map f l') = map (fun p => (fst p, f (snd p))) (combine l l').
Proof.
  revert l'. induction l as [|a l IH]; intros [|b l']; cbn [combine map];
    try reflexivity. f_equal. apply IH.
Qed.

Lemma map_snd_combine_seq {A : Type} (l : list A) (s : nat) :
  map snd (combine (seq s (length l)) l) = l.
Proof.
  revert s. induction l as [|a l IH]; intros s; [reflexivity|].
  cbn [length seq combine map snd]. f_equal. apply IH.
Qed.

(** X13: when the base table is sorted and the whitelisted firm-year table has
    at most one row per firm and year, the joined table of a batch has exactly
    one row per base row, in the order of the base table, labelled by its
    position and carrying on each side the firm-year of that firm in that
    year (nothing when there is none); so the YoY masks that [run_entity]
    takes from the base table line up with the rows of the batch. *)
Theorem joined_rows_are_base_rows (base : list BaseRow) (valid : list string)
    (citeline : FirmTable) (entity : Entity) (batch : list string)
    (tmp : list JoinedRow) :
  sorted_by key3_leb (map base_key base) ->
  NoDup (map firm_year (whitelisted_firm valid citeline)) ->
  _attach_entity_batch base valid citeline entity batch = Some (Some tmp) ->
  tmp = map (joined_of (whitelisted_firm valid citeline))
            (combine (seq 0 (length base)) base)
  /\ map j_base tmp = base
  /\ length tmp = length base.
Proof.
  intros Hsorted Hnd. unfold _attach_entity_batch.
  destruct batch as [|g batch]; [discriminate|].
  destruct (negb _); [discriminate|].
  fold (whitelisted_firm valid citeline).
  set (firm := whitelisted_firm valid citeline) in *.
  rewrite !(merge_left_unique _ _ _ firm Hnd), map_map, length_map.
  rewrite combine_map_r, map_map. cbn [fst snd].
  fold (joined_of firm).
  set (pre := map _ (combine (seq 0 (length base)) base)).
  assert (Hbase : map j_base pre = base).
  { unfold pre. rewrite map_map. cbn [j_base joined_of].
    apply map_snd_combine_seq. }
  assert (Hpre : sorted_by (fun a b => key3_leb (joined_key a) (joined_key b)) pre).
  { apply (proj2 (sorted_by_map joined_key key3_leb pre)).
    replace (map joined_key pre) with (map base_key (map j_base pre))
      by (rewrite map_map; reflexivity).
    rewrite Hbase. exact Hsorted. }
  rewrite (stable_sort_sorted_id _ _ Hpre). intros H.
  assert (E : tmp = pre) by (injection H as <-; reflexivity).
  subst tmp. split; [reflexivity|]. split; [exact Hbase|].
  transitivity (length (map j_base pre)); [now rewrite length_map | now rewrite Hbase].
Qed.

Lemma joined_rows_are_base_rows_witness :
  ex_tmp = map (joined_of (whitelisted_firm ex_valid ex_citeline))
               (combine (seq 0 (length ex_base)) ex_base)
  /\ map j_base ex_tmp = ex_base
  /\ length ex_tmp = length ex_base.
Proof.
  apply (joined_rows_are_base_rows ex_base ex_valid ex_citeline disease
                                   ["X"%string] ex_tmp).
  - apply (build_base_sorted ex_valid (f_columns ex_citeline) ex_interlock
                              [disease; therapeutic] ex_base
                              [(disease, ["X"%string]); (therapeutic, [])]).
    vm_compute. reflexivity.
  - cbn. repeat constructor; cbn; intuition discriminate.
  - vm_compute. reflexivity.
Defined.

(** ** The files of one entity *)

Lemma counts_shares_length (cs : list Z) (tot : Z) :
  length (_counts_shares cs tot) = (2 * length cs)%nat.
Proof.
  unfold _counts_shares. destruct (tot <=? 0);
    induction cs as [|c cs IH]; cbn [flat_map app length] in *; lia.
Qed.

Lemma master_shaped_length (base_df : list BaseRow) (row : list cell) :
  master_shaped base_df row -> length row = 157%nat.
Proof.
  intros (g & c1 & c2 & c3 & H1 & H2 & H3 & ->).
  repeat (rewrite length_app; cbn [length]).
  rewrite !counts_shares_length, H1, H2, H3. reflexivity.
Qed.

Lemma yoy_shaped_length (n : nat) (row : list cell) :
  yoy_shaped n row -> length row = (n + 52)%nat.
Proof.
  intros (lead & tot & cs & Hl & _ & Hc & ->).
  repeat (rewrite length_app; cbn [length]).
  rewrite counts_shares_length, Hl, Hc. lia.
Qed.

Lemma DataFrame_ok (rows : list (list cell)) (cols : list string)
    (fs : list File) :
  Forall (fun r => length r = length cols) rows ->
  DataFrame rows cols fs = (fs, Some rows).
Proof.
  intros H. unfold DataFrame.
  assert (E : forallb (fun r => (length r =? length cols)%nat) rows = true).
  { apply forallb_forall. rewrite Forall_forall in H. intros r Hr.
    apply Nat.eqb_eq, H, Hr. }
  rewrite E. reflexivity.
Qed.

Lemma index_of_lt (c : string) (header : list string) (i : nat) :
  index_of c header = Some i -> (i < length header)%nat.
Proof.
  revert i. induction header as [|h rest IH]; intros i; cbn [index_of length].
  - discriminate.
  - destruct (String.eqb h c); [intros [= <-]; lia|].
    destruct (index_of c rest) as [j|]; [|discriminate].
    intros [= <-]. specialize (IH j eq_refl). lia.
Qed.

Lemma select_ok (header cols : list string) (row : list cell) :
  has_cols header cols = true -> length row = length header ->
  exists xs, select header cols row = Some xs /\ length xs = length cols.
Proof.
  intros Hc Hlen. induction cols as [|c cols IH]; cbn [select].
  - exists []. split; reflexivity.
  - cbn [has_cols forallb] in Hc. apply andb_true_iff in Hc.
    destruct Hc as [Hc Hrest]. destruct (IH Hrest) as (xs & -> & Hxs).
    unfold field. destruct (index_of c header) as [i|] eqn:Ei; [|discriminate].
    apply index_of_lt in Ei. rewrite <- Hlen in Ei.
    destruct (nth_error row i) as [x|] eqn:Ex;
      [|apply nth_error_None in Ex; lia].
    exists (x :: xs). split; [reflexivity | cbn [length]; now rewrite Hxs].
Qed.

Lemma select_all_ok (header cols : list string) (rows : list (list cell)) :
  has_cols header cols = true ->
  Forall (fun r => length r = length header) rows ->
  exists out, select_all header cols rows = Some out
              /\ length out = length rows
              /\ Forall (fun r => length r = length cols) out.
Proof.
  intros Hc. induction 1 as [|r rows Hr _ IH]; cbn [select_all].
  - exists []. repeat split. constructor.
  - destruct IH as (out & -> & Hlen & Hall).
    destruct (select_ok header cols r Hc Hr) as (x & -> & Hx).
    exists (x :: out). repeat split; [cbn [length]; now rewrite Hlen|].
    constructor; assumption.
Qed.

(** On rows of the width of the master header, [emit_master] raises nowhere
    and writes its four files. *)
Lemma emit_master_writes (entity : Entity) (rows : list (list cell))
    (fs : list File) :
  Forall (fun r => length r = 157%nat) rows ->
  exists new,
    emit_master entity rows fs = (fs ++ new, Some tt)
    /\ map file_name new = master_file_names entity
    /\ Forall rectangular new
    /\ Forall (keyed entity) new
    /\ map row_count new = repeat (length rows) 4.
Proof.
  intros Hrows.
  assert (Hhead : Forall (fun r => length r
                                   = length (rename_key entity master_cols)) rows).
  { unfold rename_key. rewrite length_map. exact Hrows. }
  assert (Hsel : forall cols,
             has_cols (rename_key entity master_cols) cols = true ->
             exists out,
               select_all (rename_key entity master_cols) cols rows = Some out
               /\ length out = length rows
               /\ Forall (fun r => length r = length cols) out).
  { intros cols Hc. apply (select_all_ok _ _ _ Hc Hhead). }
  unfold emit_master.
  cbv beta iota zeta delta [seq_io to_csv].
  rewrite (DataFrame_ok rows master_cols fs Hrows).
  cbv beta iota.
  cbv beta iota delta [lift ret].
  match goal with
  | |- context [select_all _ ?c rows] =>
      destruct (Hsel c) as (ab & -> & Hab & Hab');
        [destruct entity; vm_compute; reflexivity|]
  end.
  cbv beta iota.
  match goal with
  | |- context [select_all _ ?c rows] =>
      destruct (Hsel c) as (ef & -> & Hef & Hef');
        [destruct entity; vm_compute; reflexivity|]
  end.
  cbv beta iota.
  match goal with
  | |- context [select_all _ ?c rows] =>
      destruct (Hsel c) as (cd & -> & Hcd & Hcd');
        [destruct entity; vm_compute; reflexivity|]
  end.
  cbv beta iota.
  eexists. split; [rewrite <- !app_assoc; reflexivity|].
  cbn [app map file_name row_count file_rows].
  split; [reflexivity|].
  split; [|split].
  - repeat constructor; unfold rectangular; cbn [file_header file_rows];
      first [exact Hhead
            | eapply Forall_impl; [|eassumption]; intros r Hr; rewrite Hr;
              reflexivity].
  - repeat constructor; unfold keyed; destruct entity; reflexivity.
  - unfold row_count. cbn [file_rows]. rewrite Hab, Hef, Hcd. reflexivity.
Qed.

(** On rows of the width of their headers, [emit_yoy] raises nowhere and
    writes its five files. *)
Lemma emit_yoy_writes (entity : Entity) (ri rih rd rdh rn : list (list cell))
    (fs : list File) :
  Forall (fun r => length r = 53%nat) ri ->
  Forall (fun r => length r = 54%nat) rih ->
  Forall (fun r => length r = 53%nat) rd ->
  Forall (fun r => length r = 54%nat) rdh ->
  Forall (fun r => length r = 53%nat) rn ->
  exists new,
    emit_yoy entity ri rih rd rdh rn fs = (fs ++ new, Some tt)
    /\ map file_name new = yoy_file_names entity
    /\ Forall rectangular new
    /\ Forall (keyed entity) new
    /\ map row_count new = [length ri; length rih; length rd; length rdh; length rn].
Proof.
  intros Hi Hih Hd Hdh Hn. unfold emit_yoy.
  cbv beta iota zeta delta [seq_io to_csv].
  rewrite (DataFrame_ok ri _ fs) by exact Hi. cbv beta iota.
  rewrite (DataFrame_ok rih _ _) by exact Hih. cbv beta iota.
  rewrite (DataFrame_ok rd _ _) by exact Hd. cbv beta iota.
  rewrite (DataFrame_ok rdh _ _) by exact Hdh. cbv beta iota.
  rewrite (DataFrame_ok rn _ _) by exact Hn. cbv beta iota.
  eexists. split; [rewrite <- !app_assoc; reflexivity|].
  cbn [app map file_name row_count file_rows].
  split; [reflexivity|].
  split; [|split; [|reflexivity]].
  - repeat constructor; unfold rectangular, rename_key;
      cbn [file_header file_rows]; rewrite length_map; assumption.
  - repeat constructor; unfold keyed; destruct entity; reflexivity.
Qed.

Lemma run_entity_unfold (base_df : list BaseRow) (valid : list string)
    (citeline : FirmTable) (entity : Entity) (groups : list string)
    (BATCH : nat) (fs : list File) :
  groups <> [] ->
  run_entity base_df valid citeline entity groups BATCH fs
  = match computed_rows base_df valid citeline entity groups BATCH with
    | None => (fs, None)
    | Some out =>
        (emit_master entity (master_rows out) ;;;
         emit_yoy entity (indirect_rows out) (indirect_hist_rows out)
                  (direct_rows out) (direct_hist_rows out) (never_rows out)) fs
    end.
Proof.
  intros Hg. unfold computed_rows, run_entity.
  destruct groups as [|g0 gs]; [congruence|].
  unfold seq_io at 1.
  destruct (batches (g0 :: gs) BATCH) as [bs|]; cbn [bind lift];
    [|reflexivity].
  cbv beta iota delta [ret]. unfold seq_io at 1.
  destruct (batch_loop base_df valid citeline entity (base_arrays base_df)
                       no_rows bs) as [out|]; reflexivity.
Qed.

Lemma computed_rows_widths (base_df : list BaseRow) (valid : list string)
    (citeline : FirmTable) (entity : Entity) (groups : list string)
    (BATCH : nat) (out : Rows) :
  computed_rows base_df valid citeline entity groups BATCH = Some out ->
  Forall (fun r => length r = 157%nat) (master_rows out)
  /\ Forall (fun r => length r = 53%nat) (indirect_rows out)
  /\ Forall (fun r => length r = 54%nat) (indirect_hist_rows out)
  /\ Forall (fun r => length r = 53%nat) (direct_rows out)
  /\ Forall (fun r => length r = 54%nat) (direct_hist_rows out)
  /\ Forall (fun r => length r = 53%nat) (never_rows out).
Proof.
  unfold computed_rows. intros H. bind_inv H.
  destruct (batch_loop_shaped _ _ _ _ _ _ _ H (no_rows_shaped base_df))
    as (Hm & Hi & Hih & Hd & Hdh & Hn).
  assert (Hw : forall n rows, Forall (yoy_shaped n) rows ->
                              Forall (fun r => length r = (n + 52)%nat) rows).
  { intros n rows H0. eapply Forall_impl; [|exact H0].
    intros r. apply yoy_shaped_length. }
  repeat split;
    first [ apply (Hw 1%nat); assumption | apply (Hw 2%nat); assumption | idtac ].
  eapply Forall_impl; [|exact Hm]. intros r. apply master_shaped_length.
Qed.

(** The run of one entity either raises before any file is written or adds
    the files of the entity. *)
Lemma run_entity_outcome (base_df : list BaseRow) (valid : list string)
    (citeline : FirmTable) (entity : Entity) (groups : list string)
    (BATCH : nat) (fs : list File) :
  groups <> [] ->
  match computed_rows base_df valid citeline entity groups BATCH with
  | None => run_entity base_df valid citeline entity groups BATCH fs = (fs, None)
  | Some out =>
      exists new,
        run_entity base_df valid citeline entity groups BATCH fs
        = ((fs ++ new)%list, Some tt)
        /\ map file_name new = entity_file_names entity
  end.
Proof.
  intros Hg. rewrite (run_entity_unfold _ _ _ _ _ _ fs Hg).
  destruct (computed_rows base_df valid citeline entity groups BATCH)
    as [out|] eqn:Ec; [|reflexivity].
  destruct (computed_rows_widths _ _ _ _ _ _ _ Ec)
    as (Hm & Hi & Hih & Hd & Hdh & Hn).
  unfold seq_io.
  destruct (emit_master_writes entity (master_rows out) fs Hm)
    as (new1 & -> & Hn1 & _).
  destruct (emit_yoy_writes entity _ _ _ _ _ (fs ++ new1) Hi Hih Hd Hdh Hn)
    as (new2 & -> & Hn2 & _).
  exists (new1 ++ new2)%list. split; [now rewrite app_assoc|].
  unfold entity_file_names. now rewrite map_app, Hn1, Hn2.
Qed.

(** X14: a run of one entity with a non-empty group list is all or nothing.
    When the batches or the loop over them raise, no file is written; otherwise
    the run does not raise and adds exactly nine files, with the nine names of
    the entity in a fixed order; in each of them every row has one cell per
    header column and the first column is the key column of the entity; the
    master file and its three legacy files have one row per master row, and
    the five YoY files one row per row computed for them. *)
Theorem run_entity_all_or_nothing (base_df : list BaseRow) (valid : list string)
    (citeline : FirmTable) (entity : Entity) (groups : list string)
    (BATCH : nat) (fs : list File) :
  groups <> [] ->
  match computed_rows base_df valid citeline entity groups BATCH with
  | None => run_entity base_df valid citeline entity groups BATCH fs = (fs, None)
  | Some out =>
      exists new,
        run_entity base_df valid citeline entity groups BATCH fs
        = ((fs ++ new)%list, Some tt)
        /\ map file_name new = entity_file_names entity
        /\ Forall rectangular new
        /\ Forall (keyed entity) new
        /\ map row_count new = expected_row_counts out
  end.
Proof.
  intros Hg. rewrite (run_entity_unfold _ _ _ _ _ _ fs Hg).
  destruct (computed_rows base_df valid citeline entity groups BATCH)
    as [out|] eqn:Ec; [|reflexivity].
  destruct (computed_rows_widths _ _ _ _ _ _ _ Ec)
    as (Hm & Hi & Hih & Hd & Hdh & Hn).
  unfold seq_io.
  destruct (emit_master_writes entity (master_rows out) fs Hm)
    as (new1 & -> & Hn1 & Hr1 & Hk1 & Hc1).
  destruct (emit_yoy_writes entity _ _ _ _ _ (fs ++ new1) Hi Hih Hd Hdh Hn)
    as (new2 & -> & Hn2 & Hr2 & Hk2 & Hc2).
  exists (new1 ++ new2)%list. split; [now rewrite app_assoc|].
  unfold entity_file_names, expected_row_counts.
  rewrite !map_app, Hn1, Hn2, Hc1, Hc2.
  repeat split; apply Forall_app; split; assumption.
Qed.

Lemma run_entity_all_or_nothing_witness :
  match computed_rows ex_base ex_valid ex_citeline disease ["X"%string] 20 with
  | None => run_entity ex_base ex_valid ex_citeline disease ["X"%string] 20 []
            = ([], None)
  | Some out =>
      exists new,
        run_entity ex_base ex_valid ex_citeline disease ["X"%string] 20 []
        = (([] ++ new)%list, Some tt)
        /\ map file_name new = entity_file_names disease
        /\ Forall rectangular new
        /\ Forall (keyed disease) new
        /\ map row_count new = expected_row_counts out
  end.
Proof.
  apply (run_entity_all_or_nothing ex_base ex_valid ex_citeline disease
                                   ["X"%string] 20 []).
  discriminate.
Defined.

(** ** One row per group *)

Lemma append_rows_assoc (a b c : Rows) :
  append_rows (append_rows a b) c = append_rows a (append_rows b c).
Proof. unfold append_rows. cbn. now rewrite <- !app_assoc. Qed.

Lemma append_rows_nil (a : Rows) : append_rows a (labels_for []) = a.
Proof. destruct a. unfold append_rows. cbn. now rewrite !app_nil_r. Qed.

Lemma labels_for_app (gs gs' : list string) :
  labels_for (gs ++ gs') = append_rows (labels_for gs) (labels_for gs').
Proof.
  unfold labels_for, append_rows, group_labels, hist_labels. cbn.
  now rewrite map_app, flat_map_app.
Qed.

Lemma yoy_row_lead (lead : list cell) (arr : Arr) (msk : list bool)
    (row : list cell) :
  yoy_row lead arr msk = Some row -> firstn (length lead) row = lead.
Proof.
  unfold yoy_row. intros H. bind_inv H. injection H as <-.
  rewrite firstn_app, Nat.sub_diag, firstn_all. cbn [firstn]. apply app_nil_r.
Qed.

Lemma group_step_labels ba base_masks pair_indices cache (acc acc' : Rows)
    (g : string) :
  group_step ba base_masks pair_indices cache acc g = Some acc' ->
  row_labels acc' = append_rows (row_labels acc) (labels_for [g]).
Proof.
  unfold group_step. intros H. repeat bind_inv H. injection H as <-.
  repeat match goal with
         | E : yoy_row _ _ _ = Some _ |- _ => apply yoy_row_lead in E
         end.
  cbn [length] in *.
  unfold row_labels, append_rows, labels_for, group_labels, hist_labels.
  cbn [master_rows indirect_rows indirect_hist_rows direct_rows
       direct_hist_rows never_rows map flat_map app].
  rewrite !map_app. cbn [map app].
  repeat match goal with
         | E : firstn _ _ = _ |- _ => rewrite E; clear E
         end.
  reflexivity.
Qed.

Lemma group_loop_labels ba base_masks pair_indices cache (batch : list string) :
  forall acc acc',
    group_loop ba base_masks pair_indices cache acc batch = Some acc' ->
    row_labels acc' = append_rows (row_labels acc) (labels_for batch).
Proof.
  induction batch as [|g rest IH]; intros acc acc' H; cbn [group_loop] in H.
  - injection H as <-. symmetry. apply append_rows_nil.
  - bind_inv H. rewrite (IH _ _ H), (group_step_labels _ _ _ _ _ _ _ E).
    rewrite append_rows_assoc. reflexivity.
Qed.

Lemma insert_length {A : Type} (leb : A -> A -> bool) (x : A) (l : list A) :
  length (insert leb x l) = S (length l).
Proof.
  induction l as [|y l IH]; cbn [insert length]; [reflexivity|].
  destruct (leb x y); cbn [length]; [reflexivity | now rewrite IH].
Qed.

Lemma stable_sort_length {A : Type} (leb : A -> A -> bool) (l : list A) :
  length (stable_sort leb l) = length l.
Proof.
  induction l as [|x l IH]; cbn [stable_sort length]; [reflexivity|].
  now rewrite insert_length, IH.
Qed.

Lemma merge_left_length {L : Type} (left : list L) (name : L -> string)
    (yr : L -> Z) (firm : list FirmRow) :
  (length left <= length (merge_left left name yr firm))%nat.
Proof.
  unfold merge_left. induction left as [|l rest IH]; [apply Nat.le_refl|].
  cbn [flat_map]. rewrite length_app. cbn [length].
  set (n := length (flat_map _ rest)) in *. clearbody n.
  destruct (filter _ firm) as [|fr ms]; cbn [length map]; lia.
Qed.

(** The joined table of a batch has at least one row per base row, and none
    when the base table has none. *)
Lemma attached_rows (base : list BaseRow) (valid : list string)
    (citeline : FirmTable) (entity : Entity) (batch : list string)
    (tmp : list JoinedRow) :
  _attach_entity_batch base valid citeline entity batch = Some (Some tmp) ->
  (length base <= length tmp)%nat /\ (base = [] -> tmp = []).
Proof.
  unfold _attach_entity_batch. destruct batch as [|g batch]; [discriminate|].
  destruct (negb _); [discriminate|].
  set (firm := filter _ (f_rows citeline)).
  set (m1 := merge_left base BoardName1 year firm).
  set (m2 := merge_left m1 _ _ firm).
  intros H.
  assert (E : tmp = stable_sort
                      (fun a b => key3_leb (joined_key a) (joined_key b))
                      (map (fun ip => {| j_index := fst ip;
                                         j_base := fst (fst (snd ip));
                                         j_side1 := snd (fst (snd ip));
                                         j_side2 := snd (snd ip) |})
                           (combine (seq 0 (length m2)) m2)))
    by (injection H as <-; reflexivity).
  clear H. split.
  - rewrite E, stable_sort_length, length_map, length_combine, length_seq,
      Nat.min_id.
    pose proof (merge_left_length base BoardName1 year firm).
    pose proof (merge_left_length m1 (fun p => BoardName2 (fst p))
                                  (fun p => year (fst p)) firm).
    fold m1 in H. fold m2 in H0. lia.
  - intros ->. subst tmp. reflexivity.
Qed.

Lemma batch_step_labels (base_df : list BaseRow) valid citeline entity ba
    (acc acc' : Rows) (batch : list string) :
  batch_step base_df valid citeline entity ba acc batch = Some acc' ->
  match base_df with
  | [] => acc' = acc
  | _ => row_labels acc' = append_rows (row_labels acc) (labels_for batch)
  end.
Proof.
  unfold batch_step. intros H. bind_inv H.
  destruct o as [tmp|].
  - destruct (attached_rows _ _ _ _ _ _ E) as [Hlen Hnil].
    destruct base_df as [|b base'].
    + rewrite (Hnil eq_refl) in H. now injection H as <-.
    + destruct tmp as [|t tmp']; [cbn [length] in Hlen; lia|].
      apply (group_loop_labels _ _ _ _ _ _ _ H).
  - injection H as <-.
    assert (Hb : batch = []).
    { unfold _attach_entity_batch in E. destruct batch; [reflexivity|].
      destruct (negb _); discriminate. }
    subst batch. destruct base_df; [reflexivity|].
    symmetry. apply append_rows_nil.
Qed.

Lemma batch_loop_labels (base_df : list BaseRow) valid citeline entity ba
    (bs : list (list string)) :
  forall acc acc',
    batch_loop base_df valid citeline entity ba acc bs = Some acc' ->
    match base_df with
    | [] => acc' = acc
    | _ => row_labels acc'
           = append_rows (row_labels acc) (labels_for (concat bs))
    end.
Proof.
  induction bs as [|b rest IH]; intros acc acc' H; cbn [batch_loop] in H.
  - injection H as <-. destruct base_df; [reflexivity|].
    symmetry. apply append_rows_nil.
  - bind_inv H. specialize (IH _ _ H).
    apply batch_step_labels in E.
    destruct base_df; [congruence|].
    rewrite IH, E, append_rows_assoc. f_equal.
    symmetry. apply labels_for_app.
Qed.

(** X15: when the computation of a run succeeds on a base table with at least
    one row, it yields exactly one master row and one row of each YoY table
    per group, and two rows of each table by history per group (bucket
    [no_prior_direct], then [prior_direct]), all in the order of the group
    list and each starting with the name of its group; on a base table
    without rows every batch is skipped and no row at all is computed. *)
Theorem rows_follow_group_list (base_df : list BaseRow) (valid : list string)
    (citeline : FirmTable) (entity : Entity) (groups : list string)
    (BATCH : nat) (out : Rows) :
  computed_rows base_df valid citeline entity groups BATCH = Some out ->
  row_labels out = labels_for (processed_groups base_df groups).
Proof.
  unfold computed_rows. intros H. bind_inv H.
  assert (Hcat : concat l = groups).
  { unfold batches in E. destruct BATCH as [|b]; [discriminate|].
    injection E as <-.
    apply (slices_partition (S b) (Nat.lt_0_succ b) (length groups) groups eq_refl). }
  apply batch_loop_labels in H. unfold processed_groups.
  destruct base_df as [|b base'].
  - subst out. reflexivity.
  - rewrite H, Hcat. unfold append_rows, row_labels, labels_for. cbn. reflexivity.
Qed.

Lemma rows_follow_group_list_witness :
  exists out,
    computed_rows ex_base ex_valid ex_citeline disease ["X"%string] 20 = Some out
    /\ row_labels out = labels_for (processed_groups ex_base ["X"%string]).
Proof.
  eexists. split; [vm_compute; reflexivity|].
  apply (rows_follow_group_list ex_base ex_valid ex_citeline disease
                                ["X"%string] 20).
  vm_compute. reflexivity.
Defined.

(** ** The Never base and the onset bases *)

Lemma sum_nonneg_zero (l : list Z) :
  Forall (fun z => 0 <= z) l -> fold_right Z.add 0 l = 0 ->
  Forall (fun z => z = 0) l.
Proof.
  induction 1 as [|z l Hz Hl IH]; cbn [fold_right]; intros Hs; [constructor|].
  assert (Hrest : 0 <= fold_right Z.add 0 l).
  { clear IH Hs. induction Hl as [|y l Hy _ IH]; cbn [fold_right]; lia. }
  constructor; [lia | apply IH; lia].
Qed.

Lemma in_firstn_S {A : Type} (l : list A) (i : nat) (x : A) :
  nth_error l i = Some x -> In x (firstn (S i) l).
Proof.
  revert l. induction i as [|i IH]; intros [|a l] H; try discriminate.
  - injection H as ->. now left.
  - right. apply IH. exact H.
Qed.

Lemma running_count_zero_own_row (f : BaseRow -> Z) (base : list BaseRow)
    (i : nat) (r : BaseRow) :
  Forall (fun x => 0 <= f x) base ->
  nth_error base i = Some r ->
  running_count f base i r = 0 -> f r = 0.
Proof.
  intros Hnn Hr Hz. unfold running_count in Hz.
  apply sum_nonneg_zero in Hz.
  - rewrite Forall_forall in Hz. apply Hz. apply in_map.
    apply filter_In. split; [apply in_firstn_S; exact Hr|].
    apply pair_eqb_spec. reflexivity.
  - apply Forall_forall. intros z Hz'. apply in_map_iff in Hz'.
    destruct Hz' as (x & <- & Hx). apply filter_In in Hx. destruct Hx as [Hx _].
    rewrite Forall_forall in Hnn. apply Hnn.
    rewrite <- (firstn_skipn (S i) base). apply in_or_app. now left.
Qed.

(** X16: in a base table whose cleaned indicators are not negative, a Never
    row (no indirect and no direct interlock of the pair up to and including
    the year) has both indicators at zero in its own year, so it is neither an
    Indirect-YoY nor a Direct-YoY row: the Never base shares no row with the
    two onset bases. *)
Theorem never_rows_are_no_onsets (df : list InterlockRow) (i : nat)
    (r : BaseRow) :
  indicators_nonneg (base_rows df) = true ->
  nth_error (base_rows df) i = Some r ->
  mask_never r = true ->
  interlock_indirect r = 0 /\ interlock_direct r = 0
  /\ mask_indirect_yoy r = false /\ mask_direct_yoy r = false.
Proof.
  intros Hnn Hr Hnever.
  destruct (base_rows_masks df i r Hr) as (Hi & Hd & Hn).
  apply Hn in Hnever. destruct Hnever as [Hci Hcd].
  unfold indicators_nonneg in Hnn. rewrite forallb_forall in Hnn.
  assert (Hzi : interlock_indirect r = 0).
  { apply (running_count_zero_own_row _ (base_rows df) i r); [|exact Hr|exact Hci].
    apply Forall_forall. intros x Hx. specialize (Hnn x Hx).
    apply andb_true_iff in Hnn. destruct Hnn as [H _]. now apply Z.leb_le. }
  assert (Hzd : interlock_direct r = 0).
  { apply (running_count_zero_own_row _ (base_rows df) i r); [|exact Hr|exact Hcd].
    apply Forall_forall. intros x Hx. specialize (Hnn x Hx).
    apply andb_true_iff in Hnn. destruct Hnn as [_ H]. now apply Z.leb_le. }
  repeat split; try assumption.
  - destruct (mask_indirect_yoy r); [|reflexivity].
    destruct (proj1 Hi eq_refl) as [H _]. lia.
  - destruct (mask_direct_yoy r); [|reflexivity].
    destruct (proj1 Hd eq_refl) as [H _]. lia.
Qed.

Lemma never_rows_are_no_onsets_witness :
  exists r,
    nth_error (base_rows ex_interlock) 1 = Some r
    /\ interlock_indirect r = 0 /\ interlock_direct r = 0
    /\ mask_indirect_yoy r = false /\ mask_direct_yoy r = false.
Proof.
  eexists. split; [vm_compute; reflexivity|].
  apply (never_rows_are_no_onsets ex_interlock 1);
    vm_compute; reflexivity.
Defined.

(** ** Runs over several entities *)

Lemma run_all_outcome (df : list BaseRow) (valid : list string)
    (citeline : FirmTable) (gbe : list (Entity * list string))
    (ents : list Entity) :
  forall fs,
  exists done rest new r,
    run_all df valid citeline gbe ents fs = ((fs ++ new)%list, r)
    /\ entities_with_groups gbe ents = (done ++ rest)%list
    /\ map file_name new = flat_map entity_file_names done
    /\ ended_at df valid citeline gbe rest r.
Proof.
  induction ents as [|ent ents IH]; intros fs.
  - exists [], [], [], (Some tt). cbn. rewrite app_nil_r. repeat split.
  - cbn [run_all entities_with_groups filter]. unfold seq_io.
    destruct (get_groups gbe ent) as [|g gs] eqn:Eg.
    + unfold run_entity at 1. cbv beta iota delta [ret].
      destruct (IH fs) as (done & rest & new & r & Hrun & Hsplit & Hnames & Hend).
      exists done, rest, new, r. repeat split; assumption.
    + pose proof (run_entity_outcome df valid citeline ent (g :: gs) 20 fs) as Ho.
      specialize (Ho ltac:(discriminate)).
      destruct (computed_rows df valid citeline ent (g :: gs) 20) as [out|] eqn:Ec.
      * destruct Ho as (new1 & -> & Hn1).
        destruct (IH (fs ++ new1)%list)
          as (done & rest & new & r & -> & Hsplit & Hnames & Hend).
        exists (ent :: done), rest, (new1 ++ new)%list, r.
        repeat split.
        -- now rewrite app_assoc.
        -- cbn [app]. fold (entities_with_groups gbe ents). now rewrite Hsplit.
        -- rewrite map_app, Hn1, Hnames. reflexivity.
        -- exact Hend.
      * rewrite Ho.
        exists [], (ent :: entities_with_groups gbe ents), [], None.
        repeat split.
        -- now rewrite app_nil_r.
        -- exists ent. split; [reflexivity|]. now rewrite Eg.
Qed.

(** X17: once the base table is built, [main] writes whole entities only.
    The entities that have groups are run in the order of the request; the
    files written are the nine files of each entity done, in that order;
    a normal end means every such entity is done, and an exception means the
    computation of the first entity not done raised, in which case the files
    of the entities before it stay written and none of its own exists. *)
Theorem main_writes_whole_entities (valid : list string) (citeline : FirmTable)
    (interlock : list InterlockRow) (run_entities : list Entity)
    (df : list BaseRow) (gbe : list (Entity * list string)) (fs : list File) :
  build_base valid (f_columns citeline) interlock run_entities = Some (df, gbe) ->
  exists done rest new r,
    main valid citeline interlock run_entities fs = ((fs ++ new)%list, r)
    /\ entities_with_groups gbe run_entities = (done ++ rest)%list
    /\ map file_name new = flat_map entity_file_names done
    /\ ended_at df valid citeline gbe rest r.
Proof.
  intros Hb. unfold main, seq_io. rewrite Hb. cbv beta iota delta [lift ret].
  apply run_all_outcome.
Qed.

Lemma main_writes_whole_entities_witness :
  exists done rest new r,
    main ex_valid ex_citeline ex_interlock [disease; therapeutic] []
    = (([] ++ new)%list, r)
    /\ entities_with_groups [(disease, ["X"%string]); (therapeutic, [])]
                            [disease; therapeutic] = (done ++ rest)%list
    /\ map file_name new = flat_map entity_file_names done
    /\ ended_at ex_base ex_valid ex_citeline
                [(disease, ["X"%string]); (therapeutic, [])] rest r.
Proof.
  apply (main_writes_whole_entities ex_valid ex_citeline ex_interlock
           [disease; therapeutic] ex_base
           [(disease, ["X"%string]); (therapeutic, [])] []).
  vm_compute. reflexivity.
Defined.

(** ** A group without its launch column *)

Lemma attach_missing_column (base : list BaseRow) (valid : list string)
    (citeline : FirmTable) (entity : Entity) (batch : list string) (g : string) :
  In g batch ->
  ~ In (col_launch entity g) (f_columns citeline) ->
  _attach_entity_batch base valid citeline entity batch = None.
Proof.
  intros Hg Hmiss. unfold _attach_entity_batch.
  destruct batch as [|g0 batch']; [contradiction|].
  set (usecols := (_ ++ flat_map _ (g0 :: batch'))%list).
  destruct (forallb _ usecols) eqn:E; [|reflexivity].
  exfalso. apply Hmiss. rewrite forallb_forall in E.
  assert (Hin : In (col_launch entity g) usecols).
  { unfold usecols. apply in_or_app. right. apply in_flat_map.
    exists g. split; [exact Hg | right; now left]. }
  specialize (E _ Hin). apply existsb_exists in E.
  destruct E as (c & Hc & Heq). apply String.eqb_eq in Heq. now subst c.
Qed.

Lemma batch_loop_fails (base_df : list BaseRow) valid citeline entity ba
    (bs : list (list string)) (b : list string) :
  In b bs ->
  _attach_entity_batch base_df valid citeline entity b = None ->
  forall acc, batch_loop base_df valid citeline entity ba acc bs = None.
Proof.
  intros Hb Hfail. induction bs as [|b' rest IH]; [contradiction|].
  intros acc. cbn [batch_loop].
  destruct Hb as [-> | Hb].
  - unfold batch_step. rewrite Hfail. reflexivity.
  - destruct (batch_step _ _ _ _ _ acc b') as [acc'|]; cbn [bind]; [|reflexivity].
    apply (IH Hb).
Qed.

(** X19: groups are detected from the added columns alone; when the launch
    column of one group of the list is missing from the firm-year table, the
    run of the entity raises and writes no file, whatever the other groups
    and whatever the batch size. *)
Theorem missing_launch_column_aborts_entity (base_df : list BaseRow)
    (valid : list string) (citeline : FirmTable) (entity : Entity)
    (groups : list string) (BATCH : nat) (g : string) (fs : list File) :
  In g groups ->
  ~ In (col_launch entity g) (f_columns citeline) ->
  run_entity base_df valid citeline entity groups BATCH fs = (fs, None).
Proof.
  intros Hg Hmiss.
  assert (Hne : groups <> []) by (destruct groups; [contradiction | discriminate]).
  pose proof (run_entity_outcome base_df valid citeline entity groups BATCH fs Hne)
    as Ho.
  assert (Hnone : computed_rows base_df valid citeline entity groups BATCH = None).
  { unfold computed_rows.
    destruct (batches groups BATCH) as [bs|] eqn:Eb; cbn [bind]; [|reflexivity].
    assert (Hcat : concat bs = groups).
    { unfold batches in Eb. destruct BATCH as [|n]; [discriminate|].
      injection Eb as <-.
      apply (slices_partition (S n) (Nat.lt_0_succ n) (length groups) groups
                              eq_refl). }
    rewrite <- Hcat in Hg. apply in_concat in Hg. destruct Hg as (b & Hb & Hgb).
    apply (batch_loop_fails _ _ _ _ _ bs b Hb).
    apply (attach_missing_column _ _ _ _ _ g Hgb Hmiss). }
  rewrite Hnone in Ho. exact Ho.
Qed.

Lemma missing_launch_column_aborts_entity_witness :
  run_entity ex_base ex_valid ex_citeline_no_launch disease ["X"%string] 20 []
  = ([], None).
Proof.
  apply (missing_launch_column_aborts_entity ex_base ex_valid
           ex_citeline_no_launch disease ["X"%string] 20 "X"%string []).
  - simpl. auto.
  - simpl. intros [H | [H | [H | []]]]; discriminate H.
Defined.

(** ** The legacy files *)

Lemma select_positions (header cols : list string) (row : list cell)
    (idxs : list nat) :
  map (fun c => index_of c header) cols = map Some idxs ->
  select header cols row = pick row idxs.
Proof.
  revert idxs. induction cols as [|c cols IH]; intros [|i idxs] H;
    try discriminate; [reflexivity|].
  cbn [map] in H. injection H as Hc Hrest.
  cbn [select pick]. unfold field. rewrite Hc, (IH idxs Hrest). reflexivity.
Qed.

Lemma skipn_nth_error {A : Type} (l : list A) (i : nat) (x : A) :
  nth_error l i = Some x -> skipn i l = x :: skipn (S i) l.
Proof.
  revert l. induction i as [|i IH]; intros [|a l] H; try discriminate.
  - injection H as ->. reflexivity.
  - cbn [skipn]. apply IH. exact H.
Qed.

Lemma pick_seq (row : list cell) (n : nat) :
  forall off, (off + n <= length row)%nat ->
    pick row (seq off n) = Some (firstn n (skipn off row)).
Proof.
  induction n as [|n IH]; intros off Hlen; [reflexivity|].
  cbn [seq pick].
  destruct (nth_error row off) as [x|] eqn:Ex;
    [|apply nth_error_None in Ex; lia].
  rewrite IH by lia. rewrite (skipn_nth_error row off x Ex). reflexivity.
Qed.

Lemma select_all_block (header cols : list string) (off : nat)
    (rows : list (list cell)) :
  map (fun c => index_of c header) cols = map Some (0%nat :: seq off 52) ->
  (off + 52 <= 157)%nat ->
  Forall (fun r => length r = 157%nat) rows ->
  select_all header cols rows = Some (map (scenario_block off) rows).
Proof.
  intros Hidx Hoff. induction 1 as [|r rows Hr _ IH]; [reflexivity|].
  cbn [select_all map]. rewrite IH, (select_positions _ _ r _ Hidx).
  cbn [pick]. rewrite pick_seq by lia.
  destruct r as [|x r']; [discriminate|]. reflexivity.
Qed.

(** X20: on master rows of the width of the master header, [emit_master]
    writes the master rows as they are, and each legacy file holds, for every
    master row in order, the group name followed by the 52 cells of one
    scenario block of that row: the indirect block (cells 1-52) for the
    indirect file, the direct block (cells 53-104) for the direct file, whose
    e and f columns are written under the names a and b, and the no-interlock
    block (cells 105-156) for the third. *)
Theorem legacy_files_are_master_blocks (entity : Entity)
    (rows : list (list cell)) (fs : list File) :
  Forall (fun r => length r = 157%nat) rows ->
  exists new,
    emit_master entity rows fs = ((fs ++ new)%list, Some tt)
    /\ map file_rows new
       = [ rows; map (scenario_block 1) rows; map (scenario_block 53) rows;
           map (scenario_block 105) rows ].
Proof.
  intros Hrows. unfold emit_master.
  cbv beta iota zeta delta [seq_io to_csv].
  rewrite (DataFrame_ok rows master_cols fs Hrows).
  cbv beta iota delta [lift ret].
  rewrite (select_all_block _ _ 1 rows), (select_all_block _ _ 53 rows),
    (select_all_block _ _ 105 rows);
    try exact Hrows; try lia; try (destruct entity; vm_compute; reflexivity).
  cbv beta iota.
  eexists. split; [rewrite <- !app_assoc; reflexivity|]. reflexivity.
Qed.

Lemma legacy_files_are_master_blocks_witness :
  exists new,
    emit_master disease ex_master_rows [] = (([] ++ new)%list, Some tt)
    /\ map file_rows new
       = [ ex_master_rows;
           map (scenario_block 1) ex_master_rows;
           map (scenario_block 53) ex_master_rows;
           map (scenario_block 105) ex_master_rows ].
Proof.
  apply (legacy_files_are_master_blocks disease ex_master_rows []).
  vm_compute. repeat constructor.
Defined.

(** ** A repeated firm-year *)

Lemma merge_left_length_gt {L : Type} (left : list L) (name : L -> string)
    (yr : L -> Z) (firm : list FirmRow) (l : L) :
  In l left ->
  (2 <= length (matches_of firm (name l) (yr l)))%nat ->
  (length left < length (merge_left left name yr firm))%nat.
Proof.
  intros Hin Hdup. unfold merge_left.
  induction left as [|x rest IH]; [contradiction|].
  cbn [flat_map]. rewrite length_app. cbn [length].
  pose proof (merge_left_length rest name yr firm) as Hrest.
  unfold merge_left in Hrest.
  set (n := length (flat_map _ rest)) in *.
  destruct Hin as [-> | Hin].
  - clear IH. clearbody n. unfold matches_of in Hdup.
    destruct (filter _ firm) as [|fr ms]; cbn [length map] in *; [lia|].
    rewrite length_map. lia.
  - specialize (IH Hin). clearbody n.
    destruct (filter _ firm) as [|fr ms]; cbn [length map]; lia.
Qed.

Lemma merge_left_keeps {L : Type} (left : list L) (name : L -> string)
    (yr : L -> Z) (firm : list FirmRow) (l : L) :
  In l left -> exists o, In (l, o) (merge_left left name yr firm).
Proof.
  intros Hin. unfold merge_left.
  assert (Hblk : exists o,
             In (l, o)
                match filter (fun fr => String.eqb (f_BoardName fr) (name l)
                                        && (f_year fr =? yr l)%Z) firm with
                | [] => [(l, None)]
                | ms => map (fun fr => (l, Some fr)) ms
                end).
  { destruct (filter _ firm) as [|fr ms].
    - exists None. now left.
    - exists (Some fr). now left. }
  destruct Hblk as (o & Ho). exists o. apply in_flat_map. exists l. now split.
Qed.

(** A repeated firm-year makes the joined table longer than the base table. *)
Lemma attached_longer (base : list BaseRow) (valid : list string)
    (citeline : FirmTable) (entity : Entity) (batch : list string)
    (tmp : list JoinedRow) :
  duplicated_firm_year base (whitelisted_firm valid citeline) = true ->
  _attach_entity_batch base valid citeline entity batch = Some (Some tmp) ->
  (length base < length tmp)%nat.
Proof.
  intros Hdup. unfold _attach_entity_batch.
  destruct batch as [|g batch]; [discriminate|].
  destruct (negb _); [discriminate|].
  fold (whitelisted_firm valid citeline).
  set (firm := whitelisted_firm valid citeline) in *.
  set (m1 := merge_left base BoardName1 year firm).
  set (m2 := merge_left m1 _ _ firm).
  intros H.
  assert (E : length tmp = length m2).
  { assert (E : tmp = stable_sort
                        (fun a b => key3_leb (joined_key a) (joined_key b))
                        (map (fun ip => {| j_index := fst ip;
                                           j_base := fst (fst (snd ip));
                                           j_side1 := snd (fst (snd ip));
                                           j_side2 := snd (snd ip) |})
                             (combine (seq 0 (length m2)) m2)))
      by (injection H as <-; reflexivity).
    rewrite E, stable_sort_length, length_map, length_combine, length_seq.
    apply Nat.min_id. }
  rewrite E. clear H E.
  pose proof (merge_left_length base BoardName1 year firm) as H1.
  pose proof (merge_left_length m1 (fun p => BoardName2 (fst p))
                                (fun p => year (fst p)) firm) as H2.
  fold m1 in H1. fold m2 in H2.
  unfold duplicated_firm_year in Hdup. apply existsb_exists in Hdup.
  destruct Hdup as (b & Hb & Hd). apply orb_true_iff in Hd.
  destruct Hd as [Hd | Hd]; apply Nat.leb_le in Hd.
  - pose proof (merge_left_length_gt base BoardName1 year firm b Hb Hd) as Hgt.
    fold m1 in Hgt. lia.
  - destruct (merge_left_keeps base BoardName1 year firm b Hb) as (o & Ho).
    fold m1 in Ho.
    pose proof (merge_left_length_gt m1 (fun p => BoardName2 (fst p))
                  (fun p => year (fst p)) firm (b, o) Ho Hd) as Hgt.
    fold m2 in Hgt. lia.
Qed.

Lemma counts_shape_mismatch (arr : list Row) (M : list bool) :
  (2 <= length M)%nat -> (length M < length arr)%nat ->
  compute_bundle_counts arr M = None.
Proof.
  intros HM Harr. unfold compute_bundle_counts, mats, broadcast.
  destruct M as [|b [|b' M']]; cbn [length] in HM; try lia.
  destruct arr as [|r [|r' arr']]; cbn [length] in Harr; try lia.
  assert (E : (length (b :: b' :: M') =? length (r :: r' :: arr'))%nat = false)
    by (apply Nat.eqb_neq; cbn [length] in *; lia).
  rewrite E. reflexivity.
Qed.

Lemma group_step_shape_mismatch (ba : BaseArrays) (base_masks : BaseMasks)
    pair_indices (cache : Cache) (acc : Rows) (g : string) :
  (2 <= length (ba_mask_indirect_yoy ba))%nat ->
  (length (ba_mask_indirect_yoy ba) < length (c_cur_o1 cache g))%nat ->
  group_step ba base_masks pair_indices cache acc g = None.
Proof.
  intros H2 Hlt. unfold group_step.
  destruct (prepare_arrays_fast base_masks pair_indices cache g) as [arr|] eqn:Ea;
    cbn [bind]; [|reflexivity].
  assert (Hrows : length (rows arr) = length (c_cur_o1 cache g)).
  { unfold prepare_arrays_fast in Ea. bind_inv Ea. destruct p as [ok1 ok2].
    injection Ea as <-. cbn [rows]. now rewrite length_map, length_seq. }
  destruct (master_block arr (arr_mask_indirect arr) (tot_indirect ba));
    cbn [bind]; [|reflexivity].
  destruct (master_block arr (arr_mask_direct arr) (tot_direct ba));
    cbn [bind]; [|reflexivity].
  destruct (master_block arr (arr_mask_none arr) (tot_none ba));
    cbn [bind]; [|reflexivity].
  unfold yoy_row at 1.
  rewrite (counts_shape_mismatch (rows arr) (ba_mask_indirect_yoy ba)) by lia.
  reflexivity.
Qed.

(** X21: the YoY masks are taken from the base table while the bundle of a
    group has one row per row of the joined table.  When the base table has
    at least two rows and some base row finds two or more whitelisted
    firm-years for the firm of one of its sides in its year, the left merges
    repeat that row, the two lengths differ, and the run of the entity raises
    and writes no file. *)
Theorem repeated_firm_year_aborts_entity (base_df : list BaseRow)
    (valid : list string) (citeline : FirmTable) (entity : Entity)
    (groups : list string) (BATCH : nat) (fs : list File) :
  groups <> [] ->
  (2 <= length base_df)%nat ->
  duplicated_firm_year base_df (whitelisted_firm valid citeline) = true ->
  run_entity base_df valid citeline entity groups BATCH fs = (fs, None).
Proof.
  intros Hne H2 Hdup.
  pose proof (run_entity_outcome base_df valid citeline entity groups BATCH fs Hne)
    as Ho.
  assert (Hnone : computed_rows base_df valid citeline entity groups BATCH = None).
  { unfold computed_rows.
    destruct (batches groups BATCH) as [bs|] eqn:Eb; cbn [bind]; [|reflexivity].
    unfold batches in Eb. destruct BATCH as [|n]; [discriminate|].
    assert (Hbs : exists rest, bs = firstn (S n) groups :: rest).
    { injection Eb as <-. eexists.
      apply (slices_step (S n) groups (Nat.lt_0_succ n) Hne). }
    destruct Hbs as (rest & ->). clear Eb.
    destruct groups as [|g gs]; [congruence|].
    cbn [firstn batch_loop]. unfold batch_step.
    destruct (_attach_entity_batch base_df valid citeline entity
                                   (g :: firstn n gs))
      as [[tmp|]|] eqn:Ea; cbn [bind]; try reflexivity.
    - pose proof (attached_longer _ _ _ _ _ _ Hdup Ea) as Hlt.
      destruct tmp as [|t tmp']; [cbn [length] in Hlt; lia|].
      cbn [group_loop].
      rewrite group_step_shape_mismatch; [reflexivity | |].
      + cbn [base_arrays ba_mask_indirect_yoy]. now rewrite length_map.
      + cbn [base_arrays ba_mask_indirect_yoy _build_shift_last_cache c_cur_o1].
        unfold column_1. now rewrite !length_map.
    - unfold _attach_entity_batch in Ea. destruct (negb _); discriminate. }
  rewrite Hnone in Ho. exact Ho.
Qed.

Lemma repeated_firm_year_aborts_entity_witness :
  run_entity ex_base ex_valid ex_citeline_dup disease ["X"%string] 20 []
  = ([], None).
Proof.
  apply (repeated_firm_year_aborts_entity ex_base ex_valid ex_citeline_dup
           disease ["X"%string] 20 []).
  - discriminate.
  - vm_compute. lia.
  - vm_compute. reflexivity.
Defined.
